(** * NovaInvoice: the domain-consistency engine of [main.py]

    A shallow embedding of the validation functions, the persistence
    gateway, the bulk import and the invoice-item operations of
    [main.py], with the relational schema of [init_db] as the storage
    model, followed by the properties of the specification. *)

From Stdlib Require Import ZArith String Ascii QArith Qcanon.
From stdpp Require Import base tactics option list gmap strings pretty.

Close Scope Qc_scope.
Close Scope Q_scope.
Local Open Scope Z_scope.
Local Open Scope string_scope.

(** ** Python values and the built-ins the program uses *)

Module Py.

(** The values a field map holds in this program: form and CSV cells are
    [str], identities and quantities are [int]; [None] is what
    [dict.get] gives for a missing key. *)
Inductive pyval : Type :=
  | PyNone
  | PyBool (b : bool)
  | PyInt (z : Z)
  | PyStr (s : string).

#[global] Instance pyval_eq_dec : EqDecision pyval.
Proof. solve_decision. Defined.

(** [bool(v)]. *)
Definition truthy (v : pyval) : bool :=
  match v with
  | PyNone => false
  | PyBool b => b
  | PyInt z => negb (Z.eqb z 0)
  | PyStr s => negb (String.eqb s "")
  end.

(** [a or b]. *)
Definition or_ (a b : pyval) : pyval := if truthy a then a else b.

(** [str(v)]. *)
Definition str (v : pyval) : string :=
  match v with
  | PyNone => "None"
  | PyBool true => "True"
  | PyBool false => "False"
  | PyInt z => pretty z
  | PyStr s => s
  end.

(** [isinstance(v, int)]: [bool] is a subclass of [int]. *)
Definition isinstance_int (v : pyval) : bool :=
  match v with
  | PyInt _ | PyBool _ => true
  | _ => false
  end.

(** [str.isspace] on one character; strings are read as sequences of
    characters of the ASCII range. *)
Definition is_space (c : ascii) : bool :=
  let n := N_of_ascii c in
  ((9 <=? n) && (n <=? 13) || (28 <=? n) && (n <=? 32))%N.

Fixpoint lstrip (l : list ascii) : list ascii :=
  match l with
  | c :: l' => if is_space c then lstrip l' else l
  | [] => []
  end.

(** [s.strip()]. *)
Definition strip (s : string) : string :=
  string_of_list_ascii
    (rev (lstrip (rev (lstrip (list_ascii_of_string s))))).

Definition is_digit (c : ascii) : bool :=
  let n := N_of_ascii c in ((48 <=? n) && (n <=? 57))%N.

Definition digit_val (c : ascii) : Z := Z.of_N (N_of_ascii c) - 48.

(** The digits of an [int] literal as [int(str)] reads them: decimal
    digits, single underscores allowed between two digits. [prev] tells
    whether the previous character was a digit. *)
Fixpoint int_digits (prev : bool) (acc : Z) (l : list ascii) : option Z :=
  match l with
  | [] => if prev then Some acc else None
  | c :: l' =>
      if is_digit c then int_digits true (10 * acc + digit_val c) l'
      else if Ascii.eqb c "_" then
        (if prev then
           match l' with
           | d :: _ => if is_digit d then int_digits false acc l' else None
           | [] => None
           end
         else None)
      else None
  end.

(** [int(s)] for a string: [None] stands for [ValueError]. *)
Definition int_of_str (s : string) : option Z :=
  match list_ascii_of_string (strip s) with
  | "-"%char :: l => Z.opp <$> int_digits false 0 l
  | "+"%char :: l => int_digits false 0 l
  | l => int_digits false 0 l
  end.

(** [dict.get(key)]. *)
Definition get (row : gmap string pyval) (key : string) : pyval :=
  default PyNone (row !! key).

(** [l.append(x)]. *)
Definition append {A : Type} (l : list A) (x : A) : list A := (l ++ [x])%list.

(** [repr] of a list of strings none of which needs escaping, as an
    f-string interpolates it. *)
Definition repr_list (l : list string) : string :=
  "[" ++ String.concat ", " (map (fun s => "'" ++ s ++ "'") l) ++ "]".

End Py.

Export Py.

(** ** Regular expressions, as far as [EMAIL_RE] needs them *)

Module Re.

Inductive regex : Type :=
  | Void
  | Eps
  | Lit (c : ascii)
  | NotLit (c : ascii)           (* [^c] *)
  | Seq (r1 r2 : regex)
  | Alt (r1 r2 : regex)
  | Star (r : regex).

(** [r+] *)
Definition Plus (r : regex) : regex := Seq r (Star r).

Fixpoint nullable (r : regex) : bool :=
  match r with
  | Void | Lit _ | NotLit _ => false
  | Eps | Star _ => true
  | Seq r1 r2 => nullable r1 && nullable r2
  | Alt r1 r2 => nullable r1 || nullable r2
  end.

(** Brzozowski derivative of [r] by the character [a]. *)
Fixpoint deriv (a : ascii) (r : regex) : regex :=
  match r with
  | Void | Eps => Void
  | Lit c => if Ascii.eqb a c then Eps else Void
  | NotLit c => if Ascii.eqb a c then Void else Eps
  | Seq r1 r2 =>
      if nullable r1 then Alt (Seq (deriv a r1) r2) (deriv a r2)
      else Seq (deriv a r1) r2
  | Alt r1 r2 => Alt (deriv a r1) (deriv a r2)
  | Star r1 => Seq (deriv a r1) (Star r1)
  end.

(** The whole of [l] is matched by [r]. *)
Fixpoint matches (r : regex) (l : list ascii) : bool :=
  match l with
  | [] => nullable r
  | a :: l' => matches (deriv a r) l'
  end.

Definition newline : ascii := ascii_of_N 10.

(** [re.compile("^" r "$").match(s) is not None]: [$] is the end of the
    string or the position before a newline that ends the string. *)
Definition match_anchored (r : regex) (s : string) : bool :=
  let l := list_ascii_of_string s in
  matches r l ||
  match rev l with
  | c :: l' => Ascii.eqb c newline && matches r (rev l')
  | [] => false
  end.

End Re.

(** ** The validation engine *)

(** [EMAIL_RE = re.compile(r"^[^@]+@[^@]+\.[^@]+$")] *)
Definition EMAIL_RE : Re.regex :=
  Re.Seq (Re.Plus (Re.NotLit "@"))
    (Re.Seq (Re.Lit "@")
       (Re.Seq (Re.Plus (Re.NotLit "@"))
          (Re.Seq (Re.Lit ".") (Re.Plus (Re.NotLit "@"))))).

Definition validate_email (email : string) : bool :=
  if negb (truthy (PyStr email)) then true
  else Re.match_anchored EMAIL_RE email.

(** *** [datetime.strptime(s, "%Y-%m-%d")] *)

Fixpoint split_on (sep : ascii) (cur : list ascii) (l : list ascii)
  : list (list ascii) :=
  match l with
  | [] => [rev cur]
  | c :: l' =>
      if Ascii.eqb c sep then rev cur :: split_on sep [] l'
      else split_on sep (c :: cur) l'
  end.

(** [%Y] is [\d\d\d\d]. *)
Definition parse_year (l : list ascii) : option Z :=
  match l with
  | [a; b; c; d] =>
      if is_digit a && is_digit b && is_digit c && is_digit d
      then Some (1000 * digit_val a + 100 * digit_val b
                 + 10 * digit_val c + digit_val d)
      else None
  | _ => None
  end.

(** [%m] is [1[0-2]|0[1-9]|[1-9]]. *)
Definition parse_month (l : list ascii) : option Z :=
  match l with
  | [a; b] =>
      if Ascii.eqb a "1" && is_digit b && (digit_val b <=? 2)%Z
      then Some (10 + digit_val b)
      else if Ascii.eqb a "0" && is_digit b && (1 <=? digit_val b)%Z
      then Some (digit_val b)
      else None
  | [a] => if is_digit a && (1 <=? digit_val a)%Z
           then Some (digit_val a) else None
  | _ => None
  end.

(** [%d] is [3[0-1]|[1-2]\d|0[1-9]|[1-9]| [1-9]]. *)
Definition parse_day (l : list ascii) : option Z :=
  match l with
  | [a; b] =>
      if Ascii.eqb a "3" && is_digit b && (digit_val b <=? 1)%Z
      then Some (30 + digit_val b)
      else if is_digit a && (1 <=? digit_val a)%Z && (digit_val a <=? 2)%Z
              && is_digit b
      then Some (10 * digit_val a + digit_val b)
      else if (Ascii.eqb a "0" || Ascii.eqb a " ")
              && is_digit b && (1 <=? digit_val b)%Z
      then Some (digit_val b)
      else None
  | [a] => if is_digit a && (1 <=? digit_val a)%Z
           then Some (digit_val a) else None
  | _ => None
  end.

Definition is_leap (y : Z) : bool :=
  ((y mod 4 =? 0) && (negb (y mod 100 =? 0) || (y mod 400 =? 0)))%Z.

Definition days_in_month (y m : Z) : Z :=
  if (m =? 2)%Z then (if is_leap y then 29 else 28)
  else if ((m =? 4) || (m =? 6) || (m =? 9) || (m =? 11))%Z then 30
  else 31.

(** [Some (y, m, d)] when [strptime] returns, [None] when it raises. *)
Definition strptime_ymd (s : string) : option (Z * Z * Z) :=
  match split_on "-" [] (list_ascii_of_string s) with
  | [ys; ms; ds] =>
      y ← parse_year ys; m ← parse_month ms; d ← parse_day ds;
      if ((1 <=? y) && (d <=? days_in_month y m))%Z
      then Some (y, m, d) else None
  | _ => None
  end.

Definition validate_date_iso (s : pyval) : bool :=
  if negb (truthy s) then true
  else match s with
       | PyStr s' => bool_decide (is_Some (strptime_ymd s'))
       | _ => false       (* TypeError, caught by the bare except *)
       end.

(** *** Numbers of type REAL

    Python [float] and SQLite REAL are one carrier here; its arithmetic
    is whatever the carrier provides: [fadd] is the addition [SUM] adds
    with, [fmul] the product of two floats. Values are compared as
    numbers, so the one value that [bool] sends to [False] is 0.0.
    [float_is_nan] tells the value that is not a number: SQLite has no
    such REAL, a NaN that is bound or computed is NULL there. *)
Class FloatOps : Type := {
  real : Type;
  real_eq_dec :: EqDecision real;
  f0 : real;                               (* 0.0 *)
  fadd : real → real → real;
  fmul : real → real → real;
  float_of_int : Z → option real;          (* None: OverflowError *)
  float_of_str : string → option real;     (* None: ValueError *)
  float_truthy : real → bool;              (* bool(x) *)
  float_nonneg : real → bool;              (* x >= 0 *)
  float_is_nan : real → bool;              (* math.isnan(x) *)
  float_falsy_zero : ∀ x, float_truthy x = false → x = f0;
}.

Section Validation.
Context `{FloatOps}.

Definition is_float (v : pyval) : bool :=
  match v with
  | PyStr s => bool_decide (is_Some (float_of_str s))
  | PyInt z => bool_decide (is_Some (float_of_int z))
  | PyBool b => bool_decide (is_Some (float_of_int (if b then 1 else 0)))
  | PyNone => false
  end.

Definition is_int (v : pyval) : bool :=
  match v with
  | PyStr s => bool_decide (is_Some (int_of_str s))
  | PyInt _ | PyBool _ => true
  | PyNone => false
  end.

Definition required_msg (field : string) : string :=
  field ++ " is REQUIRED - cannot be empty".

(** The body of the loop over the fields of a partner. *)
Definition check_partner_field (row : gmap string pyval)
    (errors : list string) (field : string) : list string :=
  let value := strip (str (or_ (get row field) (PyStr ""))) in
  if negb (truthy (PyStr value)) then
    append errors (required_msg field)
  else if String.eqb field "email" && truthy (PyStr value)
          && negb (validate_email value) then
    append errors (field ++ " format is invalid")
  else errors.

Definition validate_partner_row (row : gmap string pyval) : list string :=
  let fields := ["name"; "tax_id"; "email"; "phone"; "address"] in
  foldl (check_partner_field row) [] fields.

(** The body of the loop over the fields of a product. *)
Definition check_product_field (row : gmap string pyval)
    (errors : list string) (field : string) : list string :=
  let value := strip (str (or_ (get row field) (PyStr ""))) in
  if negb (truthy (PyStr value)) then append errors (required_msg field)
  else errors.

Definition validate_product_row (row : gmap string pyval) : list string :=
  let fields := ["sku"; "name"; "description"; "price"; "stock"] in
  let errors := foldl (check_product_field row) [] fields in
  let errors :=
    if truthy (get row "price") && negb (is_float (get row "price"))
    then append errors "price must be a valid number" else errors in
  let errors :=
    if truthy (get row "stock") && negb (is_int (get row "stock"))
    then append errors "stock must be a valid integer" else errors in
  errors.

(** The body of the loop over the fields of an invoice and of an
    invoice item: the value itself is tested, not its text. *)
Definition check_present (row : gmap string pyval)
    (errors : list string) (field : string) : list string :=
  let value := get row field in
  if negb (truthy value) then append errors (required_msg field)
  else errors.

Definition validate_invoice_row (row : gmap string pyval) : list string :=
  let fields := ["partner_id"; "invoice_date"; "due_date"; "status"] in
  let errors := foldl (check_present row) [] fields in
  let errors :=
    if truthy (get row "partner_id")
       && negb (isinstance_int (get row "partner_id"))
    then append errors "partner_id must be a valid number" else errors in
  let errors :=
    if truthy (get row "invoice_date")
       && negb (validate_date_iso (get row "invoice_date"))
    then append errors "invoice_date must be YYYY-MM-DD format" else errors in
  let errors :=
    if truthy (get row "due_date")
       && negb (validate_date_iso (get row "due_date"))
    then append errors "due_date must be YYYY-MM-DD format" else errors in
  errors.

Definition validate_invoice_item_row (row : gmap string pyval)
  : list string :=
  let required_fields := ["invoice_id"; "product_id"; "quantity"] in
  let errors := foldl (check_present row) [] required_fields in
  let errors :=
    if truthy (get row "invoice_id")
       && negb (isinstance_int (get row "invoice_id"))
    then append errors "invoice_id must be a valid number" else errors in
  let errors :=
    if truthy (get row "product_id")
       && negb (isinstance_int (get row "product_id"))
    then append errors "product_id must be a valid number" else errors in
  let errors :=
    if truthy (get row "quantity")
       && negb (isinstance_int (get row "quantity"))
    then append errors "quantity must be a positive integer" else errors in
  errors.

End Validation.

(** ** The relational store: the schema of [init_db] *)

Module Partner.
Record t : Type := mk {
  id : Z;
  name : string;                 (* TEXT NOT NULL *)
  tax_id : option string;
  email : option string;
  phone : option string;
  address : option string }.
End Partner.

Module Product.
Record t `{FloatOps} : Type := mk {
  id : Z;
  sku : option string;           (* TEXT UNIQUE *)
  name : string;                 (* TEXT NOT NULL *)
  description : option string;
  price : real;                  (* REAL NOT NULL CHECK(price >= 0) *)
  stock : Z }.                   (* INTEGER CHECK(stock >= 0) *)
End Product.

Module Invoice.
Record t `{FloatOps} : Type := mk {
  id : Z;
  partner_id : option Z;         (* INTEGER NOT NULL, REFERENCES partners *)
  invoice_date : string;         (* TEXT NOT NULL *)
  due_date : option string;
  status : string;
  total_amount : real }.

Definition set_total_amount `{FloatOps} (tot : real) (i : t) : t :=
  mk _ (id i) (partner_id i) (invoice_date i) (due_date i) (status i) tot.

Definition set_partner_id `{FloatOps} (p : option Z) (i : t) : t :=
  mk _ (id i) p (invoice_date i) (due_date i) (status i) (total_amount i).
End Invoice.

Module InvoiceItem.
Record t `{FloatOps} : Type := mk {
  id : Z;
  invoice_id : Z;                (* NOT NULL, REFERENCES invoices ON DELETE CASCADE *)
  product_id : Z;                (* NOT NULL, REFERENCES products *)
  quantity : Z;                  (* NOT NULL CHECK(quantity>0) *)
  unit_price : real;             (* REAL NOT NULL *)
  line_total : real }.           (* REAL NOT NULL *)
End InvoiceItem.

(** What the Python side catches as [Exception]; the string is
    [str(e)]. *)
Inductive exn : Type :=
  | IntegrityError (msg : string)
  | OperationalError (msg : string)
  | OverflowError (msg : string)
  | ValueError (msg : string)
  | TypeError (msg : string).

Definition exn_str (e : exn) : string :=
  match e with
  | IntegrityError m | OperationalError m | OverflowError m
  | ValueError m | TypeError m => m
  end.

Section Store.
Context `{FloatOps}.

(** The four tables in rowid order, and the [sqlite_sequence] counter
    that AUTOINCREMENT keeps for each. *)
Record database : Type := mkdb {
  partners : list Partner.t;
  products : list Product.t;
  invoices : list Invoice.t;
  invoice_items : list InvoiceItem.t;
  seq_partners : Z;
  seq_products : Z;
  seq_invoices : Z;
  seq_invoice_items : Z }.

(** The store right after [init_db] on a fresh file. *)
Definition init_db : database := mkdb [] [] [] [] 0 0 0 0.

(** AUTOINCREMENT: one more than the largest rowid that ever existed. *)
Definition next_rowid (seq : Z) (ids : list Z) : Z :=
  Z.max seq (foldr Z.max 0 ids) + 1.

(** An [int] parameter must fit SQLite's 64-bit INTEGER. *)
Definition sqlite_int (z : Z) : bool :=
  (- 2 ^ 63 <=? z)%Z && (z <? 2 ^ 63)%Z.

Definition bind_ints (zs : list Z) : option exn :=
  if forallb sqlite_int zs then None
  else Some (OverflowError "Python int too large to convert to SQLite INTEGER").

Definition fk_failed : exn := IntegrityError "FOREIGN KEY constraint failed".

(** The statements the program executes. Each returns [lastrowid] (only
    an INSERT sets it) and the new store, or the exception raised; a
    failed statement changes nothing. *)
Definition sql_result : Type := exn + (option Z * database).

(** [INSERT INTO partners (name,tax_id,email,phone,address) VALUES (?,?,?,?,?)] *)
Definition sql_insert_partner (name tax_id email phone address : option string)
    (d : database) : sql_result :=
  match name with
  | None => inl (IntegrityError "NOT NULL constraint failed: partners.name")
  | Some name =>
      let id := next_rowid (seq_partners d) (Partner.id <$> partners d) in
      inr (Some id,
           mkdb (partners d ++ [Partner.mk id name tax_id email phone address])%list
                (products d) (invoices d) (invoice_items d)
                id (seq_products d) (seq_invoices d) (seq_invoice_items d))
  end.

(** [INSERT INTO products (sku,name,description,price,stock) VALUES (?,?,?,?,?)] *)
Definition sql_insert_product (sku name description : option string)
    (price : real) (stock : Z) (d : database) : sql_result :=
  match bind_ints [stock] with
  | Some e => inl e
  | None =>
    match name with
    | None => inl (IntegrityError "NOT NULL constraint failed: products.name")
    | Some name =>
    if float_is_nan price     (* bound as NULL *)
    then inl (IntegrityError "NOT NULL constraint failed: products.price")
    else if negb (float_nonneg price)
    then inl (IntegrityError "CHECK constraint failed: price >= 0")
    else if negb (0 <=? stock)%Z
    then inl (IntegrityError "CHECK constraint failed: stock >= 0")
    else if existsb (fun p => bool_decide (is_Some sku ∧ Product.sku p = sku))
              (products d)
    then inl (IntegrityError "UNIQUE constraint failed: products.sku")
    else
      let id := next_rowid (seq_products d) (Product.id <$> products d) in
      inr (Some id,
           mkdb (partners d)
                (products d ++ [Product.mk _ id sku name description price stock])%list
                (invoices d) (invoice_items d)
                (seq_partners d) id (seq_invoices d) (seq_invoice_items d))
    end
  end.

(** [INSERT INTO invoices (partner_id,invoice_date,due_date,status,total_amount)
    VALUES (?,?,?,?,0)] *)
Definition sql_insert_invoice (partner_id : Z) (invoice_date : string)
    (due_date : option string) (status : string) (d : database) : sql_result :=
  match bind_ints [partner_id] with
  | Some e => inl e
  | None =>
    if negb (existsb (fun p => (Partner.id p =? partner_id)%Z) (partners d))
    then inl fk_failed
    else
      let id := next_rowid (seq_invoices d) (Invoice.id <$> invoices d) in
      inr (Some id,
           mkdb (partners d) (products d)
                (invoices d ++ [Invoice.mk _ id (Some partner_id) invoice_date
                                  due_date status f0])%list
                (invoice_items d)
                (seq_partners d) (seq_products d) id (seq_invoice_items d))
  end.

(** [INSERT INTO invoice_items (invoice_id,product_id,quantity,unit_price,line_total)
    VALUES (?,?,?,?,?)]. A NaN is bound as NULL, and the two REAL columns
    are NOT NULL; NOT NULL is checked before CHECK. *)
Definition sql_insert_invoice_item (invoice_id product_id quantity : Z)
    (unit_price line_total : real) (d : database) : sql_result :=
  match bind_ints [invoice_id; product_id; quantity] with
  | Some e => inl e
  | None =>
    if float_is_nan unit_price
    then inl (IntegrityError "NOT NULL constraint failed: invoice_items.unit_price")
    else if float_is_nan line_total
    then inl (IntegrityError "NOT NULL constraint failed: invoice_items.line_total")
    else if negb (0 <? quantity)%Z
    then inl (IntegrityError "CHECK constraint failed: quantity>0")
    else if negb (existsb (fun i => (Invoice.id i =? invoice_id)%Z) (invoices d)
                  && existsb (fun p => (Product.id p =? product_id)%Z) (products d))
    then inl fk_failed
    else
      let id := next_rowid (seq_invoice_items d)
                  (InvoiceItem.id <$> invoice_items d) in
      inr (Some id,
           mkdb (partners d) (products d) (invoices d)
                (invoice_items d ++
                   [InvoiceItem.mk _ id invoice_id product_id quantity
                      unit_price line_total])%list
                (seq_partners d) (seq_products d) (seq_invoices d) id)
  end.

(** [DELETE FROM invoice_items WHERE id=?] *)
Definition sql_delete_invoice_item (item_id : Z) (d : database) : sql_result :=
  match bind_ints [item_id] with
  | Some e => inl e
  | None =>
    inr (None,
         mkdb (partners d) (products d) (invoices d)
              (filter (fun it => InvoiceItem.id it ≠ item_id) (invoice_items d))
              (seq_partners d) (seq_products d) (seq_invoices d)
              (seq_invoice_items d))
  end.

(** [UPDATE invoices SET total_amount=? WHERE id=?]; the value the
    program binds is [SUM(...) or 0.0], a number. *)
Definition sql_update_invoice_total (tot : real) (inv_id : Z) (d : database)
  : sql_result :=
  match bind_ints [inv_id] with
  | Some e => inl e
  | None =>
    inr (None,
         mkdb (partners d) (products d)
              ((fun i => if (Invoice.id i =? inv_id)%Z
                         then Invoice.set_total_amount tot i else i)
                 <$> invoices d)
              (invoice_items d)
              (seq_partners d) (seq_products d) (seq_invoices d)
              (seq_invoice_items d))
  end.

(** [DELETE FROM partners WHERE id=?]. The foreign key of [invoices] is
    ON DELETE SET NULL: when a partner row goes, the invoices that
    reference it are updated to [partner_id] NULL; the column is declared
    NOT NULL, so an invoice so updated makes the statement fail. *)
Definition sql_delete_partner (pid : Z) (d : database) : sql_result :=
  match bind_ints [pid] with
  | Some e => inl e
  | None =>
    if negb (existsb (fun p => (Partner.id p =? pid)%Z) (partners d))
    then inr (None, d)
    else
      let refers i := bool_decide (Invoice.partner_id i = Some pid) in
      let set_null := Invoice.set_partner_id None <$> filter refers (invoices d) in
      if existsb (fun i => bool_decide (Invoice.partner_id i = None)) set_null
      then inl (IntegrityError "NOT NULL constraint failed: invoices.partner_id")
      else
        inr (None,
             mkdb (filter (fun p => Partner.id p ≠ pid) (partners d))
                  (products d)
                  ((fun i => if refers i then Invoice.set_partner_id None i else i)
                     <$> invoices d)
                  (invoice_items d)
                  (seq_partners d) (seq_products d) (seq_invoices d)
                  (seq_invoice_items d))
  end.

(** The rows of the invoice [inv_id], in rowid order. *)
Definition items_of (inv_id : Z) (d : database) : list InvoiceItem.t :=
  filter (fun it => InvoiceItem.invoice_id it = inv_id) (invoice_items d).

(** [SUM] over REAL values: NULL when there is no row, and NULL when
    the sum is not a number (as that of inf and -inf). *)
Definition sql_sum (l : list real) : option real :=
  match l with
  | [] => None
  | _ =>
      let s := foldl fadd f0 l in
      if float_is_nan s then None else Some s
  end.

(** The queries the program runs: the rows, or the exception raised when
    a parameter cannot be bound. *)
Definition sql_rows (R : Type) : Type := exn + list R.

Definition select {R : Type} (params : list Z) (rows : list R) : sql_rows R :=
  match bind_ints params with
  | Some e => inl e
  | None => inr rows
  end.

(** [SELECT SUM(line_total) FROM invoice_items WHERE invoice_id=?]: always
    one row, of one column. *)
Definition sql_sum_line_total (inv_id : Z) (d : database)
  : sql_rows (option real) :=
  select [inv_id] [sql_sum (InvoiceItem.line_total <$> items_of inv_id d)].

(** [SELECT price FROM products WHERE id=?] *)
Definition sql_select_price (pid : Z) (d : database) : sql_rows real :=
  select [pid]
    (Product.price <$> filter (fun p => Product.id p = pid) (products d)).

(** [SELECT id,invoice_id,product_id,quantity,unit_price,line_total
    FROM invoice_items WHERE invoice_id=?] *)
Definition sql_select_items (inv_id : Z) (d : database)
  : sql_rows InvoiceItem.t :=
  select [inv_id] (items_of inv_id d).

(** [SELECT id,partner_id,invoice_date,due_date,status,total_amount FROM invoices] *)
Definition sql_select_invoices (d : database) : sql_rows Invoice.t :=
  select [] (invoices d).

(** [SELECT id,name,tax_id,email,phone,address FROM partners] *)
Definition sql_select_partners (d : database) : sql_rows Partner.t :=
  select [] (partners d).

End Store.

(** ** The persistence gateway and the window state *)

(** A [messagebox] call. *)
Inductive dialog : Type :=
  | ShowError (title message : string)
  | ShowWarning (title message : string)
  | ShowInfo (title message : string).

Inductive outcome (A : Type) : Type :=
  | Ok (a : A)
  | Raise (e : exn).
Arguments Ok {A} a.
Arguments Raise {A} e.

Section Gateway.
Context `{FloatOps}.

(** What a callback works on: the store file, the rows the item list of
    the invoice window shows, the dialogs shown so far, and the storage
    faults to come: the head of [faults] tells whether the next
    connection fails ([sqlite3.OperationalError]) instead of running. *)
Record app : Type := mkapp {
  db : database;
  items_tv : list InvoiceItem.t;
  dialogs : list dialog;
  faults : list bool }.

Definition M (A : Type) : Type := app → outcome A * app.

#[global] Instance M_ret : MRet M := fun A a st => (Ok a, st).
#[global] Instance M_bind : MBind M := fun A B f m st =>
  match m st with
  | (Ok a, st') => f a st'
  | (Raise e, st') => (Raise e, st')
  end.

Definition raise {A : Type} (e : exn) : M A := fun st => (Raise e, st).

(** [try: body except Exception as e: handler(e)] *)
Definition try_except {A : Type} (body : M A) (handler : exn → M A) : M A :=
  fun st =>
    match body st with
    | (Ok a, st') => (Ok a, st')
    | (Raise e, st') => handler e st'
    end.

Definition messagebox (d : dialog) : M unit := fun st =>
  (Ok (), mkapp (db st) (items_tv st) (dialogs st ++ [d])%list (faults st)).

Definition set_items_tv (rows : list InvoiceItem.t) : M unit := fun st =>
  (Ok (), mkapp (db st) rows (dialogs st) (faults st)).

Definition get_items_tv : M (list InvoiceItem.t) := fun st =>
  (Ok (items_tv st), st).

Definition disk_error : exn := OperationalError "disk I/O error".

(** [with get_conn() as conn: body]: a connection of its own for every
    call, committed when the block is left, also when it is left by an
    exception; a statement that raised has changed nothing. *)
Definition get_conn {A : Type} (body : database → exn + (A * database)) : M A :=
  fun st =>
    match faults st with
    | true :: fs => (Raise disk_error, mkapp (db st) (items_tv st) (dialogs st) fs)
    | _ =>
        let fs := tail (faults st) in
        match body (db st) with
        | inl e => (Raise e, mkapp (db st) (items_tv st) (dialogs st) fs)
        | inr (a, d') => (Ok a, mkapp d' (items_tv st) (dialogs st) fs)
        end
    end.

Definition fetchall {R : Type} (q : database → sql_rows R) : M (list R) :=
  get_conn (fun d => match q d with
                     | inl e => inl e
                     | inr rows => inr (rows, d)
                     end).

Definition fetchone {R : Type} (q : database → sql_rows R) : M (option R) :=
  get_conn (fun d => match q d with
                     | inl e => inl e
                     | inr rows => inr (head rows, d)
                     end).

Definition execute (s : database → sql_result) : M (option Z) :=
  get_conn s.

(** ** The invoice window *)

Definition nl : string := String (ascii_of_N 10) EmptyString.

(** [s.split(sep)[0]] *)
Fixpoint before_sep (sep l : list ascii) : list ascii :=
  match l with
  | [] => []
  | c :: l' =>
      if bool_decide (sep `prefix_of` l) then [] else c :: before_sep sep l'
  end.

Definition split_head (sep s : string) : string :=
  string_of_list_ascii
    (before_sep (list_ascii_of_string sep) (list_ascii_of_string s)).

Definition show_items_for_invoice (inv_id : Z) : M unit :=
  set_items_tv [];;
  rows ← fetchall (sql_select_items inv_id);
  set_items_tv rows.

(** The invoice list is refreshed from the store; its rows are not part
    of [app], the selected invoice is an argument of the callbacks. *)
Definition refresh_invoices : M unit :=
  _ ← fetchall sql_select_invoices; mret ().

(** [x or 0.0] for the one column of the SUM row. *)
Definition or_zero (x : option real) : real :=
  match x with
  | Some v => if float_truthy v then v else f0
  | None => f0
  end.

(** The two statements after an item row changed:
    [tot = fetchone("SELECT SUM(line_total) ...", (inv_id,))[0] or 0.0]
    and [execute("UPDATE invoices SET total_amount=? WHERE id=?", (tot, inv_id))]. *)
Definition recompute_total (inv_id : Z) : M unit :=
  row ← fetchone (sql_sum_line_total inv_id);
  match row with
  | None => raise (TypeError "'NoneType' object is not subscriptable")
  | Some col =>
      let tot := or_zero col in
      _ ← execute (sql_update_invoice_total tot inv_id); mret ()
  end.

(** From [line_total = qty * unit] to the end of [add_item_to_invoice]. *)
Definition add_item_write (inv_id pid qty : Z) (unit' : real) : M unit :=
  match float_of_int qty with
  | None => raise (OverflowError "int too large to convert to float")
  | Some q =>
      let line_total := fmul q unit' in
      try_except
        (_ ← execute (sql_insert_invoice_item inv_id pid qty unit' line_total);
         recompute_total inv_id;;
         show_items_for_invoice inv_id;;
         refresh_invoices;;
         messagebox (ShowInfo "✅ SUCCESS" "Item added!"))
        (fun e => messagebox (ShowError "❌ DB ERROR" (exn_str e)))
  end.

(** The callback of the "Add Item" button: the texts of the product box,
    of the quantity entry and of the unit price entry, and the id of the
    invoice selected in the list, if one is. *)
Definition add_item_to_invoice (product_cb qty_e unit_e : string)
    (sel : option Z) : M unit :=
  let prod_val := strip product_cb in
  let qty_val := strip qty_e in
  match int_of_str (split_head " - " prod_val) with
  | None => messagebox (ShowError "❌ INVALID PRODUCT" "Please select a valid product.")
  | Some pid =>
  match int_of_str qty_val with
  | None => messagebox (ShowError "❌ INVALID QUANTITY" "Please enter a valid quantity.")
  | Some qty =>
  match sel with
  | None => messagebox (ShowError "❌ NO INVOICE" "Select an invoice first!")
  | Some inv_id =>
      let data : gmap string pyval :=
        <["invoice_id" := PyInt inv_id]>
          (<["product_id" := PyInt pid]> (<["quantity" := PyInt qty]> ∅)) in
      let err := validate_invoice_item_row data in
      if negb (bool_decide (err = [])) then
        messagebox (ShowError "❌ VALIDATION FAILED"
          ("ALL REQUIRED FIELDS MUST BE FILLED!" ++ nl ++ nl ++ String.concat nl err))
      else
        let unit' := strip unit_e in
        (* [if not unit or not is_float(unit)] ... [else: unit = float(unit)] *)
        match (if negb (truthy (PyStr unit')) then None else float_of_str unit') with
        | None =>
            pr ← fetchone (sql_select_price pid);
            match pr with
            | None => messagebox (ShowError "❌ ERROR" "Product price missing")
            | Some price => add_item_write inv_id pid qty price
            end
        | Some u => add_item_write inv_id pid qty u
        end
  end end end.

(** The callback of the "Delete Item" button: the index of the selected
    row of the item list, if one is selected, and the answer to the
    confirmation dialog. The item id and the invoice id are read from
    the selected row. *)
Definition delete_item (sel : option nat) (confirm : bool) : M unit :=
  rows ← get_items_tv;
  match sel ≫= (fun k => rows !! k) with
  | None => messagebox (ShowWarning "Selection Error" "Select item")
  | Some values =>
      let item_id := InvoiceItem.id values in
      let inv_id := InvoiceItem.invoice_id values in
      if confirm then
        _ ← execute (sql_delete_invoice_item item_id);
        recompute_total inv_id;;
        show_items_for_invoice inv_id;;
        refresh_invoices
      else mret ()
  end.

(** ** The partner window *)

(** The callback of the "Delete" button: the id of the selected partner,
    if one is selected, and the answer to the confirmation dialog. *)
Definition delete_partner (sel : option Z) (confirm : bool) : M unit :=
  match sel with
  | None => messagebox (ShowWarning "Selection Error" "Select a partner")
  | Some pid =>
      if confirm then
        _ ← execute (sql_delete_partner pid);
        (* refresh() *)
        _ ← fetchall sql_select_partners; mret ()
      else mret ()
  end.

(** ** Bulk import *)

(** What [pd.read_csv(path, dtype=str).fillna("")] hands over: the header
    and the rows, every cell a string. *)
Record dataframe : Type := mkdf {
  columns : list string;
  df_rows : list (list string) }.

(** [row.to_dict()] *)
Definition to_dict (cols : list string) (cells : list string)
  : gmap string pyval :=
  foldl (fun m kv => <[kv.1 := PyStr kv.2]> m) ∅ (zip cols cells).

(** A parameter bound to a TEXT column. *)
Definition sql_text (v : pyval) : option string :=
  match v with
  | PyStr s => Some s
  | PyInt z => Some (pretty z)
  | PyBool b => Some (if b then "1" else "0")
  | PyNone => None
  end.

(** [float(v)] and [int(v)] on a cell or on a default. *)
Definition float_of_py (v : pyval) : exn + real :=
  match v with
  | PyStr s =>
      match float_of_str s with
      | Some x => inr x
      | None => inl (ValueError ("could not convert string to float: '" ++ s ++ "'"))
      end
  | PyInt z =>
      match float_of_int z with
      | Some x => inr x
      | None => inl (OverflowError "int too large to convert to float")
      end
  | PyBool b =>
      match float_of_int (if b then 1 else 0) with
      | Some x => inr x
      | None => inl (OverflowError "int too large to convert to float")
      end
  | PyNone =>
      inl (TypeError "float() argument must be a string or a real number, not 'NoneType'")
  end.

Definition int_of_py (v : pyval) : exn + Z :=
  match v with
  | PyStr s =>
      match int_of_str s with
      | Some z => inr z
      | None => inl (ValueError ("invalid literal for int() with base 10: '" ++ s ++ "'"))
      end
  | PyInt z => inr z
  | PyBool b => inr (if b then 1 else 0)
  | PyNone =>
      inl (TypeError "int() argument must be a string, a bytes-like object or a real number, not 'NoneType'")
  end.

Definition row_error (i : Z) (what : string) : string :=
  "Row " ++ pretty (i + 1) ++ ": " ++ what.

Definition partners_basic : list string :=
  ["name"; "tax_id"; "email"; "phone"; "address"].

Definition products_basic : list string :=
  ["sku"; "name"; "description"; "price"; "stock"].

Definition columns_message (expected_basic : list string) : string :=
  "File columns must be exactly: " ++ repr_list expected_basic
  ++ " or " ++ repr_list ("id" :: expected_basic).

(** One turn of the loop of [import_partners_csv], on row [i]. *)
Definition import_partner_row (cols : list string) (i : Z) (row : list string)
    (errors : list string) (added : Z) : M (list string * Z) :=
  let data := delete "id" (to_dict cols row) in
  let err := validate_partner_row data in
  if negb (bool_decide (err = [])) then
    mret (append errors (row_error i (repr_list err)), added)
  else
    try_except
      (_ ← execute (sql_insert_partner
                      (sql_text (get data "name"))
                      (sql_text (or_ (get data "tax_id") PyNone))
                      (sql_text (or_ (get data "email") PyNone))
                      (sql_text (or_ (get data "phone") PyNone))
                      (sql_text (or_ (get data "address") PyNone)));
       mret (errors, added + 1))
      (fun e => mret (append errors (row_error i ("DB " ++ exn_str e)), added)).

Fixpoint import_partner_rows (cols : list string) (i : Z)
    (rows : list (list string)) (errors : list string) (added : Z)
  : M (list string * Z) :=
  match rows with
  | [] => mret (errors, added)
  | row :: rows' =>
      '(errors', added') ← import_partner_row cols i row errors added;
      import_partner_rows cols (i + 1) rows' errors' added'
  end.

(** The report after the loop of either import. *)
Definition import_report (title : string) (errors : list string) (added : Z)
  : M unit :=
  messagebox (ShowInfo title
    ("Added " ++ pretty added ++ " rows. Errors: "
     ++ pretty (Z.of_nat (length errors))));;
  if negb (bool_decide (errors = [])) then
    messagebox (ShowWarning "Import warnings" (String.concat nl (take 20 errors)))
  else mret ().

(** [file] is the frame read from the chosen file, [None] when the file
    dialog was cancelled. *)
Definition import_partners_csv (file : option dataframe) : M unit :=
  match file with
  | None => mret ()
  | Some df =>
      let expected_basic := partners_basic in
      let expected_with_id := "id" :: expected_basic in
      if negb (bool_decide (columns df ∈ [expected_basic; expected_with_id])) then
        messagebox (ShowError "Import error" (columns_message expected_basic))
      else
        '(errors, added) ← import_partner_rows (columns df) 0 (df_rows df) [] 0;
        import_report "Import partners" errors added
  end.

(** One turn of the loop of [import_products_csv], on row [i]. *)
Definition import_product_row (cols : list string) (i : Z) (row : list string)
    (errors : list string) (added : Z) : M (list string * Z) :=
  let data := delete "id" (to_dict cols row) in
  let err := validate_product_row data in
  if negb (bool_decide (err = [])) then
    mret (append errors (row_error i (repr_list err)), added)
  else
    try_except
      (match float_of_py (get data "price"),
             int_of_py (or_ (get data "stock") (PyInt 0)) with
       | inl e, _ => raise e
       | inr _, inl e => raise e
       | inr price, inr stock =>
           _ ← execute (sql_insert_product
                          (sql_text (get data "sku"))
                          (sql_text (get data "name"))
                          (sql_text (get data "description"))
                          price stock);
           mret (errors, added + 1)
       end)
      (fun e => mret (append errors (row_error i ("DB " ++ exn_str e)), added)).

Fixpoint import_product_rows (cols : list string) (i : Z)
    (rows : list (list string)) (errors : list string) (added : Z)
  : M (list string * Z) :=
  match rows with
  | [] => mret (errors, added)
  | row :: rows' =>
      '(errors', added') ← import_product_row cols i row errors added;
      import_product_rows cols (i + 1) rows' errors' added'
  end.

Definition import_products_csv (file : option dataframe) : M unit :=
  match file with
  | None => mret ()
  | Some df =>
      let expected_basic := products_basic in
      let expected_with_id := "id" :: expected_basic in
      if negb (bool_decide (columns df ∈ [expected_basic; expected_with_id])) then
        messagebox (ShowError "Import error" (columns_message expected_basic))
      else
        '(errors, added) ← import_product_rows (columns df) 0 (df_rows df) [] 0;
        import_report "Import products" errors added
  end.

End Gateway.

(** ** A carrier for concrete runs: exact decimal amounts

    [float(s)] reads plain decimal literals here ([12], [9.99], [-.5]);
    sums and products are exact. *)

Module Decimal.

Fixpoint dec_digits (acc : Z) (l : list ascii) : option Z :=
  match l with
  | [] => Some acc
  | c :: l' =>
      if is_digit c then dec_digits (10 * acc + digit_val c) l' else None
  end.

Definition unsigned_of (l : list ascii) : option Q :=
  match split_on "." [] l with
  | [ip] =>
      if bool_decide (ip = []) then None
      else i ← dec_digits 0 ip; Some (inject_Z i)
  | [ip; fp] =>
      if bool_decide (ip = []) && bool_decide (fp = []) then None
      else
        i ← dec_digits 0 ip; f ← dec_digits 0 fp;
        let scale := (10 ^ Z.of_nat (length fp))%Z in
        Some (Qmake (i * scale + f) (Z.to_pos scale))
  | _ => None
  end.

Definition of_str (s : string) : option Qc :=
  match list_ascii_of_string (strip s) with
  | "-"%char :: l => (fun q => Q2Qc (Qopp q)) <$> unsigned_of l
  | "+"%char :: l => Q2Qc <$> unsigned_of l
  | l => Q2Qc <$> unsigned_of l
  end.

Definition truthy (x : Qc) : bool := negb (bool_decide (x = Q2Qc 0)).

Lemma falsy_zero (x : Qc) : truthy x = false → x = Q2Qc 0.
Proof.
  unfold truthy. intros Hx. apply negb_false_iff in Hx.
  by apply bool_decide_eq_true in Hx.
Qed.

Definition ops : FloatOps := {|
  real := Qc;
  f0 := Q2Qc 0;
  fadd := Qcplus;
  fmul := Qcmult;
  float_of_int := fun z => Some (Q2Qc (inject_Z z));
  float_of_str := of_str;
  float_truthy := truthy;
  float_nonneg := fun x => Qle_bool 0 x;
  float_is_nan := fun _ => false;
  float_falsy_zero := falsy_zero |}.

(** The literal [n/d] as an amount. *)
Definition amount (n : Z) (d : positive) : Qc := Q2Qc (Qmake n d).

End Decimal.

(** ** A carrier with the values that are not finite

    The exact amounts of [Decimal] together with [inf], [-inf] and [nan],
    which [float(s)] reads in any case of the letters, and with the
    arithmetic floats have on them: [inf + -inf] and [0 * inf] are
    [nan], and [nan] stays [nan]. *)

Module Extended.

Inductive t : Type :=
  | Num (q : Qc)
  | PInf
  | NInf
  | NaN.

#[global] Instance t_eq_dec : EqDecision t.
Proof. solve_decision. Defined.

Definition zero : t := Num (Q2Qc 0).

Definition neg (x : t) : t :=
  match x with
  | Num q => Num (Qcopp q)
  | PInf => NInf
  | NInf => PInf
  | NaN => NaN
  end.

Definition add (x y : t) : t :=
  match x, y with
  | NaN, _ | _, NaN => NaN
  | PInf, NInf | NInf, PInf => NaN
  | PInf, _ | _, PInf => PInf
  | NInf, _ | _, NInf => NInf
  | Num a, Num b => Num (Qcplus a b)
  end.

(** The sign of an amount: 1, 0 or -1. *)
Definition sgn (x : t) : Z :=
  match x with
  | Num q => if bool_decide (q = Q2Qc 0) then 0
             else if Qle_bool 0 q then 1 else -1
  | PInf => 1
  | NInf => -1
  | NaN => 0
  end.

Definition mul (x y : t) : t :=
  match x, y with
  | NaN, _ | _, NaN => NaN
  | Num a, Num b => Num (Qcmult a b)
  | _, _ =>
      match (sgn x * sgn y)%Z with
      | Z0 => NaN
      | Zpos _ => PInf
      | Zneg _ => NInf
      end
  end.

Definition lower (c : ascii) : ascii :=
  let n := N_of_ascii c in
  if ((65 <=? n) && (n <=? 90))%N then ascii_of_N (n + 32) else c.

(** [inf], [infinity] and [nan], in any case of the letters. *)
Definition special (l : list ascii) : option t :=
  let name := string_of_list_ascii (map lower l) in
  if bool_decide (name = "inf") || bool_decide (name = "infinity") then Some PInf
  else if bool_decide (name = "nan") then Some NaN
  else None.

Definition of_str (s : string) : option t :=
  let signed :=
    match list_ascii_of_string (strip s) with
    | "-"%char :: l => neg <$> special l
    | "+"%char :: l => special l
    | l => special l
    end in
  match signed with
  | Some x => Some x
  | None => Num <$> Decimal.of_str s
  end.

Definition truthy (x : t) : bool :=
  match x with
  | Num q => Decimal.truthy q
  | _ => true
  end.

Definition nonneg (x : t) : bool :=
  match x with
  | Num q => Qle_bool 0 q
  | PInf => true
  | NInf | NaN => false
  end.

Definition is_nan (x : t) : bool :=
  match x with
  | NaN => true
  | _ => false
  end.

Lemma falsy_is_zero (x : t) : truthy x = false → x = zero.
Proof.
  destruct x as [q| | |]; cbn; try discriminate.
  intros Hq. unfold zero. f_equal. by apply Decimal.falsy_zero.
Qed.

Definition ops : FloatOps := {|
  real := t;
  f0 := zero;
  fadd := add;
  fmul := mul;
  float_of_int := fun z => Some (Num (Q2Qc (inject_Z z)));
  float_of_str := of_str;
  float_truthy := truthy;
  float_nonneg := nonneg;
  float_is_nan := is_nan;
  float_falsy_zero := falsy_is_zero |}.

End Extended.

(** ** Sequences of item operations and the total invariant *)

Section Consistency.
Context `{FloatOps}.

(** A click on "Add Item" or on "Delete Item", with what the widgets
    hold at that moment. *)
Inductive item_op : Type :=
  | AddItem (product_cb qty_e unit_e : string) (sel : option Z)
  | DeleteItem (sel : option nat) (confirm : bool).

Definition run_op (op : item_op) : M unit :=
  match op with
  | AddItem product_cb qty_e unit_e sel =>
      add_item_to_invoice product_cb qty_e unit_e sel
  | DeleteItem sel confirm => delete_item sel confirm
  end.

(** The callbacks run one after the other; an exception that leaves a
    callback is reported by the toolkit and the window goes on with the
    state the callback left. *)
Definition run_ops (ops : list item_op) (st : app) : app :=
  foldl (fun st op => (run_op op st).2) st ops.

(** The sum of the line totals of the items of an invoice; [f0] when it
    has none. *)
Definition sum_line_totals (inv_id : Z) (d : database) : real :=
  foldl fadd f0 (InvoiceItem.line_total <$> items_of inv_id d).

(** The total an invoice has when it was computed from its items: their
    sum, and 0.0 when the sum is not a number ([SUM] is NULL then, and
    the program stores [NULL or 0.0]). *)
Definition stored_total (inv_id : Z) (d : database) : real :=
  let s := sum_line_totals inv_id d in
  if float_is_nan s then f0 else s.

(** I1, as far as it holds: every invoice carries the sum of its items'
    line totals when that sum is a number, and 0.0 when it is not. *)
Definition total_invariant (d : database) : Prop :=
  ∀ inv, inv ∈ invoices d →
    Invoice.total_amount inv = stored_total (Invoice.id inv) d.

(** What the rows on display and the stored rows have in common: an
    invoice id read from the store fits a 64-bit INTEGER, and, identities
    of items being never reused, two rows with the same id belong to the
    same invoice. *)
Record coherent (st : app) : Prop := mk_coherent {
  coh_tv_range : ∀ r, r ∈ items_tv st →
    sqlite_int (InvoiceItem.invoice_id r) = true;
  coh_db_owner : ∀ x y, x ∈ invoice_items (db st) → y ∈ invoice_items (db st) →
    InvoiceItem.id x = InvoiceItem.id y →
    InvoiceItem.invoice_id x = InvoiceItem.invoice_id y;
  coh_tv_owner : ∀ r x, r ∈ items_tv st → x ∈ invoice_items (db st) →
    InvoiceItem.id x = InvoiceItem.id r →
    InvoiceItem.invoice_id x = InvoiceItem.invoice_id r }.

(** The store after [DELETE FROM invoice_items WHERE id=?] and after the
    two statements of [recompute_total], when they go through. *)
Definition db_delete_item (item_id : Z) (d : database) : database :=
  mkdb (partners d) (products d) (invoices d)
       (filter (fun it => InvoiceItem.id it ≠ item_id) (invoice_items d))
       (seq_partners d) (seq_products d) (seq_invoices d)
       (seq_invoice_items d).

Definition db_recompute_total (inv_id : Z) (d : database) : database :=
  let tot := or_zero (sql_sum (InvoiceItem.line_total <$> items_of inv_id d)) in
  mkdb (partners d) (products d)
       ((fun i => if (Invoice.id i =? inv_id)%Z
                  then Invoice.set_total_amount tot i else i) <$> invoices d)
       (invoice_items d)
       (seq_partners d) (seq_products d) (seq_invoices d)
       (seq_invoice_items d).

(** What one callback does to the store and to the item list when the
    store answers every call: nothing, or an item is inserted, or the
    selected item is deleted, and then the total of the invoice is
    recomputed and the item list reloaded. *)
Inductive item_step (st st' : app) : Prop :=
  | step_quiet :
      db st' = db st → items_tv st' = items_tv st → faults st' = [] →
      item_step st st'
  | step_added (inv_id pid qty : Z) (u lt : real) (rid : option Z)
      (d1 : database) :
      sql_insert_invoice_item inv_id pid qty u lt (db st) = inr (rid, d1) →
      db st' = db_recompute_total inv_id d1 →
      items_tv st' = items_of inv_id (db st') → faults st' = [] →
      item_step st st'
  | step_deleted (r : InvoiceItem.t) :
      r ∈ items_tv st →
      db st' = db_recompute_total (InvoiceItem.invoice_id r)
                 (db_delete_item (InvoiceItem.id r) (db st)) →
      items_tv st' = items_of (InvoiceItem.invoice_id r) (db st') →
      faults st' = [] →
      item_step st st'.

(** Referential integrity of the item table: the invoice of every item
    is there. *)
Definition items_reference_invoices (d : database) : Prop :=
  ∀ x, x ∈ invoice_items d →
    ∃ i, i ∈ invoices d ∧ Invoice.id i = InvoiceItem.invoice_id x.

(** A computation that leaves the item table as it finds it. *)
Definition keeps_items {A : Type} (m : M A) : Prop :=
  ∀ st, invoice_items (db (m st).2) = invoice_items (db st).

(** The unit price [add_item_to_invoice] settles on: the text of the
    entry when it reads as a number, the price of the product
    otherwise. *)
Definition resolved_unit_price (unit_e : string) (pid : Z) (d : database)
  : option real :=
  let unit' := strip unit_e in
  match (if negb (truthy (PyStr unit')) then None else float_of_str unit') with
  | Some u => Some u
  | None =>
      match sql_select_price pid d with
      | inr rows => head rows
      | inl _ => None
      end
  end.

(** ** What a partner import is expected to leave behind *)

Definition partner_data (cols : list string) (row : list string)
  : gmap string pyval :=
  delete "id" (to_dict cols row).

Definition partner_row_valid (cols : list string) (row : list string) : bool :=
  bool_decide (validate_partner_row (partner_data cols row) = []).

(** The five columns of a stored partner. *)
Definition partner_fields (p : Partner.t)
  : option string * option string * option string * option string
    * option string :=
  (Some (Partner.name p), Partner.tax_id p, Partner.email p, Partner.phone p,
   Partner.address p).

(** The five columns a valid row is stored with. *)
Definition row_fields (cols : list string) (row : list string)
  : option string * option string * option string * option string
    * option string :=
  let data := partner_data cols row in
  (sql_text (get data "name"),
   sql_text (or_ (get data "tax_id") PyNone),
   sql_text (or_ (get data "email") PyNone),
   sql_text (or_ (get data "phone") PyNone),
   sql_text (or_ (get data "address") PyNone)).

(** The entries of the error list for the rows from index [i] on. *)
Fixpoint row_errors (cols : list string) (i : Z) (rows : list (list string))
  : list string :=
  match rows with
  | [] => []
  | row :: rows' =>
      let rest := row_errors cols (i + 1) rows' in
      if partner_row_valid cols row then rest
      else row_error i (repr_list (validate_partner_row (partner_data cols row)))
           :: rest
  end.

(** The store after the INSERT of one valid row, and after the rows of
    a whole file. *)
Definition store_partner (cols : list string) (row : list string)
    (d : database) : database :=
  let '(name, tax_id, email, phone, address) := row_fields cols row in
  match sql_insert_partner name tax_id email phone address d with
  | inr (_, d') => d'
  | inl _ => d
  end.

Definition store_partners (cols : list string) (rows : list (list string))
    (d : database) : database :=
  foldl (fun d row =>
           if partner_row_valid cols row then store_partner cols row d else d)
        d rows.

End Consistency.

(** ** Vocabulary of the statements *)

(** The text a validator tests for emptiness:
    [str(row.get(field) or "").strip()]. *)
Definition field_text (row : gmap string pyval) (field : string) : string :=
  strip (str (or_ (get row field) (PyStr ""))).

(** A field map given by its entries. *)
Definition row_of (l : list (string * pyval)) : gmap string pyval :=
  foldr (fun kv m => <[kv.1 := kv.2]> m) ∅ l.

(** A store with one partner, one product and one invoice that
    references the partner and has no item yet. *)
Definition demo_db : @database Decimal.ops :=
  mkdb [Partner.mk 1 "Acme" (Some "T1") (Some "a@acme.com") (Some "1") (Some "Street 1")]
       [Product.mk Decimal.ops 1 (Some "W-1") "Widget" (Some "A widget")
          (Decimal.amount 999 100) 5]
       [Invoice.mk Decimal.ops 1 (Some 1) "2024-01-31" None "Draft"
          (Decimal.amount 0 1)]
       [] 1 1 1 0.

Definition demo_app : @app Decimal.ops := mkapp demo_db [] [] [].

(** A partner and an invoice with every field filled in but the email
    and the due date. *)
Definition partner_without_email : gmap string pyval :=
  row_of [("name", PyStr "Acme"); ("tax_id", PyStr "X"); ("email", PyStr "");
          ("phone", PyStr "1"); ("address", PyStr "A")].

Definition invoice_without_due_date : gmap string pyval :=
  row_of [("partner_id", PyInt 1); ("invoice_date", PyStr "2024-01-31");
          ("due_date", PyStr ""); ("status", PyStr "Draft")].

(** [demo_db] with amounts that may be infinite, and two clicks on
    "Add Item" for its invoice: one unit at the price [inf], then one
    unit at the price [-inf]. *)
Definition demo_ext_db : @database Extended.ops :=
  mkdb [Partner.mk 1 "Acme" (Some "T1") (Some "a@acme.com") (Some "1") (Some "Street 1")]
       [Product.mk Extended.ops 1 (Some "W-1") "Widget" (Some "A widget")
          (Extended.Num (Decimal.amount 999 100)) 5]
       [Invoice.mk Extended.ops 1 (Some 1) "2024-01-31" None "Draft"
          Extended.zero]
       [] 1 1 1 0.

Definition demo_ext_app : @app Extended.ops := mkapp demo_ext_db [] [] [].

Definition inf_ops : list item_op :=
  [AddItem "1 - Widget (price:9.99)" "1" "inf" (Some 1);
   AddItem "1 - Widget (price:9.99)" "1" "-inf" (Some 1)].

(** The file of P7: five partner rows behind an id column, the third
    without a name. *)
Definition five_partner_rows : dataframe :=
  mkdf ("id" :: partners_basic)
    [["7"; "Acme"; "T1"; "a@acme.com"; "1"; "Street 1"];
     ["8"; "Bolt"; "T2"; "b@bolt.com"; "2"; "Street 2"];
     ["9"; ""; "T3"; "c@core.com"; "3"; "Street 3"];
     ["10"; "Dune"; "T4"; "d@dune.com"; "4"; "Street 4"];
     ["11"; "Echo"; "T5"; "e@echo.com"; "5"; "Street 5"]].

(** The run of P1: 2 units at 10, then 1 unit at 5, then the first of
    the two rows deleted. *)
Definition p1_ops : list item_op :=
  [AddItem "1 - Widget (price:9.99)" "2" "10" (Some 1);
   AddItem "1 - Widget (price:9.99)" "1" "5" (Some 1);
   DeleteItem (Some 0%nat) true].

(** ** The other statements and callbacks of the three windows *)

Section Windows.
Context `{FloatOps}.

(** [UPDATE partners SET name=?,tax_id=?,email=?,phone=?,address=? WHERE id=?];
    the constraints are checked on the rows the statement changes. *)
Definition sql_update_partner (name tax_id email phone address : option string)
    (pid : Z) (d : database) : sql_result :=
  match bind_ints [pid] with
  | Some e => inl e
  | None =>
    if negb (existsb (fun p => (Partner.id p =? pid)%Z) (partners d))
    then inr (None, d)
    else
      match name with
      | None => inl (IntegrityError "NOT NULL constraint failed: partners.name")
      | Some name =>
          inr (None,
               mkdb ((fun p => if (Partner.id p =? pid)%Z
                               then Partner.mk (Partner.id p) name tax_id email
                                      phone address
                               else p) <$> partners d)
                    (products d) (invoices d) (invoice_items d)
                    (seq_partners d) (seq_products d) (seq_invoices d)
                    (seq_invoice_items d))
      end
  end.

(** [UPDATE products SET sku=?,name=?,description=?,price=?,stock=? WHERE id=?] *)
Definition sql_update_product (sku name description : option string)
    (price : real) (stock : Z) (pid : Z) (d : database) : sql_result :=
  match bind_ints [stock; pid] with
  | Some e => inl e
  | None =>
    if negb (existsb (fun p => (Product.id p =? pid)%Z) (products d))
    then inr (None, d)
    else
      match name with
      | None => inl (IntegrityError "NOT NULL constraint failed: products.name")
      | Some name =>
        if float_is_nan price     (* bound as NULL *)
        then inl (IntegrityError "NOT NULL constraint failed: products.price")
        else if negb (float_nonneg price)
        then inl (IntegrityError "CHECK constraint failed: price >= 0")
        else if negb (0 <=? stock)%Z
        then inl (IntegrityError "CHECK constraint failed: stock >= 0")
        else if existsb (fun p => negb (Product.id p =? pid)%Z
                                  && bool_decide (is_Some sku ∧ Product.sku p = sku))
                  (products d)
        then inl (IntegrityError "UNIQUE constraint failed: products.sku")
        else
          inr (None,
               mkdb (partners d)
                    ((fun p => if (Product.id p =? pid)%Z
                               then Product.mk _ (Product.id p) sku name
                                      description price stock
                               else p) <$> products d)
                    (invoices d) (invoice_items d)
                    (seq_partners d) (seq_products d) (seq_invoices d)
                    (seq_invoice_items d))
      end
  end.

(** [DELETE FROM products WHERE id=?]. The foreign key of [invoice_items]
    names no action: a product that an item references cannot go. *)
Definition sql_delete_product (pid : Z) (d : database) : sql_result :=
  match bind_ints [pid] with
  | Some e => inl e
  | None =>
    if negb (existsb (fun p => (Product.id p =? pid)%Z) (products d))
    then inr (None, d)
    else if existsb (fun it => (InvoiceItem.product_id it =? pid)%Z)
              (invoice_items d)
    then inl fk_failed
    else
      inr (None,
           mkdb (partners d)
                (filter (fun p => Product.id p ≠ pid) (products d))
                (invoices d) (invoice_items d)
                (seq_partners d) (seq_products d) (seq_invoices d)
                (seq_invoice_items d))
  end.

(** [DELETE FROM invoices WHERE id=?]. The foreign key of [invoice_items]
    is ON DELETE CASCADE: the items of a deleted invoice go with it. *)
Definition sql_delete_invoice (inv_id : Z) (d : database) : sql_result :=
  match bind_ints [inv_id] with
  | Some e => inl e
  | None =>
    if negb (existsb (fun i => (Invoice.id i =? inv_id)%Z) (invoices d))
    then inr (None, d)
    else
      inr (None,
           mkdb (partners d) (products d)
                (filter (fun i => Invoice.id i ≠ inv_id) (invoices d))
                (filter (fun it => InvoiceItem.invoice_id it ≠ inv_id)
                   (invoice_items d))
                (seq_partners d) (seq_products d) (seq_invoices d)
                (seq_invoice_items d))
  end.

(** [UPDATE invoices SET partner_id=?,invoice_date=?,due_date=?,status=? WHERE id=?] *)
Definition sql_update_invoice (partner_id : Z) (invoice_date : string)
    (due_date : option string) (status : string) (inv_id : Z) (d : database)
  : sql_result :=
  match bind_ints [partner_id; inv_id] with
  | Some e => inl e
  | None =>
    if negb (existsb (fun i => (Invoice.id i =? inv_id)%Z) (invoices d))
    then inr (None, d)
    else if negb (existsb (fun p => (Partner.id p =? partner_id)%Z) (partners d))
    then inl fk_failed
    else
      inr (None,
           mkdb (partners d) (products d)
                ((fun i => if (Invoice.id i =? inv_id)%Z
                           then Invoice.mk _ (Invoice.id i) (Some partner_id)
                                  invoice_date due_date status
                                  (Invoice.total_amount i)
                           else i) <$> invoices d)
                (invoice_items d)
                (seq_partners d) (seq_products d) (seq_invoices d)
                (seq_invoice_items d))
  end.

(** [SELECT id,name FROM partners WHERE id=?]; the parameter is the
    [partner_id] cell of an invoice row, NULL included. *)
Definition sql_select_partner (pid : option Z) (d : database)
  : sql_rows (Z * string) :=
  match pid with
  | None => inr []
  | Some pid =>
      select [pid]
        ((fun p => (Partner.id p, Partner.name p))
           <$> filter (fun p => Partner.id p = pid) (partners d))
  end.

(** [SELECT id,sku,name,description,price,stock FROM products] *)
Definition sql_select_products (d : database) : sql_rows Product.t :=
  select [] (products d).

(** [SELECT id,invoice_date,due_date,status,total_amount FROM invoices
    WHERE partner_id=?] *)
Definition sql_select_invoices_of_partner (pid : Z) (d : database)
  : sql_rows Invoice.t :=
  select [pid] (filter (fun i => Invoice.partner_id i = Some pid) (invoices d)).

(** [SELECT invoice_id,quantity,line_total FROM invoice_items WHERE product_id=?] *)
Definition sql_select_items_of_product (pid : Z) (d : database)
  : sql_rows InvoiceItem.t :=
  select [pid] (filter (fun it => InvoiceItem.product_id it = pid) (invoice_items d)).

(** *** The partner window *)

(** [{k: entries[k].get().strip() for k in entries}] for the five entries
    of the partner form. *)
Definition partner_form (name tax_id email phone address : string)
  : gmap string pyval :=
  row_of [("name", PyStr (strip name)); ("tax_id", PyStr (strip tax_id));
          ("email", PyStr (strip email)); ("phone", PyStr (strip phone));
          ("address", PyStr (strip address))].

Definition all_fields_required (err : list string) : dialog :=
  ShowError "❌ VALIDATION FAILED"
    ("ALL FIELDS ARE REQUIRED!" ++ nl ++ nl ++ String.concat nl err).

Definition refresh_partners : M unit :=
  _ ← fetchall sql_select_partners; mret ().

(** The callback of the "Add" button, on the texts of the five entries. *)
Definition add_partner (name tax_id email phone address : string) : M unit :=
  let data := partner_form name tax_id email phone address in
  let err := validate_partner_row data in
  if negb (bool_decide (err = [])) then messagebox (all_fields_required err)
  else
    try_except
      (_ ← execute (sql_insert_partner
                      (sql_text (get data "name")) (sql_text (get data "tax_id"))
                      (sql_text (get data "email")) (sql_text (get data "phone"))
                      (sql_text (get data "address")));
       refresh_partners;;
       messagebox (ShowInfo "✅ SUCCESS" "Partner added!"))
      (fun e => messagebox (ShowError "❌ DB ERROR" (exn_str e))).

(** [save_update] of [edit_partner], for the partner [pid] that was
    selected when "Edit" was clicked. *)
Definition save_partner_update (pid : Z)
    (name tax_id email phone address : string) : M unit :=
  let data := partner_form name tax_id email phone address in
  let err := validate_partner_row data in
  if negb (bool_decide (err = [])) then messagebox (all_fields_required err)
  else
    try_except
      (_ ← execute (sql_update_partner
                      (sql_text (get data "name")) (sql_text (get data "tax_id"))
                      (sql_text (get data "email")) (sql_text (get data "phone"))
                      (sql_text (get data "address")) pid);
       refresh_partners;;
       messagebox (ShowInfo "✅ SUCCESS" "Partner updated!"))
      (fun e => messagebox (ShowError "❌ DB ERROR" (exn_str e))).

(** [view_invoices_for_partner]: the rows the new window lists. *)
Definition view_invoices_for_partner (sel : option Z)
  : M (list Invoice.t) :=
  match sel with
  | None => messagebox (ShowWarning "Selection Error" "Select a partner");;
            mret []
  | Some pid => fetchall (sql_select_invoices_of_partner pid)
  end.

(** *** The product window *)

Definition product_form (sku name description price stock : string)
  : gmap string pyval :=
  row_of [("sku", PyStr (strip sku)); ("name", PyStr (strip name));
          ("description", PyStr (strip description));
          ("price", PyStr (strip price)); ("stock", PyStr (strip stock))].

Definition refresh_products : M unit :=
  _ ← fetchall sql_select_products; mret ().

(** The statement of [add_product] and of [save_update], with its
    parameters converted: [float(data["price"])] and [int(data["stock"])]
    are evaluated, in this order, before [execute] is called. *)
Definition with_product_params (data : gmap string pyval)
    (stmt : option string → option string → option string → real → Z →
            database → sql_result) : M (option Z) :=
  match float_of_py (get data "price"), int_of_py (get data "stock") with
  | inl e, _ => raise e
  | inr _, inl e => raise e
  | inr price, inr stock =>
      execute (stmt (sql_text (get data "sku")) (sql_text (get data "name"))
                 (sql_text (get data "description")) price stock)
  end.

Definition add_product (sku name description price stock : string) : M unit :=
  let data := product_form sku name description price stock in
  let err := validate_product_row data in
  if negb (bool_decide (err = [])) then messagebox (all_fields_required err)
  else
    try_except
      (_ ← with_product_params data sql_insert_product;
       refresh_products;;
       messagebox (ShowInfo "✅ SUCCESS" "Product added!"))
      (fun e => messagebox (ShowError "❌ DB ERROR" (exn_str e))).

Definition save_product_update (pid : Z)
    (sku name description price stock : string) : M unit :=
  let data := product_form sku name description price stock in
  let err := validate_product_row data in
  if negb (bool_decide (err = [])) then messagebox (all_fields_required err)
  else
    try_except
      (_ ← with_product_params data
             (fun sku name description price stock =>
                sql_update_product sku name description price stock pid);
       refresh_products;;
       messagebox (ShowInfo "✅ SUCCESS" "Product updated!"))
      (fun e => messagebox (ShowError "❌ DB ERROR" (exn_str e))).

Definition delete_product (sel : option Z) (confirm : bool) : M unit :=
  match sel with
  | None => messagebox (ShowWarning "Selection Error" "Select a product")
  | Some pid =>
      if confirm then
        _ ← execute (sql_delete_product pid); refresh_products
      else mret ()
  end.

(** [view_stock_of_product]: the rows the new window lists. *)
Definition view_stock_of_product (sel : option Z)
  : M (list InvoiceItem.t) :=
  match sel with
  | None => messagebox (ShowWarning "Selection Error" "Select product");;
            mret []
  | Some pid => fetchall (sql_select_items_of_product pid)
  end.

(** *** The invoice window *)

(** The field map [add_invoice] and [update_invoice] validate. *)
Definition invoice_form (pid : Z) (invoice_date due_date status_val : string)
  : gmap string pyval :=
  row_of [("partner_id", PyInt pid); ("invoice_date", PyStr invoice_date);
          ("due_date", PyStr due_date); ("status", PyStr status_val)].

(** [due_date if due_date else None] *)
Definition due_or_none (due_date : string) : option string :=
  if truthy (PyStr due_date) then Some due_date else None.

(** The callback of the "Add Invoice" button, on the texts of the partner
    box, of the two date entries and of the status box. *)
Definition add_invoice (partner_cb date_e due_e status_cb : string) : M unit :=
  let partner_val := strip partner_cb in
  let invoice_date := strip date_e in
  let due_date := strip due_e in
  let status_val := strip status_cb in
  match int_of_str (split_head " - " partner_val) with
  | None => messagebox (ShowError "❌ INVALID PARTNER" "Please select a valid partner.")
  | Some pid =>
      let err := validate_invoice_row
                   (invoice_form pid invoice_date due_date status_val) in
      if negb (bool_decide (err = [])) then messagebox (all_fields_required err)
      else
        try_except
          (_ ← execute (sql_insert_invoice pid invoice_date
                          (due_or_none due_date) status_val);
           refresh_invoices;;
           messagebox (ShowInfo "✅ SUCCESS" "Invoice created!"))
          (fun e => messagebox (ShowError "❌ DB ERROR" (exn_str e)))
  end.

(** The callback of the "Update Invoice" button; [sel] is the id of the
    invoice selected in the list, if one is. *)
Definition update_invoice (sel : option Z)
    (partner_cb date_e due_e status_cb : string) : M unit :=
  match sel with
  | None => messagebox (ShowWarning "Selection Error" "Select invoice")
  | Some inv_id =>
      let partner_val := strip partner_cb in
      let invoice_date := strip date_e in
      let due_date := strip due_e in
      let status_val := strip status_cb in
      match int_of_str (split_head " - " partner_val) with
      | None => messagebox (ShowError "❌ INVALID PARTNER" "Please select a valid partner.")
      | Some pid =>
          let err := validate_invoice_row
                       (invoice_form pid invoice_date due_date status_val) in
          if negb (bool_decide (err = [])) then messagebox (all_fields_required err)
          else
            try_except
              (_ ← execute (sql_update_invoice pid invoice_date
                              (due_or_none due_date) status_val inv_id);
               refresh_invoices;;
               messagebox (ShowInfo "✅ SUCCESS" "Invoice updated!"))
              (fun e => messagebox (ShowError "❌ DB ERROR" (exn_str e)))
      end
  end.

(** The callback of the "Delete Invoice" button. *)
Definition delete_invoice (sel : option Z) (confirm : bool) : M unit :=
  match sel with
  | None => messagebox (ShowWarning "Selection Error" "Select invoice")
  | Some inv_id =>
      if confirm then
        _ ← execute (sql_delete_invoice inv_id);
        refresh_invoices;;
        set_items_tv []
      else mret ()
  end.

(** The callback of the "Load Selected" button; [sel] is the selected row
    of the invoice list, as it was read from the store when the list was
    last refreshed. *)
Definition load_invoice_for_edit (sel : option Invoice.t) : M unit :=
  match sel with
  | None => messagebox (ShowWarning "Selection Error" "Select invoice")
  | Some vals =>
      let inv_id := Invoice.id vals in
      partner_row ← fetchone (sql_select_partner (Invoice.partner_id vals));
      match partner_row with
      | None => raise (TypeError "'NoneType' object is not subscriptable")
      | Some _ => show_items_for_invoice inv_id
      end
  end.

(** [load_products]: the texts of the product box, one per product;
    [price_text] stands for the text an f-string gives a price. *)
Definition product_choice (price_text : real → string) (p : Product.t) : string :=
  pretty (Product.id p) ++ " - " ++ Product.name p
  ++ " (price:" ++ price_text (Product.price p) ++ ")".

(** [load_partners]: the texts of the partner box, one per partner. *)
Definition partner_choice (p : Partner.t) : string :=
  pretty (Partner.id p) ++ " - " ++ Partner.name p.

(** *** All the callbacks that write *)

(** A click in one of the three windows, with what the widgets hold. *)
Inductive window_op : Type :=
  | AddPartner (name tax_id email phone address : string)
  | SavePartner (pid : Z) (name tax_id email phone address : string)
  | DeletePartner (sel : option Z) (confirm : bool)
  | AddProduct (sku name description price stock : string)
  | SaveProduct (pid : Z) (sku name description price stock : string)
  | DeleteProduct (sel : option Z) (confirm : bool)
  | AddInvoice (partner_cb date_e due_e status_cb : string)
  | UpdateInvoice (sel : option Z) (partner_cb date_e due_e status_cb : string)
  | DeleteInvoice (sel : option Z) (confirm : bool)
  | LoadInvoice (sel : option Invoice.t)
  | ItemOp (op : item_op)
  | ImportPartners (file : option dataframe)
  | ImportProducts (file : option dataframe).

Definition run_window_op (op : window_op) : M unit :=
  match op with
  | AddPartner n t e p a => add_partner n t e p a
  | SavePartner pid n t e p a => save_partner_update pid n t e p a
  | DeletePartner sel c => delete_partner sel c
  | AddProduct s n d p k => add_product s n d p k
  | SaveProduct pid s n d p k => save_product_update pid s n d p k
  | DeleteProduct sel c => delete_product sel c
  | AddInvoice p d u s => add_invoice p d u s
  | UpdateInvoice sel p d u s => update_invoice sel p d u s
  | DeleteInvoice sel c => delete_invoice sel c
  | LoadInvoice sel => load_invoice_for_edit sel
  | ItemOp op => run_op op
  | ImportPartners file => import_partners_csv file
  | ImportProducts file => import_products_csv file
  end.

Definition run_window_ops (ops : list window_op) (st : app) : app :=
  foldl (fun st op => (run_window_op op st).2) st ops.

(** *** What the schema promises of the stored rows *)

(** PRIMARY KEY of the four tables, CHECK(price >= 0), CHECK(stock >= 0),
    CHECK(quantity>0), UNIQUE(sku), NOT NULL of the REAL columns (a
    stored price, unit price or line total is a number), the two foreign
    keys of [invoice_items] and the one of [invoices]. *)
Record schema_ok (d : database) : Prop := mk_schema_ok {
  ok_partner_ids : NoDup (Partner.id <$> partners d);
  ok_product_ids : NoDup (Product.id <$> products d);
  ok_invoice_ids : NoDup (Invoice.id <$> invoices d);
  ok_item_ids : NoDup (InvoiceItem.id <$> invoice_items d);
  ok_price : ∀ p, p ∈ products d → float_nonneg (Product.price p) = true;
  ok_price_number : ∀ p, p ∈ products d →
    float_is_nan (Product.price p) = false;
  ok_stock : ∀ p, p ∈ products d → (0 <= Product.stock p)%Z;
  ok_quantity : ∀ x, x ∈ invoice_items d → (0 < InvoiceItem.quantity x)%Z;
  ok_item_numbers : ∀ x, x ∈ invoice_items d →
    float_is_nan (InvoiceItem.unit_price x) = false
    ∧ float_is_nan (InvoiceItem.line_total x) = false;
  ok_sku : NoDup (omap Product.sku (products d));
  ok_item_invoice : items_reference_invoices d;
  ok_item_product : ∀ x, x ∈ invoice_items d →
    ∃ p, p ∈ products d ∧ Product.id p = InvoiceItem.product_id x;
  ok_invoice_partner : ∀ i, i ∈ invoices d →
    ∃ p, p ∈ partners d ∧ Invoice.partner_id i = Some (Partner.id p) }.

(** *** What a callback keeps *)

(** [P] holds of the state a computation leaves, whether it returns or
    raises, when it held of the state the computation found. *)
Definition holds (P : app → Prop) {A : Type} (m : M A) : Prop :=
  ∀ st, P st → P (m st).2.

(** A statement that keeps [P] when it goes through. *)
Definition commits (P : app → Prop) (s : database → sql_result) : Prop :=
  ∀ st r d', P st → s (db st) = inr (r, d') →
    P (mkapp d' (items_tv st) (dialogs st) (faults st)).

(** What a state has when the store answered every call so far: no
    fault is pending, the item list fits the store, every invoice
    carries the total computed from its items, every item has its
    invoice. *)
Definition consistent (st : app) : Prop :=
  faults st = [] ∧ coherent st ∧ total_invariant (db st)
  ∧ items_reference_invoices (db st).

(** The computation returns, whatever the state. *)
Definition never_raises {A : Type} (m : M A) : Prop :=
  ∀ st, ∃ a, (m st).1 = Ok a.

End Windows.

(** *** What the validators report, field by field *)

Definition when (c : bool) (msg : string) : list string :=
  if c then [msg] else [].

Definition partner_field_errors (row : gmap string pyval) (field : string)
  : list string :=
  if bool_decide (field_text row field = "") then [required_msg field]
  else when (String.eqb field "email"
             && negb (validate_email (field_text row field)))
         (field ++ " format is invalid").

(** [center_window]: the geometry string for a window of [w] by [h] on a
    screen of [screen_w] by [screen_h]. *)
Definition center_window (screen_w screen_h w h : Z) : string :=
  let x := ((screen_w - w) / 2)%Z in
  let y := ((screen_h - h) / 2)%Z in
  pretty w ++ "x" ++ pretty h ++ "+" ++ pretty x ++ "+" ++ pretty y.

(** *** What a regular expression matches *)

(** The strings of a regular expression. *)
Inductive re_lang : Re.regex → list ascii → Prop :=
  | lang_eps : re_lang Re.Eps []
  | lang_lit (c : ascii) : re_lang (Re.Lit c) [c]
  | lang_not_lit (c a : ascii) : a ≠ c → re_lang (Re.NotLit c) [a]
  | lang_seq (r1 r2 : Re.regex) (l1 l2 : list ascii) :
      re_lang r1 l1 → re_lang r2 l2 → re_lang (Re.Seq r1 r2) (l1 ++ l2)
  | lang_alt_l (r1 r2 : Re.regex) (l : list ascii) :
      re_lang r1 l → re_lang (Re.Alt r1 r2) l
  | lang_alt_r (r1 r2 : Re.regex) (l : list ascii) :
      re_lang r2 l → re_lang (Re.Alt r1 r2) l
  | lang_star_nil (r : Re.regex) : re_lang (Re.Star r) []
  | lang_star_app (r : Re.regex) (l1 l2 : list ascii) :
      re_lang r l1 → re_lang (Re.Star r) l2 → re_lang (Re.Star r) (l1 ++ l2).

(** The shape [<nonempty>@<nonempty>.<nonempty>], no part holding an
    [@]. *)
Definition email_shape (l : list ascii) : Prop :=
  ∃ a b c : list ascii,
    l = (a ++ "@"%char :: b ++ "."%char :: c)%list
    ∧ a ≠ [] ∧ b ≠ [] ∧ c ≠ []
    ∧ "@"%char ∉ a ∧ "@"%char ∉ b ∧ "@"%char ∉ c.

(** *** Dates written as YYYY-MM-DD *)

(** The character of the decimal digit [k]. *)
Definition digit_char (k : Z) : ascii := ascii_of_N (48 + Z.to_N k).

(** A date written with a year of four digits, a month and a day of two,
    separated by [-]. *)
Definition iso_text (y m d : Z) : string :=
  string_of_list_ascii
    [digit_char (y / 1000); digit_char (y / 100 mod 10);
     digit_char (y / 10 mod 10); digit_char (y mod 10); "-"%char;
     digit_char (m / 10); digit_char (m mod 10); "-"%char;
     digit_char (d / 10); digit_char (d mod 10)].

(** *** Stores and files of the examples *)

(** [demo_db] after two widgets at 10 were added to its invoice. *)
Definition demo_item_db : @database Decimal.ops :=
  mkdb (partners demo_db) (products demo_db)
       [Invoice.mk Decimal.ops 1 (Some 1) "2024-01-31" None "Draft"
          (Decimal.amount 20 1)]
       [InvoiceItem.mk Decimal.ops 1 1 1 2 (Decimal.amount 10 1)
          (Decimal.amount 20 1)]
       1 1 1 1.

Definition demo_item_app : @app Decimal.ops := mkapp demo_item_db [] [] [].

(** A product file of three rows, the second without a name. *)
Definition three_product_rows : dataframe :=
  mkdf products_basic
    [["G-1"; "Gadget"; "A gadget"; "1.50"; "3"];
     ["G-2"; ""; "No name"; "2"; "1"];
     ["G-3"; "Gizmo"; "A gizmo"; "0.25"; "10"]].

(** A session in the three windows, from the empty store. *)
Definition demo_session : list (@window_op Decimal.ops) :=
  [AddPartner "Acme" "T1" "a@acme.com" "1" "Street 1";
   AddPartner "Acme" "T1" "a@acme.com" "1" "Street 1";
   AddProduct "W-1" "Widget" "A widget" "9.99" "5";
   AddInvoice "1 - Acme" "2024-01-31" "2024-02-29" "Draft";
   ItemOp (AddItem "1 - Widget (price:9.99)" "2" "" (Some 1));
   DeletePartner (Some 1) true;
   DeleteProduct (Some 1) true].

(** * Properties *)

(** ** Validation *)

Section ValidationFacts.
Context `{FloatOps}.

Lemma truthy_str_true (s : string) : s ≠ "" → truthy (PyStr s) = true.
Proof.
  intros Hs. cbn [truthy]. apply negb_true_iff. by apply String.eqb_neq.
Qed.

Lemma truthy_int_true (z : Z) : z ≠ 0%Z → truthy (PyInt z) = true.
Proof. intros Hz. cbn [truthy]. apply negb_true_iff. by apply Z.eqb_neq. Qed.

(** C9 (P3): on the field map with an empty name and the email "bad",
    the partner validator returns exactly two errors, the missing name
    and the invalid email format, in this order. *)
Theorem partner_validation_reports_name_and_email :
  validate_partner_row
    (row_of [("name", PyStr ""); ("tax_id", PyStr "X"); ("email", PyStr "bad");
             ("phone", PyStr "1"); ("address", PyStr "A")])
  = ["name is REQUIRED - cannot be empty"; "email format is invalid"].
Proof. vm_compute. reflexivity. Qed.

(** C10: a field map whose invoice and product ids are positive
    integers and whose quantity is a negative integer passes the
    invoice-item validator with no error; the INSERT of such a row is
    what fails, in any case: when the three integers fit a 64-bit
    column, on CHECK(quantity>0), unless the unit price or the line
    total is not a number, which NOT NULL refuses before that. *)
Theorem negative_quantity_passes_validation
    (row : gmap string pyval) (inv_id pid qty : Z) :
  get row "invoice_id" = PyInt inv_id →
  get row "product_id" = PyInt pid →
  get row "quantity" = PyInt qty →
  (0 < inv_id)%Z → (0 < pid)%Z → (qty < 0)%Z →
  validate_invoice_item_row row = []
  ∧ (∀ (u lt : real) (d : database),
       (∃ e, sql_insert_invoice_item inv_id pid qty u lt d = inl e)
       ∧ (sqlite_int inv_id = true → sqlite_int pid = true →
          sqlite_int qty = true →
          sql_insert_invoice_item inv_id pid qty u lt d
          = inl (IntegrityError
                   (if float_is_nan u
                    then "NOT NULL constraint failed: invoice_items.unit_price"
                    else if float_is_nan lt
                    then "NOT NULL constraint failed: invoice_items.line_total"
                    else "CHECK constraint failed: quantity>0")))).
Proof.
  intros Hi Hp Hq Hipos Hppos Hqneg. split.
  - unfold validate_invoice_item_row, check_present. cbn [foldl].
    rewrite Hi, Hp, Hq.
    rewrite !truthy_int_true by lia. reflexivity.
  - intros u lt d.
    assert (Hchk : (0 <? qty)%Z = false) by (apply Z.ltb_ge; lia).
    unfold sql_insert_invoice_item.
    destruct (bind_ints [inv_id; pid; qty]) as [e|] eqn:Hb.
    + split; [by eexists|]. intros H1 H2 H3.
      unfold bind_ints in Hb. cbn [forallb] in Hb.
      rewrite H1, H2, H3 in Hb. discriminate.
    + rewrite Hchk. cbn [negb].
      destruct (float_is_nan u); [split; [by eexists | done]|].
      destruct (float_is_nan lt); split; by eauto.
Qed.

End ValidationFacts.

Lemma negative_quantity_passes_validation_witness :
  validate_invoice_item_row
    (row_of [("invoice_id", PyInt 1); ("product_id", PyInt 1);
             ("quantity", PyInt (-3))]) = []
  ∧ ∀ d : database,
      sql_insert_invoice_item (H := Decimal.ops) 1 1 (-3) (Decimal.amount 10 1)
        (Decimal.amount (-30) 1) d
      = inl (IntegrityError "CHECK constraint failed: quantity>0").
Proof.
  destruct (negative_quantity_passes_validation (H := Decimal.ops)
              (row_of [("invoice_id", PyInt 1); ("product_id", PyInt 1);
                       ("quantity", PyInt (-3))]) 1 1 (-3))
    as [Hv Hs]; [reflexivity | reflexivity | reflexivity | lia | lia | lia |].
  split; [exact Hv|].
  intros d. apply (Hs _ _ d); reflexivity.
Defined.

Section OptionalFields.
Context `{FloatOps}.

(** C6, as the code has it: an empty email is an error of the partner
    validator and an empty due date is an error of the invoice
    validator; with the other fields filled in and well-formed it is the
    only one. *)
Theorem empty_email_and_due_date_are_required
    (prow irow : gmap string pyval) (pid : Z) (date : string) :
  field_text prow "name" ≠ "" → field_text prow "tax_id" ≠ "" →
  field_text prow "email" = "" →
  field_text prow "phone" ≠ "" → field_text prow "address" ≠ "" →
  get irow "partner_id" = PyInt pid → pid ≠ 0%Z →
  get irow "invoice_date" = PyStr date → date ≠ "" →
  validate_date_iso (PyStr date) = true →
  truthy (get irow "due_date") = false →
  truthy (get irow "status") = true →
  validate_partner_row prow = ["email is REQUIRED - cannot be empty"]
  ∧ validate_invoice_row irow = ["due_date is REQUIRED - cannot be empty"].
Proof.
  unfold field_text.
  intros Hn Ht He Hp Ha Hpid Hnz Hdate Hdne Hiso Hdue Hst. split.
  - unfold validate_partner_row, check_partner_field. cbn [foldl].
    rewrite He.
    rewrite (truthy_str_true _ Hn), (truthy_str_true _ Ht),
      (truthy_str_true _ Hp), (truthy_str_true _ Ha).
    reflexivity.
  - unfold validate_invoice_row, check_present. cbn [foldl].
    rewrite Hpid, Hdate, Hdue, Hst, Hiso.
    rewrite (truthy_int_true _ Hnz), (truthy_str_true _ Hdne).
    reflexivity.
Qed.

End OptionalFields.

(** C6, as the claim states it, fails: with every other field filled
    in, the empty email and the empty due date are reported. *)
Lemma empty_optional_fields_are_rejected :
  validate_partner_row partner_without_email ≠ []
  ∧ validate_invoice_row invoice_without_due_date ≠ [].
Proof. split; vm_compute; discriminate. Qed.

Lemma empty_email_and_due_date_are_required_witness :
  validate_partner_row partner_without_email
  = ["email is REQUIRED - cannot be empty"]
  ∧ validate_invoice_row invoice_without_due_date
    = ["due_date is REQUIRED - cannot be empty"].
Proof.
  apply (empty_email_and_due_date_are_required
           partner_without_email invoice_without_due_date 1 "2024-01-31");
    try reflexivity; try (vm_compute; discriminate); try lia.
Defined.

(** ** Bulk import *)

Section ImportFacts.
Context `{FloatOps}.

(** C7: when the header of the file is neither the field list of the
    entity nor that list behind an "id" column, either import shows one
    error dialog and stops: the store is the one before, no connection
    was opened, no row was looked at. *)
Theorem import_rejects_other_columns (df : dataframe) (st : app) :
  (columns df ∉ [partners_basic; "id" :: partners_basic] →
   import_partners_csv (Some df) st
   = (Ok (),
      mkapp (db st) (items_tv st)
        (dialogs st ++ [ShowError "Import error"
           "File columns must be exactly: ['name', 'tax_id', 'email', 'phone', 'address'] or ['id', 'name', 'tax_id', 'email', 'phone', 'address']"])
        (faults st)))
  ∧ (columns df ∉ [products_basic; "id" :: products_basic] →
     import_products_csv (Some df) st
     = (Ok (),
        mkapp (db st) (items_tv st)
          (dialogs st ++ [ShowError "Import error"
             "File columns must be exactly: ['sku', 'name', 'description', 'price', 'stock'] or ['id', 'sku', 'name', 'description', 'price', 'stock']"])
          (faults st))).
Proof.
  split; intros Hcols.
  - unfold import_partners_csv.
    rewrite (bool_decide_eq_false_2 _ Hcols). reflexivity.
  - unfold import_products_csv.
    rewrite (bool_decide_eq_false_2 _ Hcols). reflexivity.
Qed.

Lemma blank_stock_is_reported (data : gmap string pyval) :
  field_text data "stock" = "" →
  "stock is REQUIRED - cannot be empty" ∈ validate_product_row data.
Proof.
  unfold field_text. intros Hstock.
  unfold validate_product_row. cbn [foldl].
  set (errors := check_product_field data _ "price").
  assert (Hin : "stock is REQUIRED - cannot be empty"
                ∈ check_product_field data errors "stock").
  { unfold check_product_field, append. rewrite Hstock.
    cbn [truthy String.eqb negb]. set_solver. }
  unfold append. repeat case_match; set_solver.
Qed.

(** C5, as the code has it: a product row whose stock cell is empty,
    blank or missing does not pass the validator, which reports
    "stock is REQUIRED - cannot be empty"; the turn of the import loop
    on such a row records the errors under the row number and leaves the
    store and the count of added rows as they were. *)
Theorem import_rejects_blank_stock (cols row : list string) (i : Z)
    (errors : list string) (added : Z) (st : app) :
  let data := delete "id" (to_dict cols row) in
  field_text data "stock" = "" →
  "stock is REQUIRED - cannot be empty" ∈ validate_product_row data
  ∧ import_product_row cols i row errors added st
    = (Ok (append errors (row_error i (repr_list (validate_product_row data))),
           added), st).
Proof.
  intros data Hstock.
  pose proof (blank_stock_is_reported data Hstock) as Hin.
  split; [exact Hin|].
  unfold import_product_row. fold data.
  rewrite bool_decide_eq_false_2; [reflexivity|].
  intros Hnil. rewrite Hnil in Hin. by apply elem_of_nil in Hin.
Qed.

(** *** The partner import, row by row *)

Lemma get_conn_ok {A : Type} (body : database → exn + (A * database))
    (st : app) (a : A) (d' : database) :
  faults st = [] → body (db st) = inr (a, d') →
  get_conn body st = (Ok a, mkapp d' (items_tv st) (dialogs st) []).
Proof.
  intros Hf Hb. unfold get_conn. rewrite Hf, Hb. reflexivity.
Qed.

Lemma get_conn_raises {A : Type} (body : database → exn + (A * database))
    (st : app) (e : exn) :
  faults st = [] → body (db st) = inl e →
  get_conn body st = (Raise e, mkapp (db st) (items_tv st) (dialogs st) []).
Proof.
  intros Hf Hb. unfold get_conn. rewrite Hf, Hb. reflexivity.
Qed.

Lemma check_partner_field_nonempty (row : gmap string pyval)
    (errors : list string) (field : string) :
  errors ≠ [] → check_partner_field row errors field ≠ [].
Proof.
  intros He. unfold check_partner_field, append.
  repeat case_match; try done; by destruct errors.
Qed.

Lemma foldl_check_partner_nonempty (row : gmap string pyval)
    (fields : list string) (errors : list string) :
  errors ≠ [] → foldl (check_partner_field row) errors fields ≠ [].
Proof.
  revert errors. induction fields as [|f fields IH]; intros errors He; [done|].
  cbn [foldl]. apply IH. by apply check_partner_field_nonempty.
Qed.

(** A row that passes the partner validator has a name to store. *)
Lemma valid_partner_has_name (row : gmap string pyval) :
  validate_partner_row row = [] → is_Some (sql_text (get row "name")).
Proof.
  unfold validate_partner_row. cbn [foldl]. intros Hv.
  destruct (get row "name") as [| b | z | s] eqn:Hname; try by eexists.
  exfalso. revert Hv.
  apply (foldl_check_partner_nonempty row ["email"; "phone"; "address"]).
  apply check_partner_field_nonempty.
  unfold check_partner_field. rewrite Hname. by vm_compute.
Qed.

Lemma import_partner_row_invalid (cols row : list string) (i : Z)
    (errors : list string) (added : Z) (st : app) :
  partner_row_valid cols row = false →
  import_partner_row cols i row errors added st
  = (Ok (append errors
           (row_error i (repr_list (validate_partner_row (partner_data cols row)))),
         added), st).
Proof.
  unfold partner_row_valid, import_partner_row. fold (partner_data cols row).
  intros ->. reflexivity.
Qed.

Lemma store_partner_inserts (cols row : list string) (d : database) :
  partner_row_valid cols row = true →
  ∃ rid, (let '(name, tax_id, email, phone, address) := row_fields cols row in
          sql_insert_partner name tax_id email phone address d)
         = inr (rid, store_partner cols row d).
Proof.
  intros Hv. apply bool_decide_eq_true in Hv.
  destruct (valid_partner_has_name _ Hv) as [name Hname].
  unfold store_partner, row_fields. rewrite Hname.
  cbn [sql_insert_partner]. by eexists.
Qed.

Lemma import_partner_row_valid (cols row : list string) (i : Z)
    (errors : list string) (added : Z) (st : app) :
  faults st = [] → partner_row_valid cols row = true →
  import_partner_row cols i row errors added st
  = (Ok (errors, (added + 1)%Z),
     mkapp (store_partner cols row (db st)) (items_tv st) (dialogs st) []).
Proof.
  intros Hf Hv.
  destruct (store_partner_inserts cols row (db st) Hv) as [rid Hins].
  unfold row_fields in Hins.
  unfold import_partner_row. fold (partner_data cols row).
  unfold partner_row_valid in Hv. rewrite Hv. cbn [negb].
  unfold try_except, execute, mbind, M_bind.
  rewrite (get_conn_ok _ st rid _ Hf Hins). reflexivity.
Qed.

Lemma import_partner_rows_spec (cols : list string) (rows : list (list string)) :
  ∀ (i : Z) (errors : list string) (added : Z) (st : app),
    faults st = [] →
    import_partner_rows cols i rows errors added st
    = (Ok ((errors ++ row_errors cols i rows)%list,
           (added + Z.of_nat (length (filter (fun r => partner_row_valid cols r = true) rows)))%Z),
       mkapp (store_partners cols rows (db st)) (items_tv st) (dialogs st) []).
Proof.
  induction rows as [|row rows IH]; intros i errors added st Hf.
  - cbn. rewrite app_nil_r, Z.add_0_r, <- Hf. by destruct st.
  - cbn [import_partner_rows row_errors store_partners foldl].
    unfold mbind, M_bind.
    destruct (partner_row_valid cols row) eqn:Hv.
    + rewrite (import_partner_row_valid _ _ _ _ _ _ Hf Hv).
      rewrite IH by reflexivity. cbn [db items_tv dialogs].
      rewrite filter_cons_True by done. cbn [length].
      do 2 f_equal. f_equal. lia.
    + rewrite (import_partner_row_invalid _ _ _ _ _ _ Hv).
      rewrite IH by done. unfold append.
      rewrite filter_cons_False by (rewrite Hv; done).
      by rewrite <- app_assoc.
Qed.

(** What [store_partner] and [store_partners] leave in the tables. *)
Lemma store_partner_tables (cols row : list string) (d : database) :
  partner_row_valid cols row = true →
  ∃ p, partners (store_partner cols row d) = (partners d ++ [p])%list
       ∧ partner_fields p = row_fields cols row
       ∧ products (store_partner cols row d) = products d
       ∧ invoices (store_partner cols row d) = invoices d
       ∧ invoice_items (store_partner cols row d) = invoice_items d.
Proof.
  intros Hv. apply bool_decide_eq_true in Hv.
  destruct (valid_partner_has_name _ Hv) as [name Hname].
  unfold store_partner, row_fields. rewrite Hname.
  cbn [sql_insert_partner partners products invoices invoice_items].
  eexists. split; [reflexivity|]. done.
Qed.

Lemma store_partners_tables (cols : list string) (rows : list (list string)) :
  ∀ d : database,
    partner_fields <$> partners (store_partners cols rows d)
    = ((partner_fields <$> partners d)
       ++ (row_fields cols <$> filter (fun r => partner_row_valid cols r = true) rows))%list
    ∧ products (store_partners cols rows d) = products d
    ∧ invoices (store_partners cols rows d) = invoices d
    ∧ invoice_items (store_partners cols rows d) = invoice_items d.
Proof.
  induction rows as [|row rows IH]; intros d.
  - cbn. by rewrite app_nil_r.
  - cbn [store_partners foldl].
    destruct (partner_row_valid cols row) eqn:Hv.
    + rewrite filter_cons_True by done.
      destruct (IH (store_partner cols row d)) as (Hp & Hq & Hi & Hit).
      fold (store_partners cols rows (store_partner cols row d)).
      rewrite Hp, Hq, Hi, Hit. clear IH Hp Hq Hi Hit.
      destruct (store_partner_tables cols row d Hv)
        as (p & -> & Hfields & -> & -> & ->).
      split; [|done].
      rewrite fmap_app, fmap_cons, <- app_assoc, Hfields. reflexivity.
    + rewrite filter_cons_False by (rewrite Hv; done).
      apply IH.
Qed.

Lemma row_errors_length (cols : list string) (rows : list (list string)) :
  ∀ i : Z,
    (length (row_errors cols i rows)
     + length (filter (fun r => partner_row_valid cols r = true) rows)
     = length rows)%nat.
Proof.
  induction rows as [|row rows IH]; intros i; [reflexivity|].
  cbn [row_errors]. destruct (partner_row_valid cols row) eqn:Hv.
  - rewrite filter_cons_True by done. cbn [length]. specialize (IH (i + 1)%Z). lia.
  - rewrite filter_cons_False by (rewrite Hv; done).
    cbn [length]. specialize (IH (i + 1)%Z). lia.
Qed.

Lemma row_errors_lookup (cols : list string) (rows : list (list string)) :
  ∀ (i : Z) (k : nat) (row : list string),
    rows !! k = Some row → partner_row_valid cols row = false →
    row_error (i + Z.of_nat k)
      (repr_list (validate_partner_row (partner_data cols row)))
    ∈ row_errors cols i rows.
Proof.
  induction rows as [|r rows IH]; intros i k row Hk Hv; [done|].
  cbn [row_errors]. destruct k as [|k].
  - injection Hk as ->. rewrite Hv, Z.add_0_r. apply list_elem_of_here.
  - cbn in Hk. specialize (IH (i + 1)%Z k row Hk Hv).
    replace (i + Z.of_nat (S k))%Z with (i + 1 + Z.of_nat k)%Z by lia.
    destruct (partner_row_valid cols r); [done|]. by apply list_elem_of_further.
Qed.


End ImportFacts.


Lemma import_rejects_other_columns_witness :
  let df := mkdf ["name"; "email"] [["Acme"; "a@b.c"]; ["Bolt"; "b@b.c"]] in
  let st := mkapp (H := Decimal.ops) init_db [] [] [] in
  (import_partners_csv (Some df) st).2
  = mkapp init_db [] [ShowError "Import error"
      "File columns must be exactly: ['name', 'tax_id', 'email', 'phone', 'address'] or ['id', 'name', 'tax_id', 'email', 'phone', 'address']"] []
  ∧ (import_products_csv (Some df) st).2
    = mkapp init_db [] [ShowError "Import error"
        "File columns must be exactly: ['sku', 'name', 'description', 'price', 'stock'] or ['id', 'sku', 'name', 'description', 'price', 'stock']"] [].
Proof.
  intros df st.
  destruct (import_rejects_other_columns (H := Decimal.ops) df st) as [Hp Hq].
  split.
  - rewrite Hp; [reflexivity|]. intros Hin. exact (bool_decide_pack _ Hin).
  - rewrite Hq; [reflexivity|]. intros Hin. exact (bool_decide_pack _ Hin).
Defined.

(** C5, as the claim states it, fails: a row that is valid except for
    its empty stock cell is not stored, with stock 0 or otherwise. *)
Lemma import_does_not_default_stock :
  let df := mkdf products_basic [["S1"; "Widget"; "A widget"; "9.99"; ""]] in
  let st := mkapp (H := Decimal.ops) init_db [] [] [] in
  (import_products_csv (Some df) st).2
  = mkapp init_db []
      [ShowInfo "Import products" "Added 0 rows. Errors: 1";
       ShowWarning "Import warnings"
         "Row 1: ['stock is REQUIRED - cannot be empty']"] [].
Proof. reflexivity. Qed.

Lemma import_rejects_blank_stock_witness :
  let row := ["S1"; "Widget"; "A widget"; "9.99"; ""] in
  let st := mkapp (H := Decimal.ops) init_db [] [] [] in
  import_product_row products_basic 0 row [] 0 st
  = (Ok (["Row 1: ['stock is REQUIRED - cannot be empty']"], 0%Z), st).
Proof.
  intros row st.
  destruct (import_rejects_blank_stock (H := Decimal.ops)
              products_basic row 0 [] 0 st) as [_ Hrow]; [reflexivity|].
  rewrite Hrow. reflexivity.
Defined.

(** ** Deleting a partner *)

Section PartnerFacts.
Context `{FloatOps}.

(** The DELETE of a partner that an invoice references fails on the
    NOT NULL of the column its foreign key would set to NULL. *)
Lemma delete_referenced_partner_fails (d : database) (pid : Z)
    (p : Partner.t) (i : Invoice.t) :
  sqlite_int pid = true →
  p ∈ partners d → Partner.id p = pid →
  i ∈ invoices d → Invoice.partner_id i = Some pid →
  sql_delete_partner pid d
  = inl (IntegrityError "NOT NULL constraint failed: invoices.partner_id").
Proof.
  intros Hint Hp Hpid Hi Href. unfold sql_delete_partner, bind_ints.
  cbn [forallb]. rewrite Hint. cbn [andb].
  assert (Hex : existsb (fun p => (Partner.id p =? pid)%Z) (partners d) = true).
  { apply existsb_exists. exists p. split; [by apply list_elem_of_In|].
    by apply Z.eqb_eq. }
  rewrite Hex. cbn [negb].
  match goal with |- (if ?b then _ else _) = _ => assert (Hb : b = true) end.
  { apply existsb_exists. exists (Invoice.set_partner_id None i). split.
    - apply list_elem_of_In, list_elem_of_fmap. exists i. split; [done|].
      apply list_elem_of_filter. split; [|done].
      by apply bool_decide_pack.
    - by apply bool_decide_eq_true_2. }
  rewrite Hb. reflexivity.
Qed.

End PartnerFacts.

(** C3, at a store where invoice 1 references partner 1: the "Delete"
    callback of the partner window, confirmed, does not delete the
    partner; the DELETE raises, the exception leaves the callback, and
    partner and invoice are as before, the reference still set. *)
Theorem delete_partner_with_invoice_raises :
  delete_partner (Some 1%Z) true demo_app
  = (Raise (IntegrityError "NOT NULL constraint failed: invoices.partner_id"),
     demo_app)
  ∧ Invoice.partner_id <$> invoices (db demo_app) = [Some 1%Z]
  ∧ Partner.id <$> partners (db demo_app) = [1%Z].
Proof. split; [reflexivity|]. split; reflexivity. Qed.

(** ** Adding and deleting items *)

Section ItemFacts.
Context `{FloatOps}.

Lemma bind_run {A B : Type} (m : M A) (f : A → M B) (st : app) :
  (m ≫= f) st
  = match m st with
    | (Ok a, st') => f a st'
    | (Raise e, st') => (Raise e, st')
    end.
Proof. reflexivity. Qed.

Lemma try_except_run {A : Type} (body : M A) (handler : exn → M A) (st : app) :
  try_except body handler st
  = match body st with
    | (Ok a, st') => (Ok a, st')
    | (Raise e, st') => handler e st'
    end.
Proof. reflexivity. Qed.

(** *** Computations that leave the item table alone *)

Lemma keeps_ret {A : Type} (a : A) : keeps_items (mret a).
Proof. by intros st. Qed.

Lemma keeps_raise {A : Type} (e : exn) : keeps_items (raise (A := A) e).
Proof. by intros st. Qed.

Lemma keeps_messagebox (d : dialog) : keeps_items (messagebox d).
Proof. by intros st. Qed.

Lemma keeps_set_items_tv (rows : list InvoiceItem.t) :
  keeps_items (set_items_tv rows).
Proof. by intros st. Qed.

Lemma keeps_bind {A B : Type} (m : M A) (f : A → M B) :
  keeps_items m → (∀ a, keeps_items (f a)) → keeps_items (m ≫= f).
Proof.
  intros Hm Hf st. unfold mbind, M_bind.
  specialize (Hm st). destruct (m st) as [[a|e] st1]; cbn [snd] in *.
  - by rewrite Hf.
  - done.
Qed.

Lemma keeps_get_conn {A : Type} (body : database → exn + (A * database)) :
  (∀ d a d', body d = inr (a, d') → invoice_items d' = invoice_items d) →
  keeps_items (get_conn body).
Proof.
  intros Hb st. unfold get_conn.
  destruct (faults st) as [|[] fs]; [| done |];
    (destruct (body (db st)) as [e|[a d']] eqn:Hbody; [done|];
     cbn [snd db]; by eapply Hb).
Qed.

Lemma keeps_fetchall {R : Type} (q : database → sql_rows R) :
  keeps_items (fetchall q).
Proof.
  apply keeps_get_conn. intros d a d' Hq.
  destruct (q d); [done|]. by injection Hq as _ <-.
Qed.

Lemma keeps_fetchone {R : Type} (q : database → sql_rows R) :
  keeps_items (fetchone q).
Proof.
  apply keeps_get_conn. intros d a d' Hq.
  destruct (q d); [done|]. by injection Hq as _ <-.
Qed.

Lemma keeps_update (tot : real) (inv_id : Z) :
  keeps_items (execute (sql_update_invoice_total tot inv_id)).
Proof.
  apply keeps_get_conn. intros d a d'. unfold sql_update_invoice_total.
  destruct (bind_ints [inv_id]); [done|]. by intros [= _ <-].
Qed.

Lemma keeps_recompute_total (inv_id : Z) : keeps_items (recompute_total inv_id).
Proof.
  unfold recompute_total. apply keeps_bind; [apply keeps_fetchone|].
  intros [col|]; [|apply keeps_raise].
  apply keeps_bind; [apply keeps_update|]. intros _. apply keeps_ret.
Qed.

Lemma keeps_show_items (inv_id : Z) : keeps_items (show_items_for_invoice inv_id).
Proof.
  unfold show_items_for_invoice.
  apply keeps_bind; [apply keeps_set_items_tv|]. intros _.
  apply keeps_bind; [apply keeps_fetchall|]. intros rows.
  apply keeps_set_items_tv.
Qed.

Lemma keeps_refresh_invoices : keeps_items refresh_invoices.
Proof.
  unfold refresh_invoices. apply keeps_bind; [apply keeps_fetchall|].
  intros _. apply keeps_ret.
Qed.

(** *** What a connection leaves behind *)

Lemma get_conn_inv {A : Type} (body : database → exn + (A * database))
    (st st1 : app) (r : outcome A) :
  get_conn body st = (r, st1) →
  items_tv st1 = items_tv st ∧ dialogs st1 = dialogs st
  ∧ match r with
    | Ok a => body (db st) = inr (a, db st1)
    | Raise _ => db st1 = db st
    end.
Proof.
  unfold get_conn. intros Hg.
  destruct (faults st) as [|[] fs];
    [| by injection Hg as <- <- |];
    (destruct (body (db st)) as [e|[a d']] eqn:Hbody;
     by injection Hg as <- <-).
Qed.

(** The INSERT of an item appends one row, built from its parameters,
    and touches nothing else. *)
Lemma insert_invoice_item_inv (inv_id pid qty : Z) (u lt : real)
    (d d1 : database) (rid : option Z) :
  sql_insert_invoice_item inv_id pid qty u lt d = inr (rid, d1) →
  ∃ id,
    invoice_items d1
    = (invoice_items d ++ [InvoiceItem.mk _ id inv_id pid qty u lt])%list
    ∧ id = next_rowid (seq_invoice_items d) (InvoiceItem.id <$> invoice_items d)
    ∧ invoices d1 = invoices d ∧ products d1 = products d
    ∧ partners d1 = partners d
    ∧ sqlite_int inv_id = true.
Proof.
  unfold sql_insert_invoice_item, bind_ints. cbn [forallb].
  destruct (sqlite_int inv_id) eqn:Hint; [|done]. cbn [andb].
  repeat case_match; try done.
  intros [= _ <-]. eexists. by cbn.
Qed.

Lemma add_item_write_items (inv_id pid qty : Z) (u : real) (st : app) :
  let st' := (add_item_write inv_id pid qty u st).2 in
  invoice_items (db st') = invoice_items (db st)
  ∨ ∃ qf id,
      float_of_int qty = Some qf
      ∧ invoice_items (db st')
        = (invoice_items (db st)
           ++ [InvoiceItem.mk _ id inv_id pid qty u (fmul qf u)])%list.
Proof.
  unfold add_item_write.
  destruct (float_of_int qty) as [qf|]; [|by left].
  set (rest := (recompute_total inv_id;; _)).
  assert (Hrest : keeps_items rest).
  { unfold rest. apply keeps_bind; [apply keeps_recompute_total|]. intros _.
    apply keeps_bind; [apply keeps_show_items|]. intros _.
    apply keeps_bind; [apply keeps_refresh_invoices|]. intros _.
    apply keeps_messagebox. }
  rewrite try_except_run, bind_run. unfold execute.
  destruct (get_conn _ st) as [[rid|e] st1] eqn:Hins;
    apply get_conn_inv in Hins as (_ & _ & Hdb).
  - right. exists qf.
    apply insert_invoice_item_inv in Hdb as (id & Hitems & _).
    exists id. rewrite <- Hitems. specialize (Hrest st1).
    destruct (rest st1) as [[[]|e] st2]; cbn [snd] in *; done.
  - left. cbn. by rewrite Hdb.
Qed.


Lemma bind_ints_single (z : Z) : sqlite_int z = true → bind_ints [z] = None.
Proof. intros Hz. unfold bind_ints. cbn [forallb]. by rewrite Hz. Qed.

(** C2, as the code has it: every call of the gateway commits on its
    own and nothing is rolled back. When the INSERT of the item is what
    fails, the store is left as it was. When the INSERT went through and
    the connection of the SUM query or of the UPDATE of the total fails,
    the error is shown, the item stays stored and the invoices keep the
    totals they had. *)
Theorem add_item_commits_each_step (inv_id pid qty : Z) (u q : real) (st : app) :
  float_of_int qty = Some q →
  let ins := sql_insert_invoice_item inv_id pid qty u (fmul q u) in
  (∀ fs e,
     faults st = true :: fs
     ∨ (faults st = false :: fs ∨ faults st = []) ∧ ins (db st) = inl e →
     db (add_item_write inv_id pid qty u st).2 = db st)
  ∧ (∀ fs rid d1,
       ins (db st) = inr (rid, d1) →
       faults st = false :: true :: fs
       ∨ faults st = false :: false :: true :: fs →
       add_item_write inv_id pid qty u st
       = (Ok (),
          mkapp d1 (items_tv st)
            (dialogs st ++ [ShowError "❌ DB ERROR" "disk I/O error"]) fs)
       ∧ invoices d1 = invoices (db st)
       ∧ ∃ id, invoice_items d1
               = (invoice_items (db st)
                  ++ [InvoiceItem.mk _ id inv_id pid qty u (fmul q u)])%list).
Proof.
  intros Hq ins. split.
  - intros fs e Hfail. unfold add_item_write. rewrite Hq.
    rewrite try_except_run, bind_run. unfold execute, get_conn. fold ins.
    destruct Hfail as [-> | [[-> | ->] ->]]; reflexivity.
  - intros fs rid d1 Hins Hfaults.
    destruct (insert_invoice_item_inv _ _ _ _ _ _ _ _ Hins)
      as (id & Hitems & _ & Hinv & _ & _ & Hint).
    split; [|split; [exact Hinv | by exists id]].
    unfold add_item_write. rewrite Hq.
    rewrite try_except_run, bind_run. unfold execute at 1, get_conn at 1.
    fold ins.
    destruct Hfaults as [-> | ->]; rewrite Hins; cbn [tail].
    + rewrite bind_run. unfold recompute_total. rewrite bind_run.
      reflexivity.
    + rewrite bind_run. unfold recompute_total. rewrite bind_run.
      unfold fetchone, get_conn at 1. cbn [faults db tail].
      unfold sql_sum_line_total, select. rewrite (bind_ints_single _ Hint).
      cbn [head]. rewrite bind_run. unfold execute, get_conn.
      reflexivity.
Qed.

(** *** The callbacks when the store answers every call *)

Lemma app_eta (st : app) :
  faults st = [] → mkapp (db st) (items_tv st) (dialogs st) [] = st.
Proof. intros <-. by destruct st. Qed.

Lemma fetchone_ok {R : Type} (q : database → sql_rows R) (st : app)
    (rows : list R) :
  faults st = [] → q (db st) = inr rows →
  fetchone q st = (Ok (head rows), st).
Proof.
  intros Hf Hq. unfold fetchone.
  erewrite get_conn_ok; [|done|by rewrite Hq]. by rewrite app_eta.
Qed.

Lemma fetchall_ok {R : Type} (q : database → sql_rows R) (st : app)
    (rows : list R) :
  faults st = [] → q (db st) = inr rows →
  fetchall q st = (Ok rows, st).
Proof.
  intros Hf Hq. unfold fetchall.
  erewrite get_conn_ok; [|done|by rewrite Hq]. by rewrite app_eta.
Qed.

Lemma fetchone_raises {R : Type} (q : database → sql_rows R) (st : app)
    (e : exn) :
  faults st = [] → q (db st) = inl e →
  fetchone q st = (Raise e, st).
Proof.
  intros Hf Hq. unfold fetchone.
  erewrite get_conn_raises; [|done|by rewrite Hq]. by rewrite app_eta.
Qed.

Lemma recompute_total_ok (inv_id : Z) (st : app) :
  faults st = [] → sqlite_int inv_id = true →
  recompute_total inv_id st
  = (Ok (), mkapp (db_recompute_total inv_id (db st)) (items_tv st)
              (dialogs st) []).
Proof.
  intros Hf Hint. unfold recompute_total. rewrite bind_run.
  erewrite fetchone_ok; [|done|].
  2:{ unfold sql_sum_line_total, select. by rewrite bind_ints_single. }
  cbn [head]. rewrite bind_run. unfold execute.
  erewrite get_conn_ok; [reflexivity|done|].
  unfold sql_update_invoice_total. by rewrite bind_ints_single.
Qed.

Lemma show_items_ok (inv_id : Z) (st : app) :
  faults st = [] → sqlite_int inv_id = true →
  show_items_for_invoice inv_id st
  = (Ok (), mkapp (db st) (items_of inv_id (db st)) (dialogs st) []).
Proof.
  intros Hf Hint. unfold show_items_for_invoice. rewrite bind_run.
  cbn [set_items_tv]. rewrite bind_run.
  erewrite fetchall_ok; [|done|].
  2:{ unfold sql_select_items, select. cbn [db]. by rewrite bind_ints_single. }
  cbn. by rewrite Hf.
Qed.

Lemma refresh_invoices_ok (st : app) :
  faults st = [] → refresh_invoices st = (Ok (), st).
Proof.
  intros Hf. unfold refresh_invoices. rewrite bind_run.
  by erewrite fetchall_ok.
Qed.

(** After a change of the item table: the total is recomputed, the item
    list reloaded, the invoice list refreshed. *)
Lemma after_item_change_ok (inv_id : Z) (k : M unit) (st : app) :
  faults st = [] → sqlite_int inv_id = true →
  (recompute_total inv_id;; show_items_for_invoice inv_id;;
   refresh_invoices;; k) st
  = k (mkapp (db_recompute_total inv_id (db st))
         (items_of inv_id (db_recompute_total inv_id (db st)))
         (dialogs st) []).
Proof.
  intros Hf Hint.
  rewrite bind_run, recompute_total_ok by done.
  rewrite bind_run, show_items_ok by done.
  rewrite bind_run, refresh_invoices_ok by done.
  reflexivity.
Qed.

Lemma messagebox_quiet (d : dialog) (st : app) :
  faults st = [] → item_step st (messagebox d st).2.
Proof. intros Hf. by apply step_quiet. Qed.

Lemma add_item_write_step (inv_id pid qty : Z) (u : real) (st : app) :
  faults st = [] → item_step st (add_item_write inv_id pid qty u st).2.
Proof.
  intros Hf. unfold add_item_write.
  destruct (float_of_int qty) as [q|]; [|by apply step_quiet].
  rewrite try_except_run, bind_run. unfold execute.
  destruct (sql_insert_invoice_item inv_id pid qty u (fmul q u) (db st))
    as [e|[rid d1]] eqn:Hins.
  - rewrite (get_conn_raises _ _ _ Hf Hins). by apply step_quiet.
  - rewrite (get_conn_ok _ _ _ _ Hf Hins).
    destruct (insert_invoice_item_inv _ _ _ _ _ _ _ _ Hins)
      as (_ & _ & _ & _ & _ & _ & Hint).
    rewrite after_item_change_ok by done.
    by eapply step_added.
Qed.

Lemma add_item_step (product_cb qty_e unit_e : string) (sel : option Z)
    (st : app) :
  faults st = [] →
  item_step st (add_item_to_invoice product_cb qty_e unit_e sel st).2.
Proof.
  intros Hf. unfold add_item_to_invoice.
  destruct (int_of_str (split_head " - " (strip product_cb))) as [pid|];
    [|by apply messagebox_quiet].
  destruct (int_of_str (strip qty_e)) as [qty|]; [|by apply messagebox_quiet].
  destruct sel as [inv_id|]; [|by apply messagebox_quiet].
  destruct (negb (bool_decide (_ = []))); [by apply messagebox_quiet|].
  destruct (if negb (truthy (PyStr (strip unit_e))) then None
            else float_of_str (strip unit_e)) as [u|];
    [by apply add_item_write_step|].
  rewrite bind_run.
  destruct (sql_select_price pid (db st)) as [e|rows] eqn:Hrows.
  - rewrite (fetchone_raises _ _ _ Hf Hrows). by apply step_quiet.
  - rewrite (fetchone_ok _ _ _ Hf Hrows).
    destruct (head rows);
      [by apply add_item_write_step | by apply messagebox_quiet].
Qed.

Lemma delete_item_step (sel : option nat) (confirm : bool) (st : app) :
  faults st = [] → coherent st →
  item_step st (delete_item sel confirm st).2.
Proof.
  intros Hf Hcoh. unfold delete_item. rewrite bind_run. cbn [get_items_tv].
  destruct (sel ≫= _) as [r|] eqn:Hsel; [|by apply messagebox_quiet].
  assert (Hr : r ∈ items_tv st).
  { destruct sel as [k|]; [|done]. by eapply list_elem_of_lookup_2. }
  destruct confirm; [|by apply step_quiet].
  rewrite bind_run. unfold execute.
  destruct (sql_delete_invoice_item (InvoiceItem.id r) (db st))
    as [e|[rid d1]] eqn:Hdel.
  - rewrite (get_conn_raises _ _ _ Hf Hdel). by apply step_quiet.
  - rewrite (get_conn_ok _ _ _ _ Hf Hdel).
    assert (d1 = db_delete_item (InvoiceItem.id r) (db st)) as ->.
    { unfold sql_delete_invoice_item in Hdel.
      destruct (bind_ints _); [done|]. by injection Hdel as _ <-. }
    pose proof (coh_tv_range st Hcoh r Hr) as Hint.
    assert (Hrun : ∀ st1, faults st1 = [] →
      (recompute_total (InvoiceItem.invoice_id r);;
       show_items_for_invoice (InvoiceItem.invoice_id r);;
       refresh_invoices) st1
      = (recompute_total (InvoiceItem.invoice_id r);;
         show_items_for_invoice (InvoiceItem.invoice_id r);;
         refresh_invoices;; mret ()) st1).
    { intros st1 Hf1. rewrite after_item_change_ok by done.
      rewrite bind_run, recompute_total_ok by done.
      rewrite bind_run, show_items_ok by done.
      by rewrite refresh_invoices_ok. }
    rewrite Hrun by done. rewrite after_item_change_ok by done.
    by eapply (step_deleted _ _ r).
Qed.

Lemma run_op_step (op : item_op) (st : app) :
  faults st = [] → coherent st → item_step st (run_op op st).2.
Proof.
  intros Hf Hcoh. destruct op as [p q u sel | sel confirm].
  - by apply add_item_step.
  - by apply delete_item_step.
Qed.

(** *** The total invariant along the steps *)

Lemma or_zero_sum (l : list real) :
  or_zero (sql_sum l)
  = if float_is_nan (foldl fadd f0 l) then f0 else foldl fadd f0 l.
Proof.
  destruct l as [|x l]; [by cbn; destruct (float_is_nan f0)|].
  unfold sql_sum, or_zero. cbv zeta.
  destruct (float_is_nan _); [reflexivity|].
  destruct (float_truthy _) eqn:Ht; [reflexivity|].
  symmetry. by apply float_falsy_zero.
Qed.

Lemma stored_total_items (inv_id : Z) (d d' : database) :
  items_of inv_id d' = items_of inv_id d →
  stored_total inv_id d' = stored_total inv_id d.
Proof. intros Heq. unfold stored_total, sum_line_totals. by rewrite Heq. Qed.

Lemma stored_total_none (inv_id : Z) (d : database) :
  items_of inv_id d = [] → stored_total inv_id d = f0.
Proof.
  intros Hnone. unfold stored_total, sum_line_totals. rewrite Hnone. cbn.
  by destruct (float_is_nan f0).
Qed.

Lemma recompute_total_invariant (inv_id : Z) (d : database) :
  (∀ i, i ∈ invoices d → Invoice.id i ≠ inv_id →
        Invoice.total_amount i = stored_total (Invoice.id i) d) →
  total_invariant (db_recompute_total inv_id d).
Proof.
  intros Hother i Hi. cbn [db_recompute_total invoices] in Hi.
  apply list_elem_of_fmap in Hi as (i0 & -> & Hi0).
  destruct (Z.eqb_spec (Invoice.id i0) inv_id) as [Heq|Hne].
  - cbn [Invoice.set_total_amount Invoice.total_amount Invoice.id].
    unfold stored_total, sum_line_totals. rewrite or_zero_sum, Heq.
    reflexivity.
  - by rewrite Hother.
Qed.

Lemma foldr_max_ge (ids : list Z) (x : Z) :
  x ∈ ids → (x <= foldr Z.max 0 ids)%Z.
Proof.
  induction ids as [|y ids IH]; [by intros ?%elem_of_nil|].
  intros [->|Hin]%elem_of_cons; cbn [foldr]; [lia|].
  specialize (IH Hin). lia.
Qed.

Lemma next_rowid_fresh (seq : Z) (ids : list Z) (x : Z) :
  x ∈ ids → (x < next_rowid seq ids)%Z.
Proof.
  intros Hin%foldr_max_ge. unfold next_rowid. lia.
Qed.

Lemma filter_filter_implied {A : Type} (P Q : A → Prop)
    `{∀ x, Decision (P x)} `{∀ x, Decision (Q x)} (l : list A) :
  (∀ x, x ∈ l → P x → Q x) → filter P (filter Q l) = filter P l.
Proof.
  induction l as [|x l IH]; intros Himp; [reflexivity|].
  assert (IH' : filter P (filter Q l) = filter P l).
  { apply IH. intros y Hy. by apply Himp, list_elem_of_further. }
  destruct (decide (P x)) as [HP|HP].
  - rewrite (filter_cons_True Q) by (apply Himp; [apply list_elem_of_here|done]).
    rewrite !(filter_cons_True P) by done. by rewrite IH'.
  - rewrite (filter_cons_False P x l) by done.
    destruct (decide (Q x)).
    + rewrite (filter_cons_True Q) by done.
      by rewrite (filter_cons_False P) by done.
    + by rewrite (filter_cons_False Q) by done.
Qed.

Lemma item_step_preserves (st st' : app) :
  total_invariant (db st) → coherent st → item_step st st' →
  total_invariant (db st') ∧ coherent st'.
Proof.
  intros Hinv Hcoh [Hdb Htv Hf | inv_id pid qty u lt rid d1 Hins Hdb Htv Hf
                    | r Hr Hdb Htv Hf].
  - rewrite Hdb. split; [done|].
    destruct Hcoh as [Hrange Hdbo Htvo].
    split; rewrite ?Hdb, ?Htv; done.
  - destruct (insert_invoice_item_inv _ _ _ _ _ _ _ _ Hins)
      as (id & Hitems & Hid & Hinvs & _ & _ & Hint).
    assert (Hdbo' : ∀ x y, x ∈ invoice_items (db st') → y ∈ invoice_items (db st') →
              InvoiceItem.id x = InvoiceItem.id y →
              InvoiceItem.invoice_id x = InvoiceItem.invoice_id y).
    { rewrite Hdb. cbn [db_recompute_total invoice_items]. rewrite Hitems.
      intros x y [Hx|Hx%list_elem_of_singleton]%elem_of_app
                 [Hy|Hy%list_elem_of_singleton]%elem_of_app Hxy.
      - by apply (coh_db_owner st Hcoh).
      - exfalso. subst y. cbn in Hxy.
        pose proof (next_rowid_fresh (seq_invoice_items (db st))
                      (InvoiceItem.id <$> invoice_items (db st))
                      (InvoiceItem.id x)) as Hfresh.
        rewrite <- Hid in Hfresh. apply Z.lt_neq in Hfresh; [done|].
        by apply list_elem_of_fmap_2.
      - exfalso. subst x. cbn in Hxy.
        pose proof (next_rowid_fresh (seq_invoice_items (db st))
                      (InvoiceItem.id <$> invoice_items (db st))
                      (InvoiceItem.id y)) as Hfresh.
        rewrite <- Hid in Hfresh. apply Z.lt_neq in Hfresh; [done|].
        by apply list_elem_of_fmap_2.
      - by subst. }
    split.
    + rewrite Hdb. apply recompute_total_invariant.
      intros i Hi Hne. rewrite Hinvs in Hi. rewrite (Hinv i Hi).
      symmetry. apply stored_total_items.
      unfold items_of. rewrite Hitems, filter_app.
      rewrite (filter_cons_False _ _ []) by (cbn; congruence).
      by rewrite filter_nil, app_nil_r.
    + split.
      * intros r. rewrite Htv. unfold items_of.
        intros [-> _]%list_elem_of_filter. exact Hint.
      * exact Hdbo'.
      * intros r x. rewrite Htv. unfold items_of.
        intros [_ Hr]%list_elem_of_filter Hx Hxr. by apply Hdbo'.
  - pose proof (coh_tv_range st Hcoh r Hr) as Hint.
    assert (Hsub : ∀ x, x ∈ invoice_items (db st') → x ∈ invoice_items (db st)).
    { rewrite Hdb. cbn [db_recompute_total db_delete_item invoice_items].
      by intros x [_ Hx]%list_elem_of_filter. }
    assert (Hdbo' : ∀ x y, x ∈ invoice_items (db st') → y ∈ invoice_items (db st') →
              InvoiceItem.id x = InvoiceItem.id y →
              InvoiceItem.invoice_id x = InvoiceItem.invoice_id y).
    { intros x y Hx Hy. apply (coh_db_owner st Hcoh); by apply Hsub. }
    split.
    + rewrite Hdb. apply recompute_total_invariant.
      intros i Hi Hne. cbn [db_delete_item invoices] in Hi.
      rewrite (Hinv i Hi).
      symmetry. apply stored_total_items.
      unfold items_of. cbn [db_delete_item invoice_items].
      apply filter_filter_implied.
      intros x Hx Heq Hxid. apply Hne. rewrite <- Heq.
      by apply (coh_tv_owner st Hcoh r x Hr).
    + split.
      * intros r'. rewrite Htv. unfold items_of.
        intros [-> _]%list_elem_of_filter. exact Hint.
      * exact Hdbo'.
      * intros r' x. rewrite Htv. unfold items_of.
        intros [_ Hr']%list_elem_of_filter Hx Hxr. by apply Hdbo'.
Qed.

Lemma run_ops_preserves (ops : list item_op) :
  ∀ st : app,
    faults st = [] → coherent st → total_invariant (db st) →
    faults (run_ops ops st) = [] ∧ coherent (run_ops ops st)
    ∧ total_invariant (db (run_ops ops st)).
Proof.
  induction ops as [|op ops IH]; intros st Hf Hcoh Hinv; [done|].
  cbn [run_ops foldl]. fold (run_ops ops (run_op op st).2).
  pose proof (run_op_step op st Hf Hcoh) as Hstep.
  destruct (item_step_preserves _ _ Hinv Hcoh Hstep) as [Hinv' Hcoh'].
  apply IH; [|done|done].
  by destruct Hstep.
Qed.

(** C1 (I1, P1), as the code has it: from a store in which every invoice
    carries the total computed from its items, and with the store
    answering every call, any sequence of clicks on "Add Item" and
    "Delete Item" leads to a store in which every invoice carries the sum
    of the line totals of the items it has now when that sum is a number,
    and 0.0 when it is not a number; the total of an invoice without
    items is 0.0. *)
Theorem total_invariant_after_item_ops (ops : list item_op) (st : app) :
  faults st = [] → coherent st → total_invariant (db st) →
  let d' := db (run_ops ops st) in
  ∀ inv, inv ∈ invoices d' →
    let s := foldl fadd f0
               (InvoiceItem.line_total <$> items_of (Invoice.id inv) d') in
    (float_is_nan s = false → Invoice.total_amount inv = s)
    ∧ (float_is_nan s = true → Invoice.total_amount inv = f0)
    ∧ (items_of (Invoice.id inv) d' = [] → Invoice.total_amount inv = f0).
Proof.
  intros Hf Hcoh Hinv d' inv Hin s.
  destruct (run_ops_preserves ops st Hf Hcoh Hinv) as (_ & _ & Hinv').
  specialize (Hinv' inv Hin). fold d' in Hinv'.
  split; [|split].
  - intros Hnum. rewrite Hinv'. unfold stored_total, sum_line_totals.
    fold s. by rewrite Hnum.
  - intros Hnan. rewrite Hinv'. unfold stored_total, sum_line_totals.
    fold s. by rewrite Hnan.
  - intros Hnone. rewrite Hinv'. by apply stored_total_none.
Qed.

Lemma filter_none {A : Type} (P : A → Prop) `{∀ x, Decision (P x)}
    (l : list A) :
  (∀ x, x ∈ l → ¬ P x) → filter P l = [].
Proof.
  induction l as [|x l IH]; intros Hnone; [reflexivity|].
  rewrite filter_cons_False by (apply Hnone, list_elem_of_here).
  apply IH. intros y Hy. by apply Hnone, list_elem_of_further.
Qed.

(** A new invoice enters the store with no item and the total 0: the
    INSERT of an invoice keeps the invariant. *)
Lemma insert_invoice_keeps_invariant (pid : Z) (date : string)
    (due : option string) (status : string) (d d' : database)
    (rid : option Z) :
  total_invariant d → items_reference_invoices d →
  sql_insert_invoice pid date due status d = inr (rid, d') →
  total_invariant d' ∧ items_reference_invoices d'.
Proof.
  intros Hinv Href. unfold sql_insert_invoice.
  destruct (bind_ints [pid]); [done|].
  destruct (negb _); [done|]. intros [= _ <-].
  set (id := next_rowid (seq_invoices d) (Invoice.id <$> invoices d)).
  assert (Hnone : items_of id d = []).
  { unfold items_of. apply filter_none.
    intros x Hx Hid. destruct (Href x Hx) as (i & Hi & Heq).
    pose proof (next_rowid_fresh (seq_invoices d) (Invoice.id <$> invoices d)
                  (Invoice.id i) (list_elem_of_fmap_2 _ _ _ Hi)) as Hfresh.
    fold id in Hfresh. lia. }
  split.
  - intros i. cbn [invoices].
    intros [Hi | ->%list_elem_of_singleton]%elem_of_app.
    + by apply Hinv.
    + cbn [Invoice.total_amount Invoice.id].
      symmetry. change (stored_total id d = f0). by apply stored_total_none.
  - intros x Hx. destruct (Href x Hx) as (i & Hi & Heq).
    exists i. split; [|done]. cbn [invoices]. apply elem_of_app. by left.
Qed.

(** The store right after [init_db] is such a starting point. *)
Lemma init_db_consistent :
  total_invariant init_db ∧ coherent (mkapp init_db [] [] []).
Proof.
  split; [by intros inv ?%elem_of_nil|].
  split; cbn.
  - by intros r ?%elem_of_nil.
  - by intros x y ?%elem_of_nil.
  - by intros r x ?%elem_of_nil.
Qed.

End ItemFacts.

(** P2, on the store with the product priced 9.99: three units added
    with the unit-price entry left empty make a line of 29.97. *)
Example line_total_from_product_price :
  let st' := (add_item_to_invoice "1 - Widget (price:9.99)" "3" "" (Some 1%Z)
                demo_app).2 in
  invoice_items (db st')
  = [InvoiceItem.mk Decimal.ops 1 1 1 3 (Decimal.amount 999 100)
       (Decimal.amount 2997 100)]
  ∧ Invoice.total_amount <$> invoices (db st') = [Decimal.amount 2997 100].
Proof. split; reflexivity. Qed.

(** C2, as the claim states it, fails: on the store with one invoice and
    no item, adding 2 units at 10 with the connection of the UPDATE
    failing shows the error and leaves the item stored under a total
    that is still 0. *)
Lemma failed_total_update_is_not_rolled_back :
  let st := mkapp demo_db [] [] [false; false; true] in
  let st' := (add_item_to_invoice "1 - Widget (price:9.99)" "2" "10"
                (Some 1%Z) st).2 in
  dialogs st' = [ShowError "❌ DB ERROR" "disk I/O error"]
  ∧ @InvoiceItem.line_total Decimal.ops <$> invoice_items (db st')
    = [Decimal.amount 20 1]
  ∧ @Invoice.total_amount Decimal.ops <$> invoices (db st')
    = [Decimal.amount 0 1]
  ∧ db st' ≠ db st.
Proof.
  intros st st'. split; [reflexivity|]. split; [reflexivity|].
  split; [reflexivity|].
  intros Heq. apply (f_equal invoice_items) in Heq. discriminate Heq.
Qed.

Lemma add_item_commits_each_step_witness :
  let st := mkapp demo_db [] [] [false; false; true] in
  let st' := (add_item_write (H := Decimal.ops) 1 1 2
                (Decimal.amount 10 1) st).2 in
  dialogs st' = [ShowError "❌ DB ERROR" "disk I/O error"]
  ∧ length (invoice_items (db st')) = 1%nat
  ∧ invoices (db st') = invoices demo_db.
Proof.
  intros st st'.
  destruct (add_item_commits_each_step (H := Decimal.ops) 1 1 2
              (Decimal.amount 10 1) (Decimal.amount 2 1) st eq_refl)
    as [_ Hlater].
  destruct (Hlater [] _ _ eq_refl (or_intror eq_refl)) as (Hrun & Hinv & _).
  unfold st'. rewrite Hrun. split; [reflexivity|]. split; [reflexivity|].
  exact Hinv.
Defined.

(** C1, as the specification has it, fails when the sum of the line
    totals is not a number: after one unit at the price [inf] and one
    unit at the price [-inf] were added to the invoice of [demo_ext_db],
    the store answering every call, the invoice has the two items, their
    line totals sum to [nan], and the total of the invoice is 0.0. *)
Lemma total_is_zero_when_the_sum_is_nan :
  let st := demo_ext_app in
  let st' := run_ops inf_ops st in
  (faults st = [] ∧ coherent st ∧ total_invariant (db st))
  ∧ ∃ inv,
      invoices (db st') = [inv]
      ∧ InvoiceItem.line_total <$> items_of (Invoice.id inv) (db st')
        = [Extended.PInf; Extended.NInf]
      ∧ foldl fadd f0
          (InvoiceItem.line_total <$> items_of (Invoice.id inv) (db st'))
        = Extended.NaN
      ∧ Invoice.total_amount inv = Extended.zero
      ∧ Invoice.total_amount inv
        ≠ foldl fadd f0
            (InvoiceItem.line_total <$> items_of (Invoice.id inv) (db st')).
Proof.
  intros st st'. split.
  - split; [reflexivity|]. split.
    + split; cbn.
      * by intros r ?%elem_of_nil.
      * by intros x y ?%elem_of_nil.
      * by intros r x ?%elem_of_nil.
    + intros inv ->%list_elem_of_singleton. reflexivity.
  - eexists. split; [reflexivity|]. split; [reflexivity|].
    split; [reflexivity|]. split; [reflexivity|]. discriminate.
Qed.

(** P1, step by step: the total is 20, then 25, then 5. *)
Example totals_along_p1 :
  (fun ops => @Invoice.total_amount Decimal.ops
                <$> invoices (db (run_ops ops demo_app)))
    <$> [take 1 p1_ops; take 2 p1_ops; p1_ops]
  = [[Decimal.amount 20 1]; [Decimal.amount 25 1]; [Decimal.amount 5 1]].
Proof. reflexivity. Qed.

Lemma total_invariant_after_item_ops_witness :
  let st' := run_ops (H := Decimal.ops) p1_ops demo_app in
  ∃ inv, invoices (db st') = [inv]
         ∧ Invoice.total_amount inv = Decimal.amount 5 1
         ∧ @InvoiceItem.line_total Decimal.ops <$> invoice_items (db st')
           = [Decimal.amount 5 1].
Proof.
  intros st'. eexists. split; [reflexivity|]. split; [|reflexivity].
  refine (eq_trans
            (proj1 (total_invariant_after_item_ops (H := Decimal.ops)
                      p1_ops demo_app eq_refl _ _ _ _) _) _).
  - split; cbn.
    + by intros r ?%elem_of_nil.
    + by intros x y ?%elem_of_nil.
    + by intros r x ?%elem_of_nil.
  - intros inv ->%list_elem_of_singleton. reflexivity.
  - apply list_elem_of_here.
  - reflexivity.
  - reflexivity.
Defined.

(** * Further properties *)

(** ** The validators, field by field *)

Section ValidatorShape.
Context `{FloatOps}.

Lemma foldl_appends {A B : Type} (step : list A → B → list A)
    (errs : B → list A) (fields : list B) :
  (∀ acc f, step acc f = (acc ++ errs f)%list) →
  ∀ acc, foldl step acc fields = (acc ++ mjoin (errs <$> fields))%list.
Proof.
  intros Hstep. induction fields as [|f fields IH]; intros acc.
  - cbn. by rewrite app_nil_r.
  - cbn [foldl fmap list_fmap mjoin list_join].
    rewrite IH, Hstep. by rewrite <- app_assoc.
Qed.

Lemma if_append (c : bool) (errors : list string) (msg : string) :
  (if c then append errors msg else errors) = (errors ++ when c msg)%list.
Proof. destruct c; cbn; [reflexivity | by rewrite app_nil_r]. Qed.

Lemma when_nil (c : bool) (msg : string) : when c msg = [] ↔ c = false.
Proof. by destruct c. Qed.

Lemma truthy_str_iff (s : string) : truthy (PyStr s) = true ↔ s ≠ "".
Proof.
  cbn [truthy]. rewrite negb_true_iff. apply String.eqb_neq.
Qed.

Lemma check_partner_field_appends (row : gmap string pyval)
    (errors : list string) (field : string) :
  check_partner_field row errors field
  = (errors ++ partner_field_errors row field)%list.
Proof.
  unfold check_partner_field, partner_field_errors. fold (field_text row field).
  destruct (decide (field_text row field = "")) as [Hb|Hb].
  - rewrite Hb, bool_decide_eq_true_2 by done. reflexivity.
  - rewrite bool_decide_eq_false_2 by done.
    rewrite (proj2 (truthy_str_iff _) Hb). cbn [negb].
    rewrite andb_true_r. by rewrite if_append.
Qed.

(** The partner validator reports at most one error for each field, in
    the order of the fields: the missing value, or for the email the
    wrong format. *)
Lemma validate_partner_row_by_field (row : gmap string pyval) :
  validate_partner_row row
  = mjoin (partner_field_errors row
             <$> ["name"; "tax_id"; "email"; "phone"; "address"]).
Proof.
  unfold validate_partner_row.
  by rewrite (foldl_appends _ _ _ (check_partner_field_appends row)).
Qed.

Lemma mjoin_fmap_nil {A B : Type} (g : B → list A) (l : list B) :
  mjoin (g <$> l) = [] ↔ ∀ f, f ∈ l → g f = [].
Proof.
  induction l as [|x l IH]; cbn [fmap list_fmap mjoin list_join].
  - split; [by intros _ f ?%elem_of_nil | done].
  - fold (g <$> l). fold (mjoin (g <$> l)). split.
    + intros [Hx Hl]%app_nil f [->|Hf]%elem_of_cons; [done|].
      by apply IH.
    + intros Hall. apply app_nil. split.
      * apply Hall, list_elem_of_here.
      * apply IH. intros f Hf. by apply Hall, list_elem_of_further.
Qed.

Lemma partner_field_errors_nil (row : gmap string pyval) (field : string) :
  partner_field_errors row field = []
  ↔ field_text row field ≠ ""
    ∧ (field = "email" → validate_email (field_text row field) = true).
Proof.
  unfold partner_field_errors.
  destruct (decide (field_text row field = "")) as [Hb|Hb].
  - rewrite bool_decide_eq_true_2 by done. split; [done | by intros []].
  - rewrite bool_decide_eq_false_2 by done. rewrite when_nil.
    destruct (String.eqb_spec field "email") as [->|Hne]; cbn [andb].
    + rewrite negb_false_iff. split; [by intros -> | intros [_ He]; by apply He].
    + split; [done | reflexivity].
Qed.

(** X1: the partner validator accepts a field map exactly when the five
    fields are non-blank and the email has the shape of [EMAIL_RE]. *)
Theorem validate_partner_row_accepts (row : gmap string pyval) :
  validate_partner_row row = []
  ↔ (∀ f, f ∈ ["name"; "tax_id"; "email"; "phone"; "address"] →
          field_text row f ≠ "")
    ∧ validate_email (field_text row "email") = true.
Proof.
  rewrite validate_partner_row_by_field, mjoin_fmap_nil. split.
  - intros Hall. split.
    + intros f Hf. by apply (partner_field_errors_nil row f), Hall.
    + apply (partner_field_errors_nil row "email"); [|done].
      apply Hall. do 2 apply list_elem_of_further. apply list_elem_of_here.
  - intros [Hall Hemail] f Hf. apply partner_field_errors_nil.
    split; [by apply Hall | by intros ->].
Qed.

Lemma field_text_truthy (row : gmap string pyval) (field : string) :
  field_text row field ≠ "" → truthy (get row field) = true.
Proof.
  unfold field_text, or_. destruct (truthy (get row field)); [done|].
  intros Hne. by destruct Hne.
Qed.

Lemma check_product_field_appends (row : gmap string pyval)
    (errors : list string) (field : string) :
  check_product_field row errors field
  = (errors ++ when (bool_decide (field_text row field = ""))
                 (required_msg field))%list.
Proof.
  unfold check_product_field. fold (field_text row field).
  rewrite if_append. do 2 f_equal.
  destruct (decide (field_text row field = "")) as [Hb|Hb].
  - by rewrite Hb, bool_decide_eq_true_2.
  - rewrite bool_decide_eq_false_2 by done.
    by rewrite (proj2 (truthy_str_iff _) Hb).
Qed.

Lemma check_present_appends (row : gmap string pyval)
    (errors : list string) (field : string) :
  check_present row errors field
  = (errors ++ when (negb (truthy (get row field))) (required_msg field))%list.
Proof. unfold check_present. by rewrite if_append. Qed.

Lemma required_fields_nil (blank : string → bool) (fields : list string) :
  mjoin ((fun f => when (blank f) (required_msg f)) <$> fields) = []
  ↔ ∀ f, f ∈ fields → blank f = false.
Proof.
  rewrite mjoin_fmap_nil. by setoid_rewrite when_nil.
Qed.

(** X2: the product validator accepts a field map exactly when the five
    fields are non-blank, the price reads as a float and the stock as an
    integer. *)
Theorem validate_product_row_accepts (row : gmap string pyval) :
  validate_product_row row = []
  ↔ (∀ f, f ∈ ["sku"; "name"; "description"; "price"; "stock"] →
          field_text row f ≠ "")
    ∧ is_float (get row "price") = true
    ∧ is_int (get row "stock") = true.
Proof.
  unfold validate_product_row.
  rewrite (foldl_appends _ _ _ (check_product_field_appends row)), app_nil_l.
  rewrite !if_append, !app_nil, required_fields_nil, !when_nil.
  split.
  - intros ((Hall & Hprice) & Hstock).
    assert (Hall' : ∀ f, f ∈ ["sku"; "name"; "description"; "price"; "stock"] →
                         field_text row f ≠ "").
    { intros f Hf. by apply (bool_decide_eq_false_1 _), Hall. }
    split; [exact Hall'|].
    rewrite (field_text_truthy row "price") in Hprice
      by (apply Hall'; do 3 apply list_elem_of_further; apply list_elem_of_here).
    rewrite (field_text_truthy row "stock") in Hstock
      by (apply Hall'; do 4 apply list_elem_of_further; apply list_elem_of_here).
    by split; apply negb_false_iff.
  - intros (Hall & Hprice & Hstock). rewrite Hprice, Hstock, !andb_false_r.
    split; [split|]; try done.
    intros f Hf. by apply bool_decide_eq_false_2, Hall.
Qed.

(** X3: the invoice validator accepts a field map exactly when the four
    values are present (truthy), the partner id is an [int] and the two
    dates are ISO dates: a partner id given as text is not accepted. *)
Theorem validate_invoice_row_accepts (row : gmap string pyval) :
  validate_invoice_row row = []
  ↔ (∀ f, f ∈ ["partner_id"; "invoice_date"; "due_date"; "status"] →
          truthy (get row f) = true)
    ∧ isinstance_int (get row "partner_id") = true
    ∧ validate_date_iso (get row "invoice_date") = true
    ∧ validate_date_iso (get row "due_date") = true.
Proof.
  unfold validate_invoice_row.
  rewrite (foldl_appends _ _ _ (check_present_appends row)), app_nil_l.
  rewrite !if_append, !app_nil.
  rewrite (required_fields_nil (fun f => negb (truthy (get row f)))), !when_nil.
  split.
  - intros (((Hall & Hp) & Hd) & Hu).
    assert (Hall' : ∀ f, f ∈ ["partner_id"; "invoice_date"; "due_date"; "status"] →
                         truthy (get row f) = true).
    { intros f Hf. by apply negb_false_iff, Hall. }
    split; [exact Hall'|].
    rewrite (Hall' "partner_id") in Hp by apply list_elem_of_here.
    rewrite (Hall' "invoice_date") in Hd
      by (apply list_elem_of_further, list_elem_of_here).
    rewrite (Hall' "due_date") in Hu
      by (do 2 apply list_elem_of_further; apply list_elem_of_here).
    by repeat split; apply negb_false_iff.
  - intros (Hall & Hp & Hd & Hu). rewrite Hp, Hd, Hu, !andb_false_r.
    repeat split; try done.
    intros f Hf. by apply negb_false_iff, Hall.
Qed.

Lemma nonzero_int_shape (v : pyval) :
  truthy v = true ∧ isinstance_int v = true
  ↔ (∃ z, z ≠ 0%Z ∧ v = PyInt z) ∨ v = PyBool true.
Proof.
  destruct v as [| [] | z | s]; cbn [truthy isinstance_int].
  - split; [by intros [[=] _] | by intros [(z & _ & [=]) | [=]]].
  - split; [by right | done].
  - split; [by intros [[=] _] | by intros [(z & _ & [=]) | [=]]].
  - split.
    + intros [Hz _]. left. exists z. split; [|done].
      by apply Z.eqb_neq, negb_true_iff.
    + intros [(z' & Hz & [= ->])|[=]]. split; [|done].
      by apply negb_true_iff, Z.eqb_neq.
  - split; [by intros [_ [=]] | by intros [(z & _ & [=]) | [=]]].
Qed.

(** X4: the invoice-item validator accepts a field map exactly when the
    three values are non-zero integers ([True] counts as the integer 1):
    a zero is reported as missing, a number given as text as not a
    number, and the sign of the quantity is not looked at. *)
Theorem validate_invoice_item_row_accepts (row : gmap string pyval) :
  validate_invoice_item_row row = []
  ↔ ∀ f, f ∈ ["invoice_id"; "product_id"; "quantity"] →
         (∃ z, z ≠ 0%Z ∧ get row f = PyInt z) ∨ get row f = PyBool true.
Proof.
  unfold validate_invoice_item_row.
  rewrite (foldl_appends _ _ _ (check_present_appends row)), app_nil_l.
  rewrite !if_append, !app_nil.
  rewrite (required_fields_nil (fun f => negb (truthy (get row f)))), !when_nil.
  pose proof nonzero_int_shape as Hshape.
  split.
  - intros (((Hall & Hi) & Hp) & Hq) f Hf. apply Hshape.
    assert (Ht : truthy (get row f) = true) by by apply negb_false_iff, Hall.
    split; [done|].
    repeat (apply elem_of_cons in Hf as [->|Hf];
            [rewrite Ht in *; by apply negb_false_iff|]).
    by apply elem_of_nil in Hf.
  - intros Hall.
    assert (Hall' : ∀ f, f ∈ ["invoice_id"; "product_id"; "quantity"] →
              truthy (get row f) = true ∧ isinstance_int (get row f) = true).
    { intros f Hf. by apply Hshape, Hall. }
    destruct (Hall' "invoice_id") as [_ ->]; [apply list_elem_of_here|].
    destruct (Hall' "product_id") as [_ ->];
      [apply list_elem_of_further, list_elem_of_here|].
    destruct (Hall' "quantity") as [_ ->];
      [do 2 apply list_elem_of_further; apply list_elem_of_here|].
    rewrite !andb_false_r. repeat split; try done.
    intros f Hf. apply negb_false_iff. by apply Hall'.
Qed.

End ValidatorShape.

(** ** The email pattern *)

Lemma lang_seq_inv (r1 r2 : Re.regex) (l : list ascii) :
  re_lang (Re.Seq r1 r2) l →
  ∃ l1 l2, l = (l1 ++ l2)%list ∧ re_lang r1 l1 ∧ re_lang r2 l2.
Proof. inversion 1; subst; eauto. Qed.

Lemma nullable_lang (r : Re.regex) : Re.nullable r = true ↔ re_lang r [].
Proof.
  induction r as [| | c | c | r1 IH1 r2 IH2 | r1 IH1 r2 IH2 | r IH];
    cbn [Re.nullable].
  - split; [done | inversion 1].
  - split; [constructor | done].
  - split; [done | inversion 1].
  - split; [done | inversion 1].
  - rewrite andb_true_iff, IH1, IH2. split.
    + intros [H1 H2]. by apply (lang_seq _ _ [] []).
    + intros (l1 & l2 & Heq & H1 & H2)%lang_seq_inv.
      destruct l1, l2; try discriminate. done.
  - rewrite orb_true_iff, IH1, IH2. split.
    + intros [?|?]; [by apply lang_alt_l | by apply lang_alt_r].
    + inversion 1; subst; [by left | by right].
  - split; [constructor | done].
Qed.

(** A non-empty string of [r*] starts with a non-empty string of [r]. *)
Lemma star_cons_inv (r : Re.regex) (l : list ascii) :
  re_lang (Re.Star r) l →
  ∀ a l', l = a :: l' →
    ∃ l1 l2, l' = (l1 ++ l2)%list ∧ re_lang r (a :: l1) ∧ re_lang (Re.Star r) l2.
Proof.
  intros Hl. remember (Re.Star r) as s eqn:Hs.
  induction Hl as [| | | | | | r' | r' l1 l2 H1 _ H2 IH2]; try discriminate.
  injection Hs as ->. intros a l' Heq.
  destruct l1 as [|b l1].
  - by apply IH2.
  - injection Heq as <- <-. by exists l1, l2.
Qed.

Lemma deriv_lang (r : Re.regex) :
  ∀ (a : ascii) (l : list ascii),
    re_lang (Re.deriv a r) l ↔ re_lang r (a :: l).
Proof.
  induction r as [| | c | c | r1 IH1 r2 IH2 | r1 IH1 r2 IH2 | r IH];
    intros a l; cbn [Re.deriv].
  - split; inversion 1.
  - split; inversion 1.
  - destruct (Ascii.eqb_spec a c) as [->|Hne].
    + split; [inversion 1; constructor | inversion 1; constructor].
    + split; [inversion 1 | inversion 1; by subst].
  - destruct (Ascii.eqb_spec a c) as [->|Hne].
    + split; [inversion 1 | inversion 1; by subst].
    + split; [inversion 1; by constructor | inversion 1; constructor].
  - assert (Hfirst : ∀ l, re_lang (Re.Seq (Re.deriv a r1) r2) l
                          → re_lang (Re.Seq r1 r2) (a :: l)).
    { intros k (l1 & l2 & -> & H1 & H2)%lang_seq_inv.
      apply IH1 in H1. by apply (lang_seq _ _ (a :: l1) l2). }
    assert (Hback : re_lang (Re.Seq r1 r2) (a :: l) →
                    re_lang (Re.Seq (Re.deriv a r1) r2) l
                    ∨ (re_lang r1 [] ∧ re_lang (Re.deriv a r2) l)).
    { intros (l1 & l2 & Heq & H1 & H2)%lang_seq_inv.
      destruct l1 as [|b l1].
      - right. cbn in Heq. subst l2. split; [done | by apply IH2].
      - injection Heq as <- ->. left. apply lang_seq; [by apply IH1 | done]. }
    destruct (Re.nullable r1) eqn:Hnull.
    + split.
      * inversion 1; subst; [by apply Hfirst|].
        apply (lang_seq _ _ [] (a :: l)); [by apply nullable_lang | by apply IH2].
      * intros [?|[_ ?]]%Hback; [by apply lang_alt_l | by apply lang_alt_r].
    + split; [apply Hfirst|].
      intros [?|[Hn _]]%Hback; [done|].
      apply nullable_lang in Hn. congruence.
  - split.
    + inversion 1; subst; [apply lang_alt_l | apply lang_alt_r];
        first [by apply IH1 | by apply IH2].
    + inversion 1; subst; [apply lang_alt_l | apply lang_alt_r];
        first [by apply IH1 | by apply IH2].
  - split.
    + intros (l1 & l2 & -> & H1 & H2)%lang_seq_inv.
      apply IH in H1. by apply (lang_star_app _ (a :: l1) l2).
    + intros Hstar.
      destruct (star_cons_inv _ _ Hstar a l eq_refl) as (l1 & l2 & -> & H1 & H2).
      apply lang_seq; [by apply IH | done].
Qed.

(** The matcher by derivatives decides the strings of the expression. *)
Lemma matches_lang (r : Re.regex) (l : list ascii) :
  Re.matches r l = true ↔ re_lang r l.
Proof.
  revert r. induction l as [|a l IH]; intros r; cbn [Re.matches].
  - apply nullable_lang.
  - rewrite IH. apply deriv_lang.
Qed.

Lemma star_not_lit_lang (c : ascii) (l : list ascii) :
  re_lang (Re.Star (Re.NotLit c)) l ↔ c ∉ l.
Proof.
  split.
  - intros Hl. remember (Re.Star (Re.NotLit c)) as s eqn:Hs.
    induction Hl as [| | | | | | r' | r' l1 l2 H1 _ H2 IH2]; try discriminate.
    + apply not_elem_of_nil.
    + injection Hs as ->. inversion H1; subst.
      apply not_elem_of_cons. split; [done | by apply IH2].
  - induction l as [|a l IH]; intros Hc; [constructor|].
    apply not_elem_of_cons in Hc as [Hne Hc].
    apply (lang_star_app _ [a] l); [by constructor | by apply IH].
Qed.

Lemma plus_not_lit_lang (c : ascii) (l : list ascii) :
  re_lang (Re.Plus (Re.NotLit c)) l ↔ l ≠ [] ∧ c ∉ l.
Proof.
  unfold Re.Plus. split.
  - intros (l1 & l2 & -> & H1 & H2%star_not_lit_lang)%lang_seq_inv.
    inversion H1; subst. split; [done|].
    apply not_elem_of_cons. by split.
  - intros [Hne Hc]. destruct l as [|a l]; [done|].
    apply not_elem_of_cons in Hc as [Ha Hc].
    apply (lang_seq _ _ [a] l); [by constructor | by apply star_not_lit_lang].
Qed.

Lemma lang_lit_inv (c : ascii) (l : list ascii) :
  re_lang (Re.Lit c) l → l = [c].
Proof. by inversion 1. Qed.

Lemma email_re_lang (l : list ascii) : re_lang EMAIL_RE l ↔ email_shape l.
Proof.
  unfold EMAIL_RE, email_shape. split.
  - intros (a & l1 & -> & [Ha Ha']%plus_not_lit_lang & H1)%lang_seq_inv.
    apply lang_seq_inv in H1 as (at' & l2 & -> & ->%lang_lit_inv & H2).
    apply lang_seq_inv in H2 as (b & l3 & -> & [Hb Hb']%plus_not_lit_lang & H3).
    apply lang_seq_inv in H3 as (dot & c & -> & ->%lang_lit_inv & H4).
    apply plus_not_lit_lang in H4 as [Hc Hc'].
    by exists a, b, c.
  - intros (a & b & c & -> & Ha & Hb & Hc & Ha' & Hb' & Hc').
    apply lang_seq; [by apply plus_not_lit_lang|].
    apply (lang_seq _ _ ["@"%char]); [constructor|].
    apply lang_seq; [by apply plus_not_lit_lang|].
    apply (lang_seq _ _ ["."%char]); [constructor|].
    by apply plus_not_lit_lang.
Qed.

(** A line feed after an address of the accepted shape gives an address
    of the accepted shape: the last part takes it. *)
Lemma email_shape_newline (l : list ascii) :
  email_shape l → email_shape (l ++ [Re.newline]).
Proof.
  intros (a & b & c & -> & Ha & Hb & Hc & Ha' & Hb' & Hc').
  exists a, b, (c ++ [Re.newline])%list. repeat split; try done.
  - rewrite <- !app_assoc. cbn. by rewrite <- !app_assoc.
  - by destruct c.
  - rewrite not_elem_of_app. split; [done|].
    apply not_elem_of_cons. split; [done | apply not_elem_of_nil].
Qed.

(** X5: the email check accepts exactly the empty string and the strings
    [<local>@<domain>.<rest>] whose three parts are non-empty and hold no
    [@]; nothing else about the address is checked. *)
Theorem validate_email_accepts (email : string) :
  validate_email email = true
  ↔ email = "" ∨ email_shape (list_ascii_of_string email).
Proof.
  unfold validate_email.
  destruct (truthy (PyStr email)) eqn:Ht; cbn [negb].
  - apply truthy_str_iff in Ht.
    unfold Re.match_anchored. rewrite orb_true_iff, matches_lang, email_re_lang.
    split; [|intros [?|?]; [done | by left]].
    intros [?|Hrev]; [by right|]. right.
    destruct (rev (list_ascii_of_string email)) as [|c l'] eqn:Hl; [done|].
    apply andb_true_iff in Hrev as [->%Ascii.eqb_eq Hm].
    apply matches_lang, email_re_lang, email_shape_newline in Hm.
    by rewrite <- (rev_involutive (list_ascii_of_string email)), Hl.
  - split; [|done]. intros _. left.
    destruct (decide (email = "")) as [|Hne]; [done|].
    apply truthy_str_iff in Hne. congruence.
Qed.

(** ** Dates *)

Local Open Scope Z_scope.

Lemma is_digit_val (c : ascii) : is_digit c = true → 0 ≤ digit_val c ≤ 9.
Proof.
  unfold is_digit, digit_val. cbv zeta.
  rewrite andb_true_iff, !N.leb_le. lia.
Qed.

Lemma parse_year_range (l : list ascii) (y : Z) :
  parse_year l = Some y → 0 ≤ y ≤ 9999.
Proof.
  unfold parse_year.
  destruct l as [|a [|b [|c [|d [|? ?]]]]]; try done.
  destruct (is_digit a) eqn:Ha; [|done].
  destruct (is_digit b) eqn:Hb; [|done].
  destruct (is_digit c) eqn:Hc; [|done].
  destruct (is_digit d) eqn:Hd; [|done].
  apply is_digit_val in Ha, Hb, Hc, Hd. cbn [andb]. intros [= <-]. lia.
Qed.

Lemma parse_month_range (l : list ascii) (m : Z) :
  parse_month l = Some m → 1 ≤ m ≤ 12.
Proof.
  unfold parse_month.
  destruct l as [|a [|b [|? ?]]]; try done.
  - destruct (is_digit a) eqn:Ha; [|done]. apply is_digit_val in Ha.
    cbn [andb]. destruct (Z.leb_spec 1 (digit_val a)); [|done].
    intros [= <-]. lia.
  - destruct (is_digit b) eqn:Hb;
      [apply is_digit_val in Hb | by rewrite !andb_false_r].
    rewrite !andb_true_r.
    destruct (Ascii.eqb a "1"); cbn [andb].
    + destruct (Z.leb_spec (digit_val b) 2); [intros [= <-]; lia|].
      destruct (Ascii.eqb a "0"); [|done]. cbn [andb].
      destruct (Z.leb_spec 1 (digit_val b)); [|done]. intros [= <-]. lia.
    + destruct (Ascii.eqb a "0"); [|done]. cbn [andb].
      destruct (Z.leb_spec 1 (digit_val b)); [|done]. intros [= <-]. lia.
Qed.

Lemma parse_day_positive (l : list ascii) (d : Z) :
  parse_day l = Some d → 1 ≤ d.
Proof.
  unfold parse_day.
  destruct l as [|a [|b [|? ?]]]; try done.
  - destruct (is_digit a) eqn:Ha; [|done]. apply is_digit_val in Ha.
    cbn [andb]. destruct (Z.leb_spec 1 (digit_val a)); [|done].
    intros [= <-]. lia.
  - destruct (is_digit b) eqn:Hb;
      [apply is_digit_val in Hb | by rewrite !andb_false_r].
    rewrite !andb_true_r.
    destruct (Ascii.eqb a "3" && (digit_val b <=? 1)); [intros [= <-]; lia|].
    destruct (is_digit a) eqn:Ha; cbn [andb].
    + apply is_digit_val in Ha.
      destruct (Z.leb_spec 1 (digit_val a)); cbn [andb].
      * destruct (Z.leb_spec (digit_val a) 2); [intros [= <-]; lia|].
        destruct (Ascii.eqb a "0" || Ascii.eqb a " "); [|done]. cbn [andb].
        destruct (Z.leb_spec 1 (digit_val b)); [|done]. intros [= <-]. lia.
      * destruct (Ascii.eqb a "0" || Ascii.eqb a " "); [|done]. cbn [andb].
        destruct (Z.leb_spec 1 (digit_val b)); [|done]. intros [= <-]. lia.
    + destruct (Ascii.eqb a "0" || Ascii.eqb a " "); [|done]. cbn [andb].
      destruct (Z.leb_spec 1 (digit_val b)); [|done]. intros [= <-]. lia.
Qed.

(** X6: what [strptime] accepts is a date of the calendar: a year from 1 to
    9999, a month from 1 to 12 and a day that the month of that year
    has. *)
Theorem strptime_ymd_sound (s : string) (y m d : Z) :
  strptime_ymd s = Some (y, m, d) →
  1 ≤ y ≤ 9999 ∧ 1 ≤ m ≤ 12 ∧ 1 ≤ d ≤ days_in_month y m.
Proof.
  unfold strptime_ymd.
  destruct (split_on "-" [] (list_ascii_of_string s))
    as [|ys [|ms [|ds [|? ?]]]]; try done.
  destruct (parse_year ys) as [y'|] eqn:Hy; [|done].
  destruct (parse_month ms) as [m'|] eqn:Hm; [|done].
  destruct (parse_day ds) as [d'|] eqn:Hd; [|done].
  cbn [mbind option_bind].
  destruct (Z.leb_spec 1 y'); [|done]. cbn [andb].
  destruct (Z.leb_spec d' (days_in_month y' m')); [|done].
  intros [= <- <- <-].
  apply parse_year_range in Hy. apply parse_month_range in Hm.
  apply parse_day_positive in Hd. lia.
Qed.

Lemma strptime_ymd_sound_witness :
  strptime_ymd "2024-02-29" = Some (2024, 2, 29)
  ∧ (1 ≤ 2024 ≤ 9999 ∧ 1 ≤ 2 ≤ 12 ∧ 1 ≤ 29 ≤ days_in_month 2024 2).
Proof.
  split; [reflexivity|]. apply (strptime_ymd_sound "2024-02-29"). reflexivity.
Defined.

Lemma digit_char_is_digit (k : Z) :
  0 ≤ k ≤ 9 → is_digit (digit_char k) = true ∧ digit_val (digit_char k) = k.
Proof.
  intros Hk. unfold is_digit, digit_val, digit_char. cbv zeta.
  rewrite N_ascii_embedding by lia.
  rewrite andb_true_iff, !N.leb_le. lia.
Qed.

Lemma parse_month_two_digits (m : Z) :
  1 ≤ m ≤ 12 → parse_month [digit_char (m / 10); digit_char (m mod 10)] = Some m.
Proof.
  intros Hm.
  assert (Hall : forallb (fun m => bool_decide
                   (parse_month [digit_char (m / 10); digit_char (m mod 10)]
                    = Some m)) (seqZ 1 12) = true) by (vm_compute; reflexivity).
  rewrite forallb_forall in Hall.
  eapply bool_decide_eq_true_1, Hall, list_elem_of_In, elem_of_seqZ. lia.
Qed.

Lemma parse_day_two_digits (d : Z) :
  1 ≤ d ≤ 31 → parse_day [digit_char (d / 10); digit_char (d mod 10)] = Some d.
Proof.
  intros Hd.
  assert (Hall : forallb (fun d => bool_decide
                   (parse_day [digit_char (d / 10); digit_char (d mod 10)]
                    = Some d)) (seqZ 1 31) = true) by (vm_compute; reflexivity).
  rewrite forallb_forall in Hall.
  eapply bool_decide_eq_true_1, Hall, list_elem_of_In, elem_of_seqZ. lia.
Qed.

Lemma parse_year_four_digits (y : Z) :
  0 ≤ y ≤ 9999 →
  parse_year [digit_char (y / 1000); digit_char (y / 100 mod 10);
              digit_char (y / 10 mod 10); digit_char (y mod 10)] = Some y.
Proof.
  intros Hy. unfold parse_year.
  destruct (digit_char_is_digit (y / 1000)) as [-> ->];
    [Z.div_mod_to_equations; lia|].
  destruct (digit_char_is_digit (y / 100 mod 10)) as [-> ->];
    [Z.div_mod_to_equations; lia|].
  destruct (digit_char_is_digit (y / 10 mod 10)) as [-> ->];
    [Z.div_mod_to_equations; lia|].
  destruct (digit_char_is_digit (y mod 10)) as [-> ->];
    [Z.div_mod_to_equations; lia|].
  cbn [andb]. f_equal. Z.div_mod_to_equations. lia.
Qed.

Lemma digit_char_not_dash (k : Z) :
  0 ≤ k ≤ 9 → Ascii.eqb (digit_char k) "-" = false.
Proof.
  intros Hk. apply Ascii.eqb_neq. intros Heq.
  destruct (digit_char_is_digit k Hk) as [Hd _].
  by rewrite Heq in Hd.
Qed.

Lemma days_in_month_le (y m : Z) : days_in_month y m ≤ 31.
Proof. unfold days_in_month. repeat case_match; lia. Qed.

Lemma strptime_ymd_iso_text (y m d : Z) :
  1 ≤ y ≤ 9999 → 1 ≤ m ≤ 12 → 1 ≤ d ≤ 31 →
  strptime_ymd (iso_text y m d)
  = if d <=? days_in_month y m then Some (y, m, d) else None.
Proof.
  intros Hy Hm Hd. unfold strptime_ymd, iso_text.
  rewrite list_ascii_of_string_of_list_ascii.
  cbn [split_on].
  rewrite !digit_char_not_dash by (Z.div_mod_to_equations; lia).
  cbn [Ascii.eqb Bool.eqb andb rev List.app].
  rewrite parse_year_four_digits by lia.
  rewrite parse_month_two_digits by lia.
  rewrite parse_day_two_digits by lia.
  cbn [mbind option_bind].
  destruct (Z.leb_spec 1 y); [|lia]. by cbn [andb].
Qed.

(** X7: a date written as YYYY-MM-DD, with a year from 0001 to 9999, a
    month from 01 to 12 and a day from 01 to 31, passes the date check
    exactly when that month of that year has the day, and it is then read
    as that date. *)
Theorem iso_text_accepted_iff_day_exists (y m d : Z) :
  1 ≤ y ≤ 9999 → 1 ≤ m ≤ 12 → 1 ≤ d ≤ 31 →
  (validate_date_iso (PyStr (iso_text y m d)) = true ↔ d ≤ days_in_month y m)
  ∧ (d ≤ days_in_month y m → strptime_ymd (iso_text y m d) = Some (y, m, d)).
Proof.
  intros Hy Hm Hd.
  pose proof (strptime_ymd_iso_text y m d Hy Hm Hd) as Hs.
  split.
  - unfold validate_date_iso. rewrite Hs.
    change (negb (truthy (PyStr (iso_text y m d)))) with false. cbv iota.
    destruct (Z.leb_spec d (days_in_month y m)) as [Hle|Hgt].
    + split; [done|]. intros _. by apply bool_decide_eq_true_2.
    + split; [|lia]. intros [? [=]]%bool_decide_eq_true_1.
  - intros Hle. rewrite Hs. by destruct (Z.leb_spec d (days_in_month y m)); [|lia].
Qed.

Lemma iso_text_accepted_iff_day_exists_witness :
  (validate_date_iso (PyStr (iso_text 2023 2 29)) = true
   ↔ 29 ≤ days_in_month 2023 2)
  ∧ (29 ≤ days_in_month 2023 2
     → strptime_ymd (iso_text 2023 2 29) = Some (2023, 2, 29)).
Proof.
  apply iso_text_accepted_iff_day_exists; lia.
Defined.

Local Open Scope string_scope.

(** ** The constraints of the schema *)

Section Schema.
Context `{FloatOps}.

Lemma NoDup_fmap_filter {A B : Type} (f : A → B) (P : A → Prop)
    `{∀ x, Decision (P x)} (l : list A) :
  NoDup (f <$> l) → NoDup (f <$> filter P l).
Proof.
  intros Hl. eapply sublist_NoDup; [exact Hl|].
  apply fmap_sublist, sublist_filter.
Qed.

Lemma NoDup_snoc_fresh (ids : list Z) (n : Z) :
  NoDup ids → (∀ x, x ∈ ids → (x < n)%Z) → NoDup (ids ++ [n]).
Proof.
  intros Hl Hlt. apply NoDup_app. split; [done|]. split.
  - intros x Hx ->%list_elem_of_singleton. specialize (Hlt _ Hx). lia.
  - apply NoDup_singleton.
Qed.

Lemma NoDup_insert_rowid (seq : Z) (ids : list Z) :
  NoDup ids → NoDup (ids ++ [next_rowid seq ids]).
Proof. intros Hl. apply NoDup_snoc_fresh; [done|]. apply next_rowid_fresh. Qed.

Lemma fmap_fmap_same {A B : Type} (f : A → B) (g : A → A) (l : list A) :
  (∀ x, f (g x) = f x) → f <$> (g <$> l) = f <$> l.
Proof.
  intros Hfg. rewrite <- list_fmap_compose. apply list_fmap_ext.
  intros i x _. apply Hfg.
Qed.

Lemma existsb_false_elem {A : Type} (f : A → bool) (l : list A) (x : A) :
  existsb f l = false → x ∈ l → f x = false.
Proof.
  intros Hex Hx. destruct (f x) eqn:Hfx; [|done].
  rewrite <- Hex. symmetry. apply existsb_exists.
  exists x. split; [by apply list_elem_of_In | done].
Qed.

Lemma existsb_true_elem {A : Type} (f : A → bool) (l : list A) :
  existsb f l = true → ∃ x, x ∈ l ∧ f x = true.
Proof.
  intros (x & Hx & Hfx)%existsb_exists. exists x.
  split; [by apply list_elem_of_In | done].
Qed.

Lemma omap_filter_sublist {A B : Type} (f : A → option B) (P : A → Prop)
    `{∀ x, Decision (P x)} (l : list A) :
  omap f (filter P l) `sublist_of` omap f l.
Proof.
  induction l as [|x l IH]; [done|]. rewrite filter_cons.
  destruct (decide (P x)); cbn; destruct (f x);
    auto using sublist_skip, sublist_cons.
Qed.

(** *** Partners *)

Lemma insert_partner_schema (name tax_id email phone address : option string)
    (d d' : database) (r : option Z) :
  schema_ok d →
  sql_insert_partner name tax_id email phone address d = inr (r, d') →
  schema_ok d'.
Proof.
  intros Hok. unfold sql_insert_partner.
  destruct name as [name|]; [|done]. intros [= _ <-].
  destruct Hok. split; cbn [partners products invoices invoice_items]; try done.
  - rewrite fmap_snoc. cbn [Partner.id]. by apply NoDup_insert_rowid.
  - intros i Hi. destruct (ok_invoice_partner0 i Hi) as (p & Hp & Heq).
    exists p. split; [|done]. apply elem_of_app. by left.
Qed.

Lemma update_partner_schema (name tax_id email phone address : option string)
    (pid : Z) (d d' : database) (r : option Z) :
  schema_ok d →
  sql_update_partner name tax_id email phone address pid d = inr (r, d') →
  schema_ok d'.
Proof.
  intros Hok. unfold sql_update_partner.
  destruct (bind_ints [pid]); [done|].
  destruct (negb _); [by intros [= _ <-]|].
  destruct name as [name|]; [|done]. intros [= _ <-].
  destruct Hok. split; cbn [partners products invoices invoice_items]; try done.
  - rewrite fmap_fmap_same; [done|]. intros p. by destruct (Partner.id p =? pid)%Z.
  - intros i Hi. destruct (ok_invoice_partner0 i Hi) as (p & Hp & Heq).
    eexists. split; [apply list_elem_of_fmap; by exists p|].
    rewrite Heq. by destruct (Partner.id p =? pid)%Z.
Qed.

(** A DELETE of a partner that goes through found no invoice of the
    partner. *)
Lemma delete_partner_unreferenced (pid : Z) (d d' : database) (r : option Z) :
  sql_delete_partner pid d = inr (r, d') →
  d' = d
  ∨ (d' = mkdb (filter (fun p => Partner.id p ≠ pid) (partners d))
               (products d) (invoices d) (invoice_items d)
               (seq_partners d) (seq_products d) (seq_invoices d)
               (seq_invoice_items d)
     ∧ ∀ i, i ∈ invoices d → Invoice.partner_id i ≠ Some pid).
Proof.
  unfold sql_delete_partner.
  destruct (bind_ints [pid]); [done|].
  destruct (negb _); [intros [= _ <-]; by left|].
  destruct (existsb _ _) eqn:Hex; [done|]. intros [= _ <-]. right.
  assert (Hnone : ∀ i, i ∈ invoices d → Invoice.partner_id i ≠ Some pid).
  { intros i Hi Href.
    assert (Hin : Invoice.set_partner_id None i
                  ∈ Invoice.set_partner_id None
                      <$> filter (fun i => bool_decide (Invoice.partner_id i = Some pid))
                            (invoices d)).
    { apply list_elem_of_fmap. exists i. split; [done|].
      apply list_elem_of_filter. split; [|done].
      by apply Is_true_true, bool_decide_eq_true_2. }
    pose proof (existsb_false_elem _ _ _ Hex Hin) as Hf.
    by cbn in Hf. }
  split; [|done]. f_equal.
  rewrite <- (list_fmap_id (invoices d)) at 2.
  apply list_fmap_ext. intros k i Hk.
  rewrite bool_decide_eq_false_2; [done|].
  apply Hnone. by eapply list_elem_of_lookup_2.
Qed.

Lemma delete_partner_schema (pid : Z) (d d' : database) (r : option Z) :
  schema_ok d → sql_delete_partner pid d = inr (r, d') → schema_ok d'.
Proof.
  intros Hok [->|[-> Hnone]]%delete_partner_unreferenced; [done|].
  destruct Hok. split; cbn [partners products invoices invoice_items]; try done.
  - by apply NoDup_fmap_filter.
  - intros i Hi. destruct (ok_invoice_partner0 i Hi) as (p & Hp & Heq).
    exists p. split; [|done]. apply list_elem_of_filter. split; [|done].
    intros Hpid. apply (Hnone i Hi). by rewrite Heq, Hpid.
Qed.

(** *** Products *)

Lemma insert_product_schema (sku name description : option string)
    (price : real) (stock : Z) (d d' : database) (r : option Z) :
  schema_ok d →
  sql_insert_product sku name description price stock d = inr (r, d') →
  schema_ok d'.
Proof.
  intros Hok. unfold sql_insert_product.
  destruct (bind_ints [stock]); [done|].
  destruct name as [name|]; [|done].
  destruct (float_is_nan price) eqn:Hnan; [done|].
  destruct (float_nonneg price) eqn:Hprice; [|done]. cbn [negb].
  destruct (Z.leb_spec 0 stock) as [Hstock|]; [|done]. cbn [negb].
  destruct (existsb _ _) eqn:Hex; [done|]. intros [= _ <-].
  destruct Hok. split; cbn [partners products invoices invoice_items]; try done.
  - rewrite fmap_snoc. cbn [Product.id]. by apply NoDup_insert_rowid.
  - intros p [Hp| ->%list_elem_of_singleton]%elem_of_app; [by apply ok_price0|done].
  - intros p [Hp| ->%list_elem_of_singleton]%elem_of_app;
      [by apply ok_price_number0|done].
  - intros p [Hp| ->%list_elem_of_singleton]%elem_of_app; [by apply ok_stock0|done].
  - rewrite omap_app. cbn. destruct sku as [s|]; cbn;
      [|by rewrite app_nil_r].
    apply NoDup_app. split; [done|]. split; [|apply NoDup_singleton].
    intros x Hx ->%list_elem_of_singleton.
    apply list_elem_of_omap in Hx as (p & Hp & Hsku).
    pose proof (existsb_false_elem _ _ _ Hex Hp) as Hf. cbn in Hf.
    apply bool_decide_eq_false_1 in Hf. by apply Hf.
  - intros x Hx. destruct (ok_item_product0 x Hx) as (p & Hp & Heq).
    exists p. split; [|done]. apply elem_of_app. by left.
Qed.

Lemma fmap_update_absent {A : Type} (key : A → Z) (g : A → A) (pid : Z)
    (l : list A) :
  pid ∉ key <$> l →
  (fun p => if (key p =? pid)%Z then g p else p) <$> l = l.
Proof.
  intros Hnot. rewrite <- (list_fmap_id l) at 2.
  apply list_fmap_ext. intros i p Hp.
  destruct (Z.eqb_spec (key p) pid) as [Heq|]; [|done].
  exfalso. apply Hnot. apply list_elem_of_fmap. exists p.
  split; [done | by eapply list_elem_of_lookup_2].
Qed.

Lemma update_sku_unique (sku description : option string) (name' : string)
    (price : real) (stock pid : Z) (l : list Product.t) :
  let upd := fun p : Product.t =>
    if (Product.id p =? pid)%Z
    then Product.mk _ (Product.id p) sku name' description price stock
    else p in
  NoDup (Product.id <$> l) → NoDup (omap Product.sku l) →
  (∀ q, q ∈ l → Product.id q ≠ pid → ¬ (is_Some sku ∧ Product.sku q = sku)) →
  NoDup (omap Product.sku (upd <$> l)).
Proof.
  intros upd. induction l as [|p l IH]; intros Hids Hskus Hother; [done|].
  rewrite fmap_cons in Hids. apply NoDup_cons in Hids as [Hp Hids].
  rewrite fmap_cons. unfold upd at 1.
  destruct (Z.eqb_spec (Product.id p) pid) as [Heq|Hne].
  - unfold upd. rewrite (fmap_update_absent Product.id) by by rewrite <- Heq.
    assert (Htail : NoDup (omap Product.sku l)).
    { cbn in Hskus. destruct (Product.sku p); [by apply NoDup_cons in Hskus as [_ ?]|done]. }
    cbn. destruct sku as [s|]; [|done]. cbn.
    apply NoDup_cons. split; [|done].
    intros (q & Hq & Hsku)%list_elem_of_omap.
    apply (Hother q); [by apply list_elem_of_further | | by split].
    intros Hid. apply Hp. rewrite Heq, <- Hid.
    apply list_elem_of_fmap. by exists q.
  - assert (Htail : NoDup (omap Product.sku (upd <$> l))).
    { apply IH; [done| |].
      - cbn in Hskus. destruct (Product.sku p);
          [by apply NoDup_cons in Hskus as [_ ?]|done].
      - intros q Hq. apply Hother. by apply list_elem_of_further. }
    cbn. destruct (Product.sku p) as [s|] eqn:Hs; [|done]. cbn.
    apply NoDup_cons. split; [|done].
    intros (q' & Hq' & Hsku)%list_elem_of_omap.
    apply list_elem_of_fmap in Hq' as (q & -> & Hq).
    unfold upd in Hsku. destruct (Z.eqb_spec (Product.id q) pid) as [Hq1|Hq1].
    + cbn in Hsku. apply (Hother p); [apply list_elem_of_here | done |].
      split; [by rewrite Hsku | by rewrite Hs, Hsku].
    + cbn in Hskus. rewrite Hs in Hskus. apply NoDup_cons in Hskus as [Hnot _].
      apply Hnot. apply list_elem_of_omap. by exists q.
Qed.

Lemma update_product_schema (sku name description : option string)
    (price : real) (stock pid : Z) (d d' : database) (r : option Z) :
  schema_ok d →
  sql_update_product sku name description price stock pid d = inr (r, d') →
  schema_ok d'.
Proof.
  intros Hok. unfold sql_update_product.
  destruct (bind_ints [stock; pid]); [done|].
  destruct (negb (existsb _ _)); [by intros [= _ <-]|].
  destruct name as [name|]; [|done].
  destruct (float_is_nan price) eqn:Hnan; [done|].
  destruct (float_nonneg price) eqn:Hprice; [|done]. cbn [negb].
  destruct (Z.leb_spec 0 stock) as [Hstock|]; [|done]. cbn [negb].
  destruct (existsb _ _) eqn:Hex; [done|]. intros [= _ <-].
  destruct Hok. split; cbn [partners products invoices invoice_items]; try done.
  - rewrite fmap_fmap_same; [done|]. intros p. by destruct (Product.id p =? pid)%Z.
  - intros p' (p & -> & Hp)%list_elem_of_fmap.
    destruct (Product.id p =? pid)%Z; [done | by apply ok_price0].
  - intros p' (p & -> & Hp)%list_elem_of_fmap.
    destruct (Product.id p =? pid)%Z; [done | by apply ok_price_number0].
  - intros p' (p & -> & Hp)%list_elem_of_fmap.
    destruct (Product.id p =? pid)%Z; [done | by apply ok_stock0].
  - apply update_sku_unique; [done|done|].
    intros q Hq Hid Hsku.
    pose proof (existsb_false_elem _ _ _ Hex Hq) as Hf. cbn in Hf.
    apply andb_false_iff in Hf as [Hf|Hf].
    + apply negb_false_iff, Z.eqb_eq in Hf. done.
    + by apply bool_decide_eq_false_1 in Hf.
  - intros x Hx. destruct (ok_item_product0 x Hx) as (p & Hp & Heq).
    eexists. split; [apply list_elem_of_fmap; by exists p|].
    rewrite <- Heq. by destruct (Product.id p =? pid)%Z.
Qed.

Lemma delete_product_schema (pid : Z) (d d' : database) (r : option Z) :
  schema_ok d → sql_delete_product pid d = inr (r, d') → schema_ok d'.
Proof.
  intros Hok. unfold sql_delete_product.
  destruct (bind_ints [pid]); [done|].
  destruct (negb (existsb _ _)); [by intros [= _ <-]|].
  destruct (existsb _ _) eqn:Hex; [done|]. intros [= _ <-].
  destruct Hok. split; cbn [partners products invoices invoice_items]; try done.
  - by apply NoDup_fmap_filter.
  - intros p [_ Hp]%list_elem_of_filter. by apply ok_price0.
  - intros p [_ Hp]%list_elem_of_filter. by apply ok_price_number0.
  - intros p [_ Hp]%list_elem_of_filter. by apply ok_stock0.
  - eapply sublist_NoDup; [exact ok_sku0|]. apply omap_filter_sublist.
  - intros x Hx. destruct (ok_item_product0 x Hx) as (p & Hp & Heq).
    exists p. split; [|done]. apply list_elem_of_filter. split; [|done].
    pose proof (existsb_false_elem _ _ _ Hex Hx) as Hf. cbn in Hf.
    apply Z.eqb_neq in Hf. by rewrite Heq.
Qed.

(** *** Invoices *)

Lemma insert_invoice_schema (partner_id : Z) (invoice_date : string)
    (due_date : option string) (status : string) (d d' : database)
    (r : option Z) :
  schema_ok d →
  sql_insert_invoice partner_id invoice_date due_date status d = inr (r, d') →
  schema_ok d'.
Proof.
  intros Hok. unfold sql_insert_invoice.
  destruct (bind_ints [partner_id]); [done|].
  destruct (existsb _ _) eqn:Hex; [|done]. cbn [negb]. intros [= _ <-].
  destruct Hok. split; cbn [partners products invoices invoice_items]; try done.
  - rewrite fmap_snoc. cbn [Invoice.id]. by apply NoDup_insert_rowid.
  - intros x Hx. destruct (ok_item_invoice0 x Hx) as (i & Hi & Heq).
    exists i. split; [|done]. apply elem_of_app. by left.
  - intros i [Hi| ->%list_elem_of_singleton]%elem_of_app;
      [by apply ok_invoice_partner0|].
    apply existsb_true_elem in Hex as (p & Hp & <-%Z.eqb_eq).
    by exists p.
Qed.

Lemma update_invoice_schema (partner_id : Z) (invoice_date : string)
    (due_date : option string) (status : string) (inv_id : Z)
    (d d' : database) (r : option Z) :
  schema_ok d →
  sql_update_invoice partner_id invoice_date due_date status inv_id d
  = inr (r, d') →
  schema_ok d'.
Proof.
  intros Hok. unfold sql_update_invoice.
  destruct (bind_ints [partner_id; inv_id]); [done|].
  destruct (negb (existsb _ (invoices d))); [by intros [= _ <-]|].
  destruct (existsb _ _) eqn:Hex; [|done]. cbn [negb]. intros [= _ <-].
  destruct Hok. split; cbn [partners products invoices invoice_items]; try done.
  - rewrite fmap_fmap_same; [done|]. intros i. by destruct (Invoice.id i =? inv_id)%Z.
  - intros x Hx. destruct (ok_item_invoice0 x Hx) as (i & Hi & Heq).
    eexists. split; [apply list_elem_of_fmap; by exists i|].
    rewrite <- Heq. by destruct (Invoice.id i =? inv_id)%Z.
  - intros i' (i & -> & Hi)%list_elem_of_fmap.
    destruct (Invoice.id i =? inv_id)%Z; [|by apply ok_invoice_partner0].
    apply existsb_true_elem in Hex as (p & Hp & <-%Z.eqb_eq).
    by exists p.
Qed.

Lemma update_invoice_total_schema (tot : real) (inv_id : Z)
    (d d' : database) (r : option Z) :
  schema_ok d → sql_update_invoice_total tot inv_id d = inr (r, d') →
  schema_ok d'.
Proof.
  intros Hok. unfold sql_update_invoice_total.
  destruct (bind_ints [inv_id]); [done|]. intros [= _ <-].
  destruct Hok. split; cbn [partners products invoices invoice_items]; try done.
  - rewrite fmap_fmap_same; [done|]. intros i. by destruct (Invoice.id i =? inv_id)%Z.
  - intros x Hx. destruct (ok_item_invoice0 x Hx) as (i & Hi & Heq).
    eexists. split; [apply list_elem_of_fmap; by exists i|].
    rewrite <- Heq. by destruct (Invoice.id i =? inv_id)%Z.
  - intros i' (i & -> & Hi)%list_elem_of_fmap.
    destruct (ok_invoice_partner0 i Hi) as (p & Hp & Heq).
    exists p. split; [done|]. by destruct (Invoice.id i =? inv_id)%Z.
Qed.

Lemma delete_invoice_schema (inv_id : Z) (d d' : database) (r : option Z) :
  schema_ok d → sql_delete_invoice inv_id d = inr (r, d') → schema_ok d'.
Proof.
  intros Hok. unfold sql_delete_invoice.
  destruct (bind_ints [inv_id]); [done|].
  destruct (negb (existsb _ _)); [by intros [= _ <-]|]. intros [= _ <-].
  destruct Hok. split; cbn [partners products invoices invoice_items]; try done.
  - by apply NoDup_fmap_filter.
  - by apply NoDup_fmap_filter.
  - intros x [_ Hx]%list_elem_of_filter. by apply ok_quantity0.
  - intros x [_ Hx]%list_elem_of_filter. by apply ok_item_numbers0.
  - intros x [Hne Hx]%list_elem_of_filter.
    destruct (ok_item_invoice0 x Hx) as (i & Hi & Heq).
    exists i. split; [|done]. apply list_elem_of_filter. split; [|done].
    by rewrite Heq.
  - intros x [_ Hx]%list_elem_of_filter. by apply ok_item_product0.
  - intros i [_ Hi]%list_elem_of_filter. by apply ok_invoice_partner0.
Qed.

(** *** Items *)

Lemma insert_invoice_item_schema (invoice_id product_id quantity : Z)
    (unit_price line_total : real) (d d' : database) (r : option Z) :
  schema_ok d →
  sql_insert_invoice_item invoice_id product_id quantity unit_price line_total d
  = inr (r, d') →
  schema_ok d'.
Proof.
  intros Hok. unfold sql_insert_invoice_item.
  destruct (bind_ints _); [done|].
  destruct (float_is_nan unit_price) eqn:Hu; [done|].
  destruct (float_is_nan line_total) eqn:Hlt; [done|].
  destruct (Z.ltb_spec 0 quantity) as [Hq|]; [|done]. cbn [negb].
  destruct (existsb _ (invoices d)) eqn:Hinv; [|done].
  destruct (existsb _ (products d)) eqn:Hprod; [|done].
  cbn [andb negb]. intros [= _ <-].
  destruct Hok. split; cbn [partners products invoices invoice_items]; try done.
  - rewrite fmap_snoc. cbn [InvoiceItem.id]. by apply NoDup_insert_rowid.
  - intros x [Hx| ->%list_elem_of_singleton]%elem_of_app;
      [by apply ok_quantity0 | done].
  - intros x [Hx| ->%list_elem_of_singleton]%elem_of_app;
      [by apply ok_item_numbers0 | done].
  - intros x [Hx| ->%list_elem_of_singleton]%elem_of_app;
      [by apply ok_item_invoice0|].
    apply existsb_true_elem in Hinv as (i & Hi & Heq%Z.eqb_eq). by exists i.
  - intros x [Hx| ->%list_elem_of_singleton]%elem_of_app;
      [by apply ok_item_product0|].
    apply existsb_true_elem in Hprod as (p & Hp & Heq%Z.eqb_eq). by exists p.
Qed.

Lemma delete_invoice_item_schema (item_id : Z) (d d' : database)
    (r : option Z) :
  schema_ok d → sql_delete_invoice_item item_id d = inr (r, d') → schema_ok d'.
Proof.
  intros Hok. unfold sql_delete_invoice_item.
  destruct (bind_ints _); [done|]. intros [= _ <-].
  destruct Hok. split; cbn [partners products invoices invoice_items]; try done.
  - by apply NoDup_fmap_filter.
  - intros x [_ Hx]%list_elem_of_filter. by apply ok_quantity0.
  - intros x [_ Hx]%list_elem_of_filter. by apply ok_item_numbers0.
  - intros x [_ Hx]%list_elem_of_filter. by apply ok_item_invoice0.
  - intros x [_ Hx]%list_elem_of_filter. by apply ok_item_product0.
Qed.

End Schema.

(** ** What every callback keeps *)

Section Holds.
Context `{FloatOps}.
Variable P : app → Prop.

(** [P] does not look at the dialogs shown, and a fault that was
    consumed does not break it. *)
Hypothesis P_dialogs : ∀ st dl,
  P st → P (mkapp (db st) (items_tv st) dl (faults st)).
Hypothesis P_faults : ∀ st,
  P st → P (mkapp (db st) (items_tv st) (dialogs st) (tail (faults st))).

Lemma holds_ret {A : Type} (a : A) : holds P (mret a).
Proof. by intros st. Qed.

Lemma holds_raise {A : Type} (e : exn) : holds P (raise (A := A) e).
Proof. by intros st. Qed.

Lemma holds_messagebox (d : dialog) : holds P (messagebox d).
Proof. intros st Hst. by apply P_dialogs. Qed.

Lemma holds_get_items_tv : holds P get_items_tv.
Proof. by intros st. Qed.

Lemma holds_bind {A B : Type} (m : M A) (f : A → M B) :
  holds P m → (∀ a, holds P (f a)) → holds P (m ≫= f).
Proof.
  intros Hm Hf st Hst. rewrite bind_run. specialize (Hm st Hst).
  destruct (m st) as [[a|e] st1]; cbn [snd] in *; [by apply Hf | done].
Qed.

Lemma holds_try_except {A : Type} (body : M A) (handler : exn → M A) :
  holds P body → (∀ e, holds P (handler e)) → holds P (try_except body handler).
Proof.
  intros Hm Hh st Hst. rewrite try_except_run. specialize (Hm st Hst).
  destruct (body st) as [[a|e] st1]; cbn [snd] in *; [done | by apply Hh].
Qed.

Lemma holds_get_conn {A : Type} (body : database → exn + (A * database)) :
  (∀ st a d', P st → body (db st) = inr (a, d') →
     P (mkapp d' (items_tv st) (dialogs st) (faults st))) →
  holds P (get_conn body).
Proof.
  intros Hbody st Hst. unfold get_conn.
  pose proof (P_faults st Hst) as Htail.
  destruct (faults st) as [|[] fs] eqn:Hfs; [| exact Htail |];
    (destruct (body (db st)) as [e|[a d']] eqn:Hb; cbn [snd];
     [exact Htail|];
     pose proof (P_faults _ (Hbody st a d' Hst Hb)) as Hd;
     cbn [db items_tv dialogs faults] in Hd; by rewrite Hfs in Hd).
Qed.

Lemma holds_fetchall {R : Type} (q : database → sql_rows R) :
  holds P (fetchall q).
Proof.
  apply holds_get_conn. intros st a d' Hst Hq.
  destruct (q (db st)); [done|]. injection Hq as _ <-. by destruct st.
Qed.

Lemma holds_fetchone {R : Type} (q : database → sql_rows R) :
  holds P (fetchone q).
Proof.
  apply holds_get_conn. intros st a d' Hst Hq.
  destruct (q (db st)); [done|]. injection Hq as _ <-. by destruct st.
Qed.

Lemma holds_execute (s : database → sql_result) :
  commits P s → holds P (execute s).
Proof. intros Hs. apply holds_get_conn. intros st a d'. apply Hs. Qed.

Lemma holds_refresh_invoices : holds P refresh_invoices.
Proof.
  apply holds_bind; [apply holds_fetchall|]. intros _. apply holds_ret.
Qed.

Lemma holds_refresh_partners : holds P refresh_partners.
Proof.
  apply holds_bind; [apply holds_fetchall|]. intros _. apply holds_ret.
Qed.

Lemma holds_refresh_products : holds P refresh_products.
Proof.
  apply holds_bind; [apply holds_fetchall|]. intros _. apply holds_ret.
Qed.

(** *** The partner and product windows, and the imports *)

Hypothesis insert_partner_commits : ∀ n t e p a,
  commits P (sql_insert_partner n t e p a).
Hypothesis update_partner_commits : ∀ n t e p a pid,
  commits P (sql_update_partner n t e p a pid).
Hypothesis delete_partner_commits : ∀ pid, commits P (sql_delete_partner pid).
Hypothesis insert_product_commits : ∀ s n d p k,
  commits P (sql_insert_product s n d p k).
Hypothesis update_product_commits : ∀ s n d p k pid,
  commits P (sql_update_product s n d p k pid).
Hypothesis delete_product_commits : ∀ pid, commits P (sql_delete_product pid).

Lemma holds_add_partner (n t e p a : string) : holds P (add_partner n t e p a).
Proof.
  unfold add_partner. destruct (negb _); [apply holds_messagebox|].
  apply holds_try_except; [|intros ?; apply holds_messagebox].
  apply holds_bind; [by apply holds_execute|]. intros _.
  apply holds_bind; [apply holds_refresh_partners|]. intros _.
  apply holds_messagebox.
Qed.

Lemma holds_save_partner_update (pid : Z) (n t e p a : string) :
  holds P (save_partner_update pid n t e p a).
Proof.
  unfold save_partner_update. destruct (negb _); [apply holds_messagebox|].
  apply holds_try_except; [|intros ?; apply holds_messagebox].
  apply holds_bind; [by apply holds_execute|]. intros _.
  apply holds_bind; [apply holds_refresh_partners|]. intros _.
  apply holds_messagebox.
Qed.

Lemma holds_delete_partner (sel : option Z) (confirm : bool) :
  holds P (delete_partner sel confirm).
Proof.
  unfold delete_partner. destruct sel as [pid|]; [|apply holds_messagebox].
  destruct confirm; [|apply holds_ret].
  apply holds_bind; [by apply holds_execute|]. intros _.
  apply holds_bind; [apply holds_fetchall|]. intros _. apply holds_ret.
Qed.

Lemma holds_with_product_params (data : gmap string pyval)
    (stmt : option string → option string → option string → real → Z →
            database → sql_result) :
  (∀ s n d p k, commits P (stmt s n d p k)) →
  holds P (with_product_params data stmt).
Proof.
  intros Hs. unfold with_product_params.
  destruct (float_of_py _); [apply holds_raise|].
  destruct (int_of_py _); [apply holds_raise|].
  by apply holds_execute.
Qed.

Lemma holds_add_product (s n d p k : string) : holds P (add_product s n d p k).
Proof.
  unfold add_product. destruct (negb _); [apply holds_messagebox|].
  apply holds_try_except; [|intros ?; apply holds_messagebox].
  apply holds_bind; [by apply holds_with_product_params|]. intros _.
  apply holds_bind; [apply holds_refresh_products|]. intros _.
  apply holds_messagebox.
Qed.

Lemma holds_save_product_update (pid : Z) (s n d p k : string) :
  holds P (save_product_update pid s n d p k).
Proof.
  unfold save_product_update. destruct (negb _); [apply holds_messagebox|].
  apply holds_try_except; [|intros ?; apply holds_messagebox].
  apply holds_bind.
  { apply holds_with_product_params. intros ? ? ? ? ?.
    apply update_product_commits. }
  intros _.
  apply holds_bind; [apply holds_refresh_products|]. intros _.
  apply holds_messagebox.
Qed.

Lemma holds_delete_product (sel : option Z) (confirm : bool) :
  holds P (delete_product sel confirm).
Proof.
  unfold delete_product. destruct sel as [pid|]; [|apply holds_messagebox].
  destruct confirm; [|apply holds_ret].
  apply holds_bind; [by apply holds_execute|]. intros _.
  apply holds_refresh_products.
Qed.

Lemma holds_import_report (title : string) (errors : list string) (added : Z) :
  holds P (import_report title errors added).
Proof.
  unfold import_report. apply holds_bind; [apply holds_messagebox|].
  intros _. destruct (negb _); [apply holds_messagebox | apply holds_ret].
Qed.

Lemma holds_import_partner_rows (cols : list string) (rows : list (list string)) :
  ∀ i errors added, holds P (import_partner_rows cols i rows errors added).
Proof.
  induction rows as [|row rows IH]; intros i errors added;
    cbn [import_partner_rows]; [apply holds_ret|].
  apply holds_bind; [|intros [errors' added']; apply IH].
  unfold import_partner_row. destruct (negb _); [apply holds_ret|].
  apply holds_try_except; [|intros ?; apply holds_ret].
  apply holds_bind; [by apply holds_execute|]. intros _. apply holds_ret.
Qed.

Lemma holds_import_partners_csv (file : option dataframe) :
  holds P (import_partners_csv file).
Proof.
  unfold import_partners_csv. destruct file as [df|]; [|apply holds_ret].
  destruct (negb _); [apply holds_messagebox|].
  apply holds_bind; [apply holds_import_partner_rows|].
  intros [errors added]. apply holds_import_report.
Qed.

Lemma holds_import_product_rows (cols : list string) (rows : list (list string)) :
  ∀ i errors added, holds P (import_product_rows cols i rows errors added).
Proof.
  induction rows as [|row rows IH]; intros i errors added;
    cbn [import_product_rows]; [apply holds_ret|].
  apply holds_bind; [|intros [errors' added']; apply IH].
  unfold import_product_row. destruct (negb _); [apply holds_ret|].
  apply holds_try_except; [|intros ?; apply holds_ret].
  destruct (float_of_py _); [apply holds_raise|].
  destruct (int_of_py _); [apply holds_raise|].
  apply holds_bind; [by apply holds_execute|]. intros _. apply holds_ret.
Qed.

Lemma holds_import_products_csv (file : option dataframe) :
  holds P (import_products_csv file).
Proof.
  unfold import_products_csv. destruct file as [df|]; [|apply holds_ret].
  destruct (negb _); [apply holds_messagebox|].
  apply holds_bind; [apply holds_import_product_rows|].
  intros [errors added]. apply holds_import_report.
Qed.

(** *** The invoice window *)

Hypothesis insert_invoice_commits : ∀ p d u s,
  commits P (sql_insert_invoice p d u s).
Hypothesis update_invoice_commits : ∀ p d u s inv_id,
  commits P (sql_update_invoice p d u s inv_id).
Hypothesis delete_invoice_commits : ∀ inv_id, commits P (sql_delete_invoice inv_id).

(** The item list may be emptied, and may be loaded with the items of an
    invoice. *)
Hypothesis P_items_nil : ∀ st,
  P st → P (mkapp (db st) [] (dialogs st) (faults st)).
Hypothesis P_items_of : ∀ st inv_id,
  P st → sqlite_int inv_id = true →
  P (mkapp (db st) (items_of inv_id (db st)) (dialogs st) (faults st)).

Lemma holds_show_items (inv_id : Z) : holds P (show_items_for_invoice inv_id).
Proof.
  intros st Hst. unfold show_items_for_invoice.
  rewrite bind_run. cbn [set_items_tv].
  apply P_items_nil in Hst.
  set (st0 := mkapp (db st) [] (dialogs st) (faults st)) in *.
  rewrite bind_run.
  pose proof (holds_fetchall (sql_select_items inv_id) st0 Hst) as Hf.
  destruct (fetchall (sql_select_items inv_id) st0) as [[rows|e] st1] eqn:Hrun;
    cbn [snd] in *; [|done].
  unfold fetchall in Hrun.
  apply get_conn_inv in Hrun as (Htv & Hdl & Hq).
  unfold sql_select_items, select in Hq.
  destruct (bind_ints [inv_id]) eqn:Hb; [done|].
  injection Hq as <- Hdb.
  cbn [set_items_tv snd]. rewrite Hdb.
  apply P_items_of; [done|].
  unfold bind_ints in Hb. cbn [forallb] in Hb.
  destruct (sqlite_int inv_id); [done | discriminate].
Qed.

Lemma holds_add_invoice (p d u s : string) : holds P (add_invoice p d u s).
Proof.
  unfold add_invoice. destruct (int_of_str _); [|apply holds_messagebox].
  destruct (negb _); [apply holds_messagebox|].
  apply holds_try_except; [|intros ?; apply holds_messagebox].
  apply holds_bind; [by apply holds_execute|]. intros _.
  apply holds_bind; [apply holds_refresh_invoices|]. intros _.
  apply holds_messagebox.
Qed.

Lemma holds_update_invoice (sel : option Z) (p d u s : string) :
  holds P (update_invoice sel p d u s).
Proof.
  unfold update_invoice. destruct sel as [inv_id|]; [|apply holds_messagebox].
  destruct (int_of_str _); [|apply holds_messagebox].
  destruct (negb _); [apply holds_messagebox|].
  apply holds_try_except; [|intros ?; apply holds_messagebox].
  apply holds_bind; [by apply holds_execute|]. intros _.
  apply holds_bind; [apply holds_refresh_invoices|]. intros _.
  apply holds_messagebox.
Qed.

Lemma holds_delete_invoice (sel : option Z) (confirm : bool) :
  holds P (delete_invoice sel confirm).
Proof.
  unfold delete_invoice. destruct sel as [inv_id|]; [|apply holds_messagebox].
  destruct confirm; [|apply holds_ret].
  apply holds_bind; [by apply holds_execute|]. intros _.
  apply holds_bind; [apply holds_refresh_invoices|]. intros _.
  intros st Hst. by apply P_items_nil.
Qed.

Lemma holds_load_invoice_for_edit (sel : option Invoice.t) :
  holds P (load_invoice_for_edit sel).
Proof.
  unfold load_invoice_for_edit. destruct sel as [vals|]; [|apply holds_messagebox].
  apply holds_bind; [apply holds_fetchone|].
  intros [row|]; [apply holds_show_items | apply holds_raise].
Qed.

(** *** The items *)

Section Items.

Hypothesis insert_item_commits : ∀ i p q u lt,
  commits P (sql_insert_invoice_item i p q u lt).
Hypothesis update_total_commits : ∀ tot inv_id,
  commits P (sql_update_invoice_total tot inv_id).
Hypothesis delete_item_commits : ∀ item_id,
  commits P (sql_delete_invoice_item item_id).

Lemma holds_recompute_total (inv_id : Z) : holds P (recompute_total inv_id).
Proof.
  unfold recompute_total. apply holds_bind; [apply holds_fetchone|].
  intros [col|]; [|apply holds_raise].
  apply holds_bind; [by apply holds_execute|]. intros _. apply holds_ret.
Qed.

Lemma holds_add_item_write (inv_id pid qty : Z) (u : real) :
  holds P (add_item_write inv_id pid qty u).
Proof.
  unfold add_item_write. destruct (float_of_int qty); [|apply holds_raise].
  apply holds_try_except; [|intros ?; apply holds_messagebox].
  apply holds_bind; [by apply holds_execute|]. intros _.
  apply holds_bind; [apply holds_recompute_total|]. intros _.
  apply holds_bind; [apply holds_show_items|]. intros _.
  apply holds_bind; [apply holds_refresh_invoices|]. intros _.
  apply holds_messagebox.
Qed.

Lemma holds_add_item_to_invoice (product_cb qty_e unit_e : string)
    (sel : option Z) :
  holds P (add_item_to_invoice product_cb qty_e unit_e sel).
Proof.
  unfold add_item_to_invoice.
  destruct (int_of_str (split_head _ _)); [|apply holds_messagebox].
  destruct (int_of_str _); [|apply holds_messagebox].
  destruct sel as [inv_id|]; [|apply holds_messagebox].
  destruct (negb (bool_decide _)); [apply holds_messagebox|].
  destruct (if negb _ then _ else _); [apply holds_add_item_write|].
  apply holds_bind; [apply holds_fetchone|].
  intros [price|]; [apply holds_add_item_write | apply holds_messagebox].
Qed.

Lemma holds_delete_item (sel : option nat) (confirm : bool) :
  holds P (delete_item sel confirm).
Proof.
  unfold delete_item. apply holds_bind; [apply holds_get_items_tv|].
  intros rows. destruct (sel ≫= _) as [values|]; [|apply holds_messagebox].
  destruct confirm; [|apply holds_ret].
  apply holds_bind; [by apply holds_execute|]. intros _.
  apply holds_bind; [apply holds_recompute_total|]. intros _.
  apply holds_bind; [apply holds_show_items|]. intros _.
  apply holds_refresh_invoices.
Qed.

Lemma holds_run_op (op : item_op) : holds P (run_op op).
Proof.
  destruct op; [apply holds_add_item_to_invoice | apply holds_delete_item].
Qed.

End Items.

End Holds.

(** ** The schema, whatever the storage does *)

Section SchemaKept.
Context `{FloatOps}.

Lemma init_db_schema : schema_ok init_db.
Proof.
  split; cbn; try apply NoDup_nil_2; try by intros ? ?%elem_of_nil.
Qed.

Lemma schema_commits (s : database → sql_result) :
  (∀ d r d', schema_ok d → s d = inr (r, d') → schema_ok d') →
  commits (fun st => schema_ok (db st)) s.
Proof. intros Hs st r d' Hst Hrun. cbn [db]. by eapply Hs. Qed.

Local Ltac schema_side :=
  first
    [ by intros
    | intros; apply schema_commits; intros ? ? ? ? ?;
      first [ by eapply insert_partner_schema
            | by eapply update_partner_schema
            | by eapply delete_partner_schema
            | by eapply insert_product_schema
            | by eapply update_product_schema
            | by eapply delete_product_schema
            | by eapply insert_invoice_schema
            | by eapply update_invoice_schema
            | by eapply delete_invoice_schema
            | by eapply insert_invoice_item_schema
            | by eapply update_invoice_total_schema
            | by eapply delete_invoice_item_schema ] ].

Lemma run_window_op_schema (op : window_op) :
  holds (fun st => schema_ok (db st)) (run_window_op op).
Proof.
  destruct op; cbn [run_window_op].
  - apply holds_add_partner; schema_side.
  - apply holds_save_partner_update; schema_side.
  - apply holds_delete_partner; schema_side.
  - apply holds_add_product; schema_side.
  - apply holds_save_product_update; schema_side.
  - apply holds_delete_product; schema_side.
  - apply holds_add_invoice; schema_side.
  - apply holds_update_invoice; schema_side.
  - apply holds_delete_invoice; schema_side.
  - apply holds_load_invoice_for_edit; schema_side.
  - apply holds_run_op; schema_side.
  - apply holds_import_partners_csv; schema_side.
  - apply holds_import_products_csv; schema_side.
Qed.

(** X8: whatever is clicked and typed in the three windows, in whatever
    order, and whichever connections fail or statements raise on the
    way, the stored rows keep the constraints of the schema: the ids of a
    table are pairwise different, no price and no stock is negative,
    every quantity is positive, every price, unit price and line total
    is a number, no two products share a sku, every item has its invoice
    and its product, every invoice its partner. *)
Theorem schema_kept_by_every_callback (ops : list window_op) (st : app) :
  schema_ok (db st) → schema_ok (db (run_window_ops ops st)).
Proof.
  revert st. induction ops as [|op ops IH]; intros st Hst; [done|].
  cbn [run_window_ops foldl]. apply IH.
  by apply (run_window_op_schema op).
Qed.

End SchemaKept.

(** ** The callbacks that handle their errors *)

Section NeverRaises.
Context `{FloatOps}.

Lemma never_raises_ret {A : Type} (a : A) : never_raises (mret a).
Proof. intros st. by exists a. Qed.

Lemma never_raises_messagebox (d : dialog) : never_raises (messagebox d).
Proof. intros st. by exists (). Qed.

Lemma never_raises_bind {A B : Type} (m : M A) (f : A → M B) :
  never_raises m → (∀ a, never_raises (f a)) → never_raises (m ≫= f).
Proof.
  intros Hm Hf st. rewrite bind_run. destruct (Hm st) as [a Ha].
  destruct (m st) as [[a'|e] st1]; cbn [fst] in Ha; [|done].
  apply Hf.
Qed.

Lemma never_raises_try_except {A : Type} (body : M A) (handler : exn → M A) :
  (∀ e, never_raises (handler e)) → never_raises (try_except body handler).
Proof.
  intros Hh st. rewrite try_except_run.
  destruct (body st) as [[a|e] st1]; [by exists a | apply Hh].
Qed.

(** X10: the callbacks that add or change a partner, a product or an invoice
    return whatever they are given and whatever the storage does: what
    goes wrong ends in a dialog. *)
Theorem guarded_callbacks_never_raise :
  (∀ n t e p a, never_raises (add_partner n t e p a))
  ∧ (∀ pid n t e p a, never_raises (save_partner_update pid n t e p a))
  ∧ (∀ s n d p k, never_raises (add_product s n d p k))
  ∧ (∀ pid s n d p k, never_raises (save_product_update pid s n d p k))
  ∧ (∀ p d u s, never_raises (add_invoice p d u s))
  ∧ (∀ sel p d u s, never_raises (update_invoice sel p d u s)).
Proof.
  repeat split; intros.
  - unfold add_partner. destruct (negb _); [apply never_raises_messagebox|].
    apply never_raises_try_except. intros ?. apply never_raises_messagebox.
  - unfold save_partner_update. destruct (negb _); [apply never_raises_messagebox|].
    apply never_raises_try_except. intros ?. apply never_raises_messagebox.
  - unfold add_product. destruct (negb _); [apply never_raises_messagebox|].
    apply never_raises_try_except. intros ?. apply never_raises_messagebox.
  - unfold save_product_update. destruct (negb _); [apply never_raises_messagebox|].
    apply never_raises_try_except. intros ?. apply never_raises_messagebox.
  - unfold add_invoice. destruct (int_of_str _); [|apply never_raises_messagebox].
    destruct (negb _); [apply never_raises_messagebox|].
    apply never_raises_try_except. intros ?. apply never_raises_messagebox.
  - unfold update_invoice. destruct sel; [|apply never_raises_messagebox].
    destruct (int_of_str _); [|apply never_raises_messagebox].
    destruct (negb _); [apply never_raises_messagebox|].
    apply never_raises_try_except. intros ?. apply never_raises_messagebox.
Qed.

End NeverRaises.

(** ** The imports account for every row *)

Section ImportAccount.
Context `{FloatOps}.

Lemma insert_partner_grows (n t e p a : option string) (d d' : database)
    (r : option Z) :
  sql_insert_partner n t e p a d = inr (r, d') →
  length (partners d') = S (length (partners d))
  ∧ products d' = products d.
Proof.
  unfold sql_insert_partner. destruct n; [|done]. intros [= _ <-].
  cbn [partners products]. rewrite length_app. cbn. split; [lia | done].
Qed.

Lemma insert_product_grows (s n ds : option string) (p : real) (k : Z)
    (d d' : database) (r : option Z) :
  sql_insert_product s n ds p k d = inr (r, d') →
  length (products d') = S (length (products d))
  ∧ partners d' = partners d.
Proof.
  unfold sql_insert_product. repeat case_match; try done. intros [= _ <-].
  cbn [partners products]. rewrite length_app. cbn. split; [lia | done].
Qed.

(** One row of a partner file: it is counted as added and the table has
    one row more, or it is reported and the table is as it was. *)
Lemma import_partner_row_account (cols : list string) (i : Z)
    (row : list string) (errors : list string) (added : Z) (st : app) :
  ∃ errors' added' st',
    import_partner_row cols i row errors added st = (Ok (errors', added'), st')
    ∧ dialogs st' = dialogs st
    ∧ ((added' = (added + 1)%Z ∧ errors' = errors
        ∧ length (partners (db st')) = S (length (partners (db st))))
       ∨ (added' = added ∧ (∃ msg, errors' = (errors ++ [msg])%list)
          ∧ db st' = db st)).
Proof.
  unfold import_partner_row. destruct (negb _).
  - eexists _, _, _. split; [reflexivity|]. split; [done|]. right.
    split; [done|]. split; [by eexists | done].
  - rewrite try_except_run, bind_run. unfold execute.
    destruct (get_conn _ st) as [[r|e] st1] eqn:Hrun;
      apply get_conn_inv in Hrun as (_ & Hdl & Hdb).
    + eexists _, _, _. split; [reflexivity|]. split; [done|]. left.
      split; [done|]. split; [done|].
      by apply insert_partner_grows in Hdb as [-> _].
    + eexists _, _, _. split; [reflexivity|]. split; [done|]. right.
      split; [done|]. split; [by eexists | done].
Qed.

Lemma import_partner_rows_account (cols : list string)
    (rows : list (list string)) :
  ∀ (i : Z) (errors : list string) (added : Z) (st : app),
    ∃ errors' added' st',
      import_partner_rows cols i rows errors added st
      = (Ok (errors', added'), st')
      ∧ dialogs st' = dialogs st
      ∧ (Z.of_nat (length errors') + added'
         = Z.of_nat (length errors) + added + Z.of_nat (length rows))%Z
      ∧ (Z.of_nat (length (partners (db st'))) - added'
         = Z.of_nat (length (partners (db st))) - added)%Z
      ∧ (added ≤ added')%Z.
Proof.
  induction rows as [|row rows IH]; intros i errors added st;
    cbn [import_partner_rows].
  - eexists _, _, _. split; [reflexivity|]. cbn [length]. repeat split; lia.
  - rewrite bind_run.
    destruct (import_partner_row_account cols i row errors added st)
      as (e1 & a1 & st1 & -> & Hdl1 & Hcase).
    destruct (IH (i + 1)%Z e1 a1 st1) as (e2 & a2 & st2 & -> & Hdl2 & Hn & Hp & Hle).
    eexists _, _, _. split; [reflexivity|]. split; [congruence|].
    cbn [length].
    destruct Hcase as [(-> & -> & Hlen)|(-> & [msg ->] & Hdb)].
    + repeat split; lia.
    + rewrite length_app in Hn. cbn [length] in Hn. rewrite Hdb in Hp.
      repeat split; lia.
Qed.

Lemma import_product_row_account (cols : list string) (i : Z)
    (row : list string) (errors : list string) (added : Z) (st : app) :
  ∃ errors' added' st',
    import_product_row cols i row errors added st = (Ok (errors', added'), st')
    ∧ dialogs st' = dialogs st
    ∧ ((added' = (added + 1)%Z ∧ errors' = errors
        ∧ length (products (db st')) = S (length (products (db st))))
       ∨ (added' = added ∧ (∃ msg, errors' = (errors ++ [msg])%list)
          ∧ db st' = db st)).
Proof.
  unfold import_product_row. destruct (negb _).
  - eexists _, _, _. split; [reflexivity|]. split; [done|]. right.
    split; [done|]. split; [by eexists | done].
  - rewrite try_except_run.
    destruct (float_of_py _) as [e|price].
    { eexists _, _, _. split; [reflexivity|]. split; [done|]. right.
      split; [done|]. split; [by eexists | done]. }
    destruct (int_of_py _) as [e|stock].
    { eexists _, _, _. split; [reflexivity|]. split; [done|]. right.
      split; [done|]. split; [by eexists | done]. }
    rewrite bind_run. unfold execute.
    destruct (get_conn _ st) as [[r|e] st1] eqn:Hrun;
      apply get_conn_inv in Hrun as (_ & Hdl & Hdb).
    + eexists _, _, _. split; [reflexivity|]. split; [done|]. left.
      split; [done|]. split; [done|].
      by apply insert_product_grows in Hdb as [-> _].
    + eexists _, _, _. split; [reflexivity|]. split; [done|]. right.
      split; [done|]. split; [by eexists | done].
Qed.

Lemma import_product_rows_account (cols : list string)
    (rows : list (list string)) :
  ∀ (i : Z) (errors : list string) (added : Z) (st : app),
    ∃ errors' added' st',
      import_product_rows cols i rows errors added st
      = (Ok (errors', added'), st')
      ∧ dialogs st' = dialogs st
      ∧ (Z.of_nat (length errors') + added'
         = Z.of_nat (length errors) + added + Z.of_nat (length rows))%Z
      ∧ (Z.of_nat (length (products (db st'))) - added'
         = Z.of_nat (length (products (db st))) - added)%Z
      ∧ (added ≤ added')%Z.
Proof.
  induction rows as [|row rows IH]; intros i errors added st;
    cbn [import_product_rows].
  - eexists _, _, _. split; [reflexivity|]. cbn [length]. repeat split; lia.
  - rewrite bind_run.
    destruct (import_product_row_account cols i row errors added st)
      as (e1 & a1 & st1 & -> & Hdl1 & Hcase).
    destruct (IH (i + 1)%Z e1 a1 st1) as (e2 & a2 & st2 & -> & Hdl2 & Hn & Hp & Hle).
    eexists _, _, _. split; [reflexivity|]. split; [congruence|].
    cbn [length].
    destruct Hcase as [(-> & -> & Hlen)|(-> & [msg ->] & Hdb)].
    + repeat split; lia.
    + rewrite length_app in Hn. cbn [length] in Hn. rewrite Hdb in Hp.
      repeat split; lia.
Qed.

(** The dialog an import ends with, for [added] rows added and [nerr]
    rows reported. *)
Lemma import_report_run (title : string) (errors : list string) (added : Z)
    (st : app) :
  ∃ st', import_report title errors added st = (Ok (), st')
    ∧ db st' = db st
    ∧ ShowInfo title ("Added " ++ pretty added ++ " rows. Errors: "
                      ++ pretty (Z.of_nat (length errors)))
      ∈ dialogs st'.
Proof.
  unfold import_report. rewrite bind_run. cbn [messagebox].
  destruct (negb _); eexists; (split; [reflexivity|]); (split; [done|]);
    cbn [messagebox snd dialogs]; rewrite ?elem_of_app, ?elem_of_cons; eauto.
Qed.

(** X11: an import of partners, once the file is read and has the expected
    columns, returns, and the numbers of its report are true whatever the
    storage did on the way: the rows counted as added are the rows the
    partner table has gained, and every row of the file is either counted
    as added or counted as an error. *)
Theorem import_partners_report_is_exact (df : dataframe) (st : app) :
  columns df ∈ [partners_basic; "id" :: partners_basic] →
  ∃ (added nerr : Z) (st' : app),
    import_partners_csv (Some df) st = (Ok (), st')
    ∧ ShowInfo "Import partners"
        ("Added " ++ pretty added ++ " rows. Errors: " ++ pretty nerr)
      ∈ dialogs st'
    ∧ (added + nerr = Z.of_nat (length (df_rows df)))%Z
    ∧ (0 ≤ added)%Z ∧ (0 ≤ nerr)%Z
    ∧ (Z.of_nat (length (partners (db st')))
       = Z.of_nat (length (partners (db st))) + added)%Z.
Proof.
  intros Hcols. unfold import_partners_csv.
  rewrite bool_decide_eq_true_2 by done. cbn [negb]. rewrite bind_run.
  destruct (import_partner_rows_account (columns df) (df_rows df) 0 [] 0 st)
    as (errors & added & st1 & -> & Hdl & Hn & Hp & Hle).
  destruct (import_report_run "Import partners" errors added st1)
    as (st2 & -> & Hdb & Hin).
  exists added, (Z.of_nat (length errors)), st2.
  split; [done|]. split; [done|]. rewrite Hdb. cbn [length] in Hn.
  repeat split; lia.
Qed.

(** X12: an import of products, once the file is read and has the expected
    columns, returns, and the numbers of its report are true whatever the
    storage did on the way and whichever conversions of a price or of a
    stock failed: the rows counted as added are the rows the product table
    has gained, and every row of the file is either counted as added or
    counted as an error. *)
Theorem import_products_report_is_exact (df : dataframe) (st : app) :
  columns df ∈ [products_basic; "id" :: products_basic] →
  ∃ (added nerr : Z) (st' : app),
    import_products_csv (Some df) st = (Ok (), st')
    ∧ ShowInfo "Import products"
        ("Added " ++ pretty added ++ " rows. Errors: " ++ pretty nerr)
      ∈ dialogs st'
    ∧ (added + nerr = Z.of_nat (length (df_rows df)))%Z
    ∧ (0 ≤ added)%Z ∧ (0 ≤ nerr)%Z
    ∧ (Z.of_nat (length (products (db st')))
       = Z.of_nat (length (products (db st))) + added)%Z.
Proof.
  intros Hcols. unfold import_products_csv.
  rewrite bool_decide_eq_true_2 by done. cbn [negb]. rewrite bind_run.
  destruct (import_product_rows_account (columns df) (df_rows df) 0 [] 0 st)
    as (errors & added & st1 & -> & Hdl & Hn & Hp & Hle).
  destruct (import_report_run "Import products" errors added st1)
    as (st2 & -> & Hdb & Hin).
  exists added, (Z.of_nat (length errors)), st2.
  split; [done|]. split; [done|]. rewrite Hdb. cbn [length] in Hn.
  repeat split; lia.
Qed.

End ImportAccount.

(** ** The totals, over all the callbacks *)

Section TotalsKept.
Context `{FloatOps}.

(** [consistent] looks at the invoices, at the items and at the item
    list only. *)
Lemma consistent_frame (st : app) (d' : database) (dl : list dialog) :
  consistent st →
  invoices d' = invoices (db st) → invoice_items d' = invoice_items (db st) →
  consistent (mkapp d' (items_tv st) dl (faults st)).
Proof.
  intros (Hf & [Hr Hdbo Htvo] & Hinv & Href) Hi Hx.
  split; [done|]. split; [|split].
  - split; cbn [db items_tv]; rewrite ?Hx; done.
  - intros inv. cbn [db]. rewrite Hi. intros Hin.
    rewrite (Hinv inv Hin). unfold stored_total, sum_line_totals, items_of.
    by rewrite Hx.
  - intros x. cbn [db]. rewrite Hx, Hi. apply Href.
Qed.

Lemma consistent_items_nil (st : app) :
  consistent st → consistent (mkapp (db st) [] (dialogs st) (faults st)).
Proof.
  intros (Hf & [Hr Hdbo Htvo] & Hinv & Href).
  split; [done|]. split; [|done].
  split; cbn [db items_tv];
    [by intros ? ?%elem_of_nil | done | by intros ? ? ?%elem_of_nil].
Qed.

Lemma consistent_items_of (st : app) (inv_id : Z) :
  consistent st → sqlite_int inv_id = true →
  consistent (mkapp (db st) (items_of inv_id (db st)) (dialogs st) (faults st)).
Proof.
  intros (Hf & [Hr Hdbo Htvo] & Hinv & Href) Hint.
  split; [done|]. split; [|done].
  split; cbn [db items_tv]; [|done|].
  - intros r [-> _]%list_elem_of_filter. done.
  - intros r x [_ Hr']%list_elem_of_filter Hx. by apply Hdbo.
Qed.

Lemma insert_invoice_items (p : Z) (dt : string) (u : option string)
    (s : string) (d d' : database) (r : option Z) :
  sql_insert_invoice p dt u s d = inr (r, d') →
  invoice_items d' = invoice_items d.
Proof.
  unfold sql_insert_invoice. repeat case_match; try done. by intros [= _ <-].
Qed.

Lemma consistent_insert_invoice (p : Z) (dt : string) (u : option string)
    (s : string) :
  commits consistent (sql_insert_invoice p dt u s).
Proof.
  intros st r d' (Hf & [Hr Hdbo Htvo] & Hinv & Href) Hrun.
  pose proof (insert_invoice_items _ _ _ _ _ _ _ Hrun) as Hx.
  destruct (insert_invoice_keeps_invariant _ _ _ _ _ _ _ Hinv Href Hrun)
    as [Hinv' Href'].
  split; [done|]. split; [|done].
  split; cbn [db items_tv]; rewrite ?Hx; done.
Qed.

Lemma consistent_update_invoice (p : Z) (dt : string) (u : option string)
    (s : string) (inv_id : Z) :
  commits consistent (sql_update_invoice p dt u s inv_id).
Proof.
  intros st r d' Hst. unfold sql_update_invoice.
  destruct (bind_ints _); [done|].
  destruct (negb (existsb _ (invoices _))).
  { intros [= _ <-]. by destruct st. }
  destruct (negb _); [done|]. intros [= _ <-].
  destruct Hst as (Hf & [Hr Hdbo Htvo] & Hinv & Href).
  split; [done|]. split; [done|]. split.
  - intros i' (i & -> & Hi)%list_elem_of_fmap. cbn [db invoices] in *.
    specialize (Hinv i Hi).
    by destruct (Invoice.id i =? inv_id)%Z.
  - intros x Hx. destruct (Href x Hx) as (i & Hi & Heq).
    eexists. split; [apply list_elem_of_fmap; by exists i|].
    rewrite <- Heq. by destruct (Invoice.id i =? inv_id)%Z.
Qed.

Lemma consistent_delete_invoice (inv_id : Z) :
  commits consistent (sql_delete_invoice inv_id).
Proof.
  intros st r d' Hst. unfold sql_delete_invoice.
  destruct (bind_ints _); [done|].
  destruct (negb _).
  { intros [= _ <-]. by destruct st. }
  intros [= _ <-].
  destruct Hst as (Hf & [Hr Hdbo Htvo] & Hinv & Href).
  split; [done|]. split; [|split].
  - split; cbn [db items_tv invoice_items]; [done| |].
    + intros x y [_ Hx]%list_elem_of_filter [_ Hy]%list_elem_of_filter.
      by apply Hdbo.
    + intros r' x Hr' [_ Hx]%list_elem_of_filter. by apply Htvo.
  - intros i [Hne Hi]%list_elem_of_filter. rewrite (Hinv i Hi).
    symmetry. apply stored_total_items.
    unfold items_of. cbn [db invoice_items].
    apply filter_filter_implied. intros x _ ->. done.
  - intros x [Hne Hx]%list_elem_of_filter.
    destruct (Href x Hx) as (i & Hi & Heq).
    exists i. split; [|done]. apply list_elem_of_filter. split; [|done].
    by rewrite Heq.
Qed.

Lemma consistent_commits_frame (s : database → sql_result) :
  (∀ d r d', s d = inr (r, d') →
     invoices d' = invoices d ∧ invoice_items d' = invoice_items d) →
  commits consistent s.
Proof.
  intros Hs st r d' Hst Hrun. destruct (Hs _ _ _ Hrun) as [Hi Hx].
  by apply consistent_frame.
Qed.

Lemma partner_statements_frame :
  (∀ n t e p a, commits consistent (sql_insert_partner n t e p a))
  ∧ (∀ n t e p a pid, commits consistent (sql_update_partner n t e p a pid))
  ∧ (∀ pid, commits consistent (sql_delete_partner pid)).
Proof.
  split; [|split]; intros; apply consistent_commits_frame; intros d r d'.
  - unfold sql_insert_partner. repeat case_match; try done. by intros [= _ <-].
  - unfold sql_update_partner. repeat case_match; try done; by intros [= _ <-].
  - by intros [->|[-> _]]%delete_partner_unreferenced.
Qed.

Lemma product_statements_frame :
  (∀ s n ds p k, commits consistent (sql_insert_product s n ds p k))
  ∧ (∀ s n ds p k pid, commits consistent (sql_update_product s n ds p k pid))
  ∧ (∀ pid, commits consistent (sql_delete_product pid)).
Proof.
  split; [|split]; intros; apply consistent_commits_frame; intros d r d'.
  - unfold sql_insert_product. repeat case_match; try done. by intros [= _ <-].
  - unfold sql_update_product. repeat case_match; try done; by intros [= _ <-].
  - unfold sql_delete_product. repeat case_match; try done; by intros [= _ <-].
Qed.

(** An item step keeps every item with its invoice. *)
Lemma item_step_references (st st' : app) :
  items_reference_invoices (db st) → item_step st st' →
  items_reference_invoices (db st').
Proof.
  intros Href [Hdb Htv Hf | inv_id pid qty u lt rid d1 Hins Hdb Htv Hf
               | r Hr Hdb Htv Hf]; rewrite Hdb.
  - done.
  - destruct (insert_invoice_item_inv _ _ _ _ _ _ _ _ Hins)
      as (id & Hitems & _ & Hinvs & _).
    assert (Hex : ∃ i, i ∈ invoices (db st) ∧ Invoice.id i = inv_id).
    { revert Hins. unfold sql_insert_invoice_item.
      destruct (bind_ints _); [done|].
      destruct (float_is_nan u); [done|]. destruct (float_is_nan lt); [done|].
      destruct (negb (0 <? qty)%Z); [done|].
      destruct (existsb _ (invoices (db st))) eqn:Hex; [|done].
      intros _. apply existsb_true_elem in Hex as (i & Hi & Heq%Z.eqb_eq).
      by exists i. }
    intros x. cbn [db_recompute_total invoice_items invoices].
    rewrite Hitems, Hinvs.
    intros [Hx| ->%list_elem_of_singleton]%elem_of_app.
    + destruct (Href x Hx) as (i & Hi & Heq).
      eexists. split; [apply list_elem_of_fmap; by exists i|].
      rewrite <- Heq. by destruct (Invoice.id i =? inv_id)%Z.
    + destruct Hex as (i & Hi & Heq).
      eexists. split; [apply list_elem_of_fmap; by exists i|].
      cbn [InvoiceItem.invoice_id]. rewrite <- Heq.
      by destruct (Invoice.id i =? Invoice.id i)%Z.
  - intros x. cbn [db_recompute_total db_delete_item invoice_items invoices].
    intros [_ Hx]%list_elem_of_filter.
    destruct (Href x Hx) as (i & Hi & Heq).
    eexists. split; [apply list_elem_of_fmap; by exists i|].
    rewrite <- Heq. by destruct (Invoice.id i =? _)%Z.
Qed.

Lemma run_window_op_consistent (op : window_op) :
  holds consistent (run_window_op op).
Proof.
  assert (Hdl : ∀ st dl, consistent st →
            consistent (mkapp (db st) (items_tv st) dl (faults st))).
  { intros st dl Hst. by apply consistent_frame. }
  assert (Hfs : ∀ st, consistent st →
            consistent (mkapp (db st) (items_tv st) (dialogs st)
                          (tail (faults st)))).
  { intros st Hst. pose proof Hst as (Hf & _). rewrite Hf. cbn [tail].
    rewrite <- Hf. by destruct st. }
  destruct partner_statements_frame as (Hp1 & Hp2 & Hp3).
  destruct product_statements_frame as (Hq1 & Hq2 & Hq3).
  destruct op; cbn [run_window_op].
  - by apply holds_add_partner.
  - by apply holds_save_partner_update.
  - by apply holds_delete_partner.
  - by apply holds_add_product.
  - by apply holds_save_product_update.
  - by apply holds_delete_product.
  - apply holds_add_invoice; [done|done|]. apply consistent_insert_invoice.
  - apply holds_update_invoice; [done|done|]. apply consistent_update_invoice.
  - apply holds_delete_invoice; [done|done| |].
    + apply consistent_delete_invoice.
    + apply consistent_items_nil.
  - apply holds_load_invoice_for_edit; [done|done| |].
    + apply consistent_items_nil.
    + apply consistent_items_of.
  - intros st (Hf & Hcoh & Hinv & Href).
    pose proof (run_op_step op st Hf Hcoh) as Hstep.
    destruct (item_step_preserves _ _ Hinv Hcoh Hstep) as [Hinv' Hcoh'].
    split; [by destruct Hstep|]. split; [done|]. split; [done|].
    by eapply item_step_references.
  - by apply holds_import_partners_csv.
  - by apply holds_import_products_csv.
Qed.

Lemma run_window_ops_consistent (ops : list window_op) (st : app) :
  consistent st → consistent (run_window_ops ops st).
Proof.
  revert st. induction ops as [|op ops IH]; intros st Hst; [done|].
  cbn [run_window_ops foldl]. apply IH.
  by apply (run_window_op_consistent op).
Qed.

(** X9: I1 over the whole program, as far as it holds: when the store
    answers every call, then after any sequence of clicks in the three
    windows, from the store [init_db] leaves, every invoice carries the
    sum of the line totals of its items when that sum is a number, and 0.0
    when it is not; and every item belongs to an invoice that is
    there. *)
Theorem totals_kept_by_every_callback (ops : list window_op) :
  let d' := db (run_window_ops ops (mkapp init_db [] [] [])) in
  (∀ inv, inv ∈ invoices d' →
     let s := foldl fadd f0
                (InvoiceItem.line_total <$> items_of (Invoice.id inv) d') in
     Invoice.total_amount inv = if float_is_nan s then f0 else s)
  ∧ (∀ x, x ∈ invoice_items d' →
       ∃ inv, inv ∈ invoices d' ∧ Invoice.id inv = InvoiceItem.invoice_id x).
Proof.
  intros d'.
  assert (Hinit : consistent (mkapp init_db [] [] [])).
  { destruct init_db_consistent as [Hinv Hcoh].
    split; [done|]. split; [done|]. split; [done|].
    by intros x ?%elem_of_nil. }
  destruct (run_window_ops_consistent ops _ Hinit) as (_ & _ & Hinv & Href).
  split; [exact Hinv | exact Href].
Qed.

End TotalsKept.

(** ** The texts of the choice boxes *)

Section Choices.
Context `{FloatOps}.

Lemma list_ascii_of_string_app (a b : string) :
  list_ascii_of_string (a ++ b)
  = (list_ascii_of_string a ++ list_ascii_of_string b)%list.
Proof.
  induction a as [|c a IH]; [done|].
  change (String c a ++ b) with (String c (a ++ b)).
  cbn [list_ascii_of_string List.app]. by rewrite IH.
Qed.

Lemma string_append_assoc (a b c : string) : (a ++ b) ++ c = a ++ (b ++ c).
Proof.
  induction a as [|x a IH]; [done|].
  change (String x (a ++ b) ++ c = String x (a ++ b ++ c)).
  change (String x ((a ++ b) ++ c) = String x (a ++ b ++ c)). by rewrite IH.
Qed.

Lemma pretty_N_go_app (x : N) :
  ∀ s, pretty_N_go x s = pretty_N_go x "" ++ s.
Proof.
  induction (N.lt_wf_0 x) as [x _ IH]. intros s.
  destruct (decide (x = 0%N)) as [->|Hx]; [by rewrite !pretty_N_go_0|].
  rewrite !(pretty_N_go_step x) by lia.
  assert (Hlt : (x `div` 10 < x)%N) by (apply N.div_lt; lia).
  rewrite (IH _ Hlt (String (pretty_N_char (x `mod` 10)) s)).
  rewrite (IH _ Hlt (String (pretty_N_char (x `mod` 10)) "")).
  by rewrite string_append_assoc.
Qed.

Lemma pretty_N_char_digit (k : N) :
  (k < 10)%N →
  is_digit (pretty_N_char k) = true ∧ digit_val (pretty_N_char k) = Z.of_N k.
Proof.
  intros Hk.
  assert (k = 0 ∨ k = 1 ∨ k = 2 ∨ k = 3 ∨ k = 4 ∨ k = 5 ∨ k = 6 ∨ k = 7
          ∨ k = 8 ∨ k = 9)%N as Hcases by lia.
  repeat (destruct Hcases as [->|Hcases]; [done|]). by subst.
Qed.

(** The number a string of digits stands for. *)
Lemma pretty_N_go_digits (x : N) :
  let l := list_ascii_of_string (pretty_N_go x "") in
  Forall (fun c => is_digit c = true) l
  ∧ foldl (fun a c => 10 * a + digit_val c)%Z 0%Z l = Z.of_N x
  ∧ (x ≠ 0%N → l ≠ []).
Proof.
  induction (N.lt_wf_0 x) as [x _ IH]. cbv zeta.
  destruct (decide (x = 0%N)) as [->|Hx]; [by rewrite pretty_N_go_0|].
  rewrite pretty_N_go_step by lia. rewrite pretty_N_go_app.
  rewrite list_ascii_of_string_app. cbn [list_ascii_of_string].
  destruct (IH (x `div` 10)%N) as (Hd & Hv & _); [apply N.div_lt; lia|].
  destruct (pretty_N_char_digit (x `mod` 10)%N) as [Hc Hcv];
    [by apply N.mod_lt|].
  split; [|split].
  - apply Forall_app. split; [done|]. by repeat constructor.
  - rewrite foldl_app. cbn [foldl]. rewrite Hv, Hcv.
    rewrite (N.div_mod x 10) at 3 by done. lia.
  - intros _. by destruct (list_ascii_of_string (pretty_N_go (x `div` 10) "")).
Qed.

Lemma int_digits_all (l : list ascii) :
  ∀ prev acc,
    Forall (fun c => is_digit c = true) l → l ≠ [] ∨ prev = true →
    int_digits prev acc l
    = Some (foldl (fun a c => 10 * a + digit_val c)%Z acc l).
Proof.
  induction l as [|c l IH]; intros prev acc Hd Hne.
  - destruct Hne as [? | ->]; done.
  - apply Forall_cons in Hd as [Hc Hd]. cbn [int_digits foldl]. rewrite Hc.
    apply IH; [done | by right].
Qed.

Lemma digit_not_space (c : ascii) : is_digit c = true → is_space c = false.
Proof.
  unfold is_digit, is_space. cbv zeta.
  rewrite andb_true_iff, !N.leb_le. intros [? ?].
  apply orb_false_iff. split; apply andb_false_iff.
  - right. apply N.leb_gt. lia.
  - right. apply N.leb_gt. lia.
Qed.

Lemma lstrip_keeps (l : list ascii) :
  match l with c :: _ => is_space c = false | [] => True end → lstrip l = l.
Proof. destruct l as [|c l]; [done|]. cbn. by intros ->. Qed.

(** The characters of [str(z)]: an optional sign, then digits that read
    as the absolute value. *)
Lemma pretty_Z_chars (z : Z) :
  ∃ sign digits,
    list_ascii_of_string (pretty z) = (sign ++ digits)%list
    ∧ (sign = [] ∧ (0 ≤ z)%Z ∨ sign = ["-"%char] ∧ (z < 0)%Z)
    ∧ Forall (fun c => is_digit c = true) digits ∧ digits ≠ []
    ∧ foldl (fun a c => 10 * a + digit_val c)%Z 0%Z digits = Z.abs z.
Proof.
  destruct z as [|p|p].
  - exists [], ["0"%char]. split; [done|]. split; [left; split; [done|lia]|].
    split; [by repeat constructor|]. done.
  - exists [], (list_ascii_of_string (pretty_N_go (Npos p) "")).
    destruct (pretty_N_go_digits (Npos p)) as (Hd & Hv & Hne).
    split; [done|]. split; [left; split; [done|lia]|].
    split; [done|]. split; [by apply Hne|]. by rewrite Hv.
  - exists ["-"%char], (list_ascii_of_string (pretty_N_go (Npos p) "")).
    destruct (pretty_N_go_digits (Npos p)) as (Hd & Hv & Hne).
    split; [done|]. split; [right; split; [done|lia]|].
    split; [done|]. split; [by apply Hne|]. by rewrite Hv.
Qed.

Lemma pretty_Z_no_space (z : Z) :
  Forall (fun c => is_space c = false) (list_ascii_of_string (pretty z)).
Proof.
  destruct (pretty_Z_chars z) as (sign & digits & -> & Hsign & Hd & _).
  apply Forall_app. split.
  - destruct Hsign as [[-> _]|[-> _]]; by repeat constructor.
  - eapply Forall_impl; [exact Hd|]. apply digit_not_space.
Qed.

Lemma lstrip_no_space (l : list ascii) :
  Forall (fun c => is_space c = false) l → lstrip l = l.
Proof. intros Hl. apply lstrip_keeps. by destruct Hl. Qed.

(** [int(str(z))] is [z]. *)
Lemma int_of_str_pretty (z : Z) : int_of_str (pretty z) = Some z.
Proof.
  unfold int_of_str, strip.
  pose proof (pretty_Z_no_space z) as Hns.
  rewrite (lstrip_no_space _ Hns).
  rewrite (lstrip_no_space (rev _)) by by apply Forall_rev.
  rewrite rev_involutive, list_ascii_of_string_of_list_ascii.
  destruct (pretty_Z_chars z) as (sign & digits & -> & Hsign & Hd & Hne & Hv).
  destruct Hsign as [[-> Hz]|[-> Hz]]; cbn [List.app].
  - destruct digits as [|c digits]; [done|].
    assert (Hc : is_digit c = true) by by apply Forall_cons in Hd as [? _].
    assert (c ≠ "-"%char ∧ c ≠ "+"%char) as [Hm Hp].
    { split; intros ->; discriminate. }
    assert (Hrun : int_digits false 0 (c :: digits) = Some z).
    { rewrite int_digits_all by (done || by left). f_equal. lia. }
    destruct c as [[] [] [] [] [] [] [] []]; try done.
  - rewrite int_digits_all by (done || by left). cbn. f_equal. lia.
Qed.

Lemma before_sep_choice (digits rest : list ascii) :
  Forall (fun c => is_space c = false) digits →
  before_sep (list_ascii_of_string " - ")
    (digits ++ list_ascii_of_string " - " ++ rest)%list
  = digits.
Proof.
  intros Hd. induction Hd as [|c digits Hc Hd IH].
  - cbn. rewrite bool_decide_eq_true_2; [done|]. by exists rest.
  - cbn [List.app before_sep]. rewrite bool_decide_eq_false_2.
    + by rewrite IH.
    + intros Hpre%prefix_cons_inv_1. by subst.
Qed.

Lemma lstrip_app_keeps (a b : list ascii) :
  Exists (fun c => is_space c = false) a → lstrip (a ++ b) = (lstrip a ++ b)%list.
Proof.
  induction a as [|c a IH]; intros Hex; [by apply Exists_nil in Hex|].
  cbn. destruct (is_space c) eqn:Hc; [|done].
  apply IH. apply Exists_cons in Hex as [Hex|Hex]; [congruence | done].
Qed.

Lemma strip_nonblank (s : string) :
  strip s ≠ "" → Exists (fun c => is_space c = false) (list_ascii_of_string s).
Proof.
  intros Hs.
  destruct (decide (Exists (fun c => is_space c = false)
                      (list_ascii_of_string s))) as [Hex|Hnone]; [done|].
  exfalso. apply Hs. unfold strip.
  assert (Hall : ∀ l, ¬ Exists (fun c => is_space c = false) l → lstrip l = []).
  { induction l as [|c l IH]; intros Hn; [done|]. cbn.
    destruct (is_space c) eqn:Hc.
    - apply IH. intros Hl. apply Hn. by apply Exists_cons_tl.
    - exfalso. apply Hn. by apply Exists_cons_hd. }
  by rewrite (Hall _ Hnone).
Qed.

(** What [strip] leaves of the text of a choice: the number and the
    separator as they are. *)
Lemma strip_choice (z : Z) (rest : string) :
  Exists (fun c => is_space c = false) (list_ascii_of_string rest) →
  ∃ rest',
    list_ascii_of_string (strip (pretty z ++ " - " ++ rest))
    = (list_ascii_of_string (pretty z) ++ list_ascii_of_string " - " ++ rest')%list.
Proof.
  intros Hrest. unfold strip.
  rewrite list_ascii_of_string_of_list_ascii, !list_ascii_of_string_app.
  set (D := list_ascii_of_string (pretty z)).
  set (R := list_ascii_of_string rest) in *.
  set (S := list_ascii_of_string " - ").
  assert (HD : Forall (fun c => is_space c = false) D) by apply pretty_Z_no_space.
  assert (HDne : D ≠ []).
  { unfold D. destruct (pretty_Z_chars z) as (sg & dg & -> & _ & _ & Hne & _).
    by destruct sg, dg. }
  rewrite (lstrip_keeps (D ++ S ++ R)%list).
  2:{ destruct D as [|c D']; [done|]. cbn. by apply Forall_cons in HD as [? _]. }
  rewrite !rev_app_distr, <- app_assoc.
  rewrite lstrip_app_keeps.
  2:{ apply Exists_exists. apply Exists_exists in Hrest as (c & Hc & Hsp).
      exists c. split; [|done]. apply list_elem_of_In, in_rev.
      rewrite rev_involutive. by apply list_elem_of_In. }
  exists (rev (lstrip (rev R))).
  rewrite !rev_app_distr, !rev_involutive, <- !app_assoc.
  f_equal.
Qed.

(** X14: a text of the partner box, as [load_partners] makes it for a partner
    with a name that is not blank, is read back by [add_invoice] and by
    [update_invoice] as the id of that partner. *)
Theorem partner_choice_round_trip (p : Partner.t) :
  strip (Partner.name p) ≠ "" →
  int_of_str (split_head " - " (strip (partner_choice p))) = Some (Partner.id p).
Proof.
  intros Hname%strip_nonblank. unfold partner_choice, split_head.
  destruct (strip_choice (Partner.id p) (Partner.name p) Hname) as [rest' ->].
  rewrite before_sep_choice by apply pretty_Z_no_space.
  rewrite string_of_list_ascii_of_string. apply int_of_str_pretty.
Qed.

(** X15: a text of the product box, as [load_products] makes it, is read back
    by [add_item_to_invoice] as the id of its product, whatever the name
    and the price are. *)
Theorem product_choice_round_trip (price_text : real → string) (p : Product.t) :
  int_of_str (split_head " - " (strip (product_choice price_text p)))
  = Some (Product.id p).
Proof.
  unfold product_choice, split_head.
  destruct (strip_choice (Product.id p)
              (Product.name p ++ " (price:" ++ price_text (Product.price p) ++ ")"))
    as [rest' ->].
  { rewrite !list_ascii_of_string_app. rewrite !Exists_app.
    right. right. right. by apply Exists_cons_hd. }
  rewrite before_sep_choice by apply pretty_Z_no_space.
  rewrite string_of_list_ascii_of_string. apply int_of_str_pretty.
Qed.

End Choices.

(** ** Deleting, and what the store refuses *)

Section Refusals.
Context `{FloatOps}.

(** A query leaves the store as it is. *)
Lemma fetchall_db {R : Type} (q : database → sql_rows R) (st : app) :
  db (fetchall q st).2 = db st.
Proof.
  apply (holds_fetchall (fun st' => db st' = db st)); done.
Qed.

Lemma fetchone_db {R : Type} (q : database → sql_rows R) (st : app) :
  db (fetchone q st).2 = db st.
Proof.
  apply (holds_fetchone (fun st' => db st' = db st)); done.
Qed.

(** X16: "Delete product and related invoice_items?": whatever is selected
    and answered and whatever the storage does, [delete_product] deletes
    no item, and a product that an item references is still there
    afterwards. *)
Theorem delete_product_deletes_no_item (sel : option Z) (confirm : bool)
    (st : app) :
  let st' := (delete_product sel confirm st).2 in
  invoice_items (db st') = invoice_items (db st)
  ∧ ∀ x p, x ∈ invoice_items (db st) → p ∈ products (db st) →
           Product.id p = InvoiceItem.product_id x → p ∈ products (db st').
Proof.
  set (P := fun st' : app =>
    invoice_items (db st') = invoice_items (db st)
    ∧ ∀ x p, x ∈ invoice_items (db st) → p ∈ products (db st) →
             Product.id p = InvoiceItem.product_id x → p ∈ products (db st')).
  apply (holds_delete_product P); [done | done | | done].
  intros pid st1 r d' [Hitems Hprods]. unfold sql_delete_product.
  destruct (bind_ints _); [done|].
  destruct (negb _); [by intros [= _ <-]|].
  destruct (existsb _ _) eqn:Hex; [done|]. intros [= _ <-].
  split; [done|]. cbn [db products]. intros x p Hx Hp Hid.
  apply list_elem_of_filter. split; [|by eapply Hprods].
  rewrite <- Hitems in Hx.
  pose proof (existsb_false_elem _ _ _ Hex Hx) as Hf. cbn in Hf.
  apply Z.eqb_neq in Hf. by rewrite Hid.
Qed.

(** X17: the DELETE of a product that an item references raises, and
    [delete_product] has no handler: the error leaves the callback and
    the store is as it was. *)
Theorem delete_referenced_product_raises (pid : Z) (p : Product.t)
    (x : InvoiceItem.t) (st : app) :
  faults st = [] → sqlite_int pid = true →
  p ∈ products (db st) → Product.id p = pid →
  x ∈ invoice_items (db st) → InvoiceItem.product_id x = pid →
  delete_product (Some pid) true st
  = (Raise (IntegrityError "FOREIGN KEY constraint failed"), st).
Proof.
  intros Hf Hint Hp Hpid Hx Hxid. unfold delete_product.
  rewrite bind_run. unfold execute.
  erewrite get_conn_raises; [by rewrite app_eta | done |].
  unfold sql_delete_product. rewrite bind_ints_single by done.
  assert (Hex1 : existsb (fun p => (Product.id p =? pid)%Z) (products (db st))
                 = true).
  { apply existsb_exists. exists p. split; [by apply list_elem_of_In|].
    by apply Z.eqb_eq. }
  assert (Hex2 : existsb (fun it => (InvoiceItem.product_id it =? pid)%Z)
                   (invoice_items (db st)) = true).
  { apply existsb_exists. exists x. split; [by apply list_elem_of_In|].
    by apply Z.eqb_eq. }
  by rewrite Hex1, Hex2.
Qed.

(** X18: "Delete invoice and its items?": when the store answers, the invoice
    and its items are gone, the other invoices and the items of the
    other invoices stay, and the item list is emptied. *)
Theorem delete_invoice_cascades (inv_id : Z) (st : app) :
  faults st = [] → sqlite_int inv_id = true →
  items_reference_invoices (db st) →
  ∃ st', delete_invoice (Some inv_id) true st = (Ok (), st')
    ∧ (∀ i, i ∈ invoices (db st') ↔ i ∈ invoices (db st) ∧ Invoice.id i ≠ inv_id)
    ∧ (∀ x, x ∈ invoice_items (db st')
            ↔ x ∈ invoice_items (db st) ∧ InvoiceItem.invoice_id x ≠ inv_id)
    ∧ partners (db st') = partners (db st)
    ∧ products (db st') = products (db st)
    ∧ items_tv st' = [].
Proof.
  intros Hf Hint Href. unfold delete_invoice.
  rewrite bind_run. unfold execute.
  assert (Hrun : ∃ d', sql_delete_invoice inv_id (db st) = inr (None, d')
            ∧ (∀ i, i ∈ invoices d' ↔ i ∈ invoices (db st) ∧ Invoice.id i ≠ inv_id)
            ∧ (∀ x, x ∈ invoice_items d'
                    ↔ x ∈ invoice_items (db st)
                      ∧ InvoiceItem.invoice_id x ≠ inv_id)
            ∧ partners d' = partners (db st) ∧ products d' = products (db st)).
  { unfold sql_delete_invoice. rewrite bind_ints_single by done.
    destruct (existsb _ _) eqn:Hex; cbn [negb].
    - eexists. split; [reflexivity|]. cbn [invoices invoice_items].
      split; [|split; [|done]].
      + intros i. rewrite list_elem_of_filter. tauto.
      + intros x. rewrite list_elem_of_filter. tauto.
    - exists (db st). split; [reflexivity|].
      assert (Hnone : ∀ i, i ∈ invoices (db st) → Invoice.id i ≠ inv_id).
      { intros i Hi. pose proof (existsb_false_elem _ _ _ Hex Hi) as Hne.
        cbn in Hne. by apply Z.eqb_neq in Hne. }
      split; [|split; [|done]].
      + intros i. split; [intros Hi; split; [done | by apply Hnone] | tauto].
      + intros x. split; [|tauto]. intros Hx. split; [done|].
        destruct (Href x Hx) as (i & Hi & <-). by apply Hnone. }
  destruct Hrun as (d' & Hdel & Hinv & Hitems & Hpart & Hprod).
  rewrite (get_conn_ok _ _ _ _ Hf Hdel).
  rewrite bind_run, refresh_invoices_ok by done.
  eexists. split; [reflexivity|]. cbn [db items_tv]. done.
Qed.

Lemma insert_item_nonpositive (i p q : Z) (u lt : real) (d : database) :
  (q ≤ 0)%Z → ∃ e, sql_insert_invoice_item i p q u lt d = inl e.
Proof.
  intros Hq. unfold sql_insert_invoice_item.
  destruct (bind_ints _); [by eexists|].
  destruct (float_is_nan u); [by eexists|].
  destruct (float_is_nan lt); [by eexists|].
  destruct (Z.ltb_spec 0 q); [lia|]. by eexists.
Qed.

Lemma add_item_write_nonpositive (inv_id pid q : Z) (u : real) (st : app) :
  (q ≤ 0)%Z → db (add_item_write inv_id pid q u st).2 = db st.
Proof.
  intros Hq. unfold add_item_write.
  destruct (float_of_int q) as [qf|]; [|done].
  rewrite try_except_run, bind_run. unfold execute.
  destruct (get_conn _ st) as [[r|e] st1] eqn:Hrun;
    apply get_conn_inv in Hrun as (_ & _ & Hdb).
  - destruct (insert_item_nonpositive inv_id pid q u (fmul qf u) (db st) Hq)
      as [e He]. congruence.
  - done.
Qed.

(** X19: a quantity that is not positive passes the validation when it is
    not 0, but it is never stored: whatever else is typed and selected,
    and whatever the storage does, "Add Item" with such a quantity leaves
    the store as it was. *)
Theorem nonpositive_quantity_is_never_stored (product_cb qty_e unit_e : string)
    (sel : option Z) (q : Z) (st : app) :
  int_of_str (strip qty_e) = Some q → (q ≤ 0)%Z →
  db (add_item_to_invoice product_cb qty_e unit_e sel st).2 = db st.
Proof.
  intros Hqty Hq. unfold add_item_to_invoice. rewrite Hqty.
  destruct (int_of_str (split_head _ _)) as [pid|]; [|done].
  destruct sel as [inv_id|]; [|done].
  destruct (negb (bool_decide _)); [done|].
  destruct (if negb _ then _ else _) as [u|];
    [by apply add_item_write_nonpositive|].
  rewrite bind_run.
  pose proof (fetchone_db (sql_select_price pid) st) as Hdb.
  destruct (fetchone (sql_select_price pid) st) as [[[price|]|e] st1];
    cbn [snd] in *; [|done|done].
  by rewrite add_item_write_nonpositive.
Qed.

End Refusals.

(** ** Partners: what the form stores *)

Section PartnerForm.
Context `{FloatOps}.

Lemma partner_form_fields (n t e p a : string) :
  let data := partner_form n t e p a in
  get data "name" = PyStr (strip n) ∧ get data "tax_id" = PyStr (strip t)
  ∧ get data "email" = PyStr (strip e) ∧ get data "phone" = PyStr (strip p)
  ∧ get data "address" = PyStr (strip a).
Proof. repeat split; reflexivity. Qed.

(** X20: "Add" with a form that passes the validation, when the store
    answers: the partner table gains one row, with a new id above every
    id of the table and with the five texts as typed but for the blanks
    around them; nothing else changes and the success is reported. *)
Theorem add_partner_stores_stripped_texts (n t e p a : string) (st : app) :
  faults st = [] → validate_partner_row (partner_form n t e p a) = [] →
  ∃ id,
    add_partner n t e p a st
    = (Ok (),
       mkapp (mkdb (partners (db st)
                      ++ [Partner.mk id (strip n) (Some (strip t))
                            (Some (strip e)) (Some (strip p)) (Some (strip a))])%list
                   (products (db st)) (invoices (db st)) (invoice_items (db st))
                   id (seq_products (db st)) (seq_invoices (db st))
                   (seq_invoice_items (db st)))
             (items_tv st)
             (dialogs st ++ [ShowInfo "✅ SUCCESS" "Partner added!"])%list [])
    ∧ ∀ q, q ∈ partners (db st) → (Partner.id q < id)%Z.
Proof.
  intros Hf Hvalid. unfold add_partner. rewrite Hvalid.
  rewrite bool_decide_eq_true_2 by done. cbn [negb].
  destruct (partner_form_fields n t e p a) as (-> & -> & -> & -> & ->).
  cbn [sql_text]. rewrite try_except_run, bind_run. unfold execute.
  erewrite get_conn_ok; [|done|reflexivity].
  rewrite bind_run. unfold refresh_partners. rewrite bind_run.
  erewrite fetchall_ok; [|done|reflexivity].
  eexists. split; [reflexivity|].
  intros q Hq. apply next_rowid_fresh. apply list_elem_of_fmap. by exists q.
Qed.

(** X21: "Save update" for a partner that is no longer in the table, with a
    form that passes the validation: nothing is changed, and "Partner
    updated!" is shown all the same. *)
Theorem save_update_of_missing_partner (pid : Z) (n t e p a : string)
    (st : app) :
  faults st = [] → sqlite_int pid = true →
  validate_partner_row (partner_form n t e p a) = [] →
  (∀ q, q ∈ partners (db st) → Partner.id q ≠ pid) →
  save_partner_update pid n t e p a st
  = (Ok (),
     mkapp (db st) (items_tv st)
       (dialogs st ++ [ShowInfo "✅ SUCCESS" "Partner updated!"])%list []).
Proof.
  intros Hf Hint Hvalid Hnone. unfold save_partner_update. rewrite Hvalid.
  rewrite bool_decide_eq_true_2 by done. cbn [negb].
  rewrite try_except_run, bind_run. unfold execute.
  erewrite get_conn_ok; [|done|].
  2:{ unfold sql_update_partner. rewrite bind_ints_single by done.
      assert (Hex : existsb (fun q => (Partner.id q =? pid)%Z) (partners (db st))
                    = false).
      { apply not_true_is_false. intros (q & Hq & Heq)%existsb_true_elem.
        apply Z.eqb_eq in Heq. by apply (Hnone q). }
      rewrite Hex. reflexivity. }
  rewrite bind_run. unfold refresh_partners. rewrite bind_run.
  erewrite fetchall_ok; [|done|reflexivity].
  reflexivity.
Qed.

End PartnerForm.

(** ** The id column of an import file *)

Section ImportId.
Context `{FloatOps}.

Lemma foldl_insert_delete (k : string) (kvs : list (string * string)) :
  ∀ m : gmap string pyval,
    k ∉ kvs.*1 →
    delete k (foldl (fun m kv => <[kv.1 := PyStr kv.2]> m) m kvs)
    = foldl (fun m kv => <[kv.1 := PyStr kv.2]> m) (delete k m) kvs.
Proof.
  induction kvs as [|[k' v] kvs IH]; intros m Hk; [done|].
  rewrite fmap_cons in Hk. apply not_elem_of_cons in Hk as [Hne Hk].
  cbn [foldl fst snd]. rewrite IH by done.
  by rewrite delete_insert_ne.
Qed.

Lemma zip_keys (cols cells : list string) (k : string) :
  k ∉ cols → k ∉ (zip cols cells).*1.
Proof.
  intros Hk Hin. apply Hk.
  apply list_elem_of_fmap in Hin as ([k' v] & -> & Hin).
  by apply elem_of_zip_l in Hin.
Qed.

(** The cell of the id column has no part in the field map of a row. *)
Lemma to_dict_without_id (cols : list string) (c : string) (row : list string) :
  "id" ∉ cols →
  delete "id" (to_dict ("id" :: cols) (c :: row)) = delete "id" (to_dict cols row).
Proof.
  intros Hk. unfold to_dict. cbn [zip zip_with foldl fst snd].
  rewrite !foldl_insert_delete by by apply zip_keys.
  by rewrite delete_insert_eq.
Qed.

Lemma id_not_partner_column : "id" ∉ partners_basic.
Proof. unfold partners_basic. rewrite !not_elem_of_cons. by repeat split; try apply not_elem_of_nil. Qed.

Lemma id_not_product_column : "id" ∉ products_basic.
Proof. unfold products_basic. rewrite !not_elem_of_cons. by repeat split; try apply not_elem_of_nil. Qed.

Lemma import_partner_rows_without_id (rows : list (string * list string)) :
  ∀ i errors added st,
    import_partner_rows ("id" :: partners_basic) i
      ((fun r => r.1 :: r.2) <$> rows) errors added st
    = import_partner_rows partners_basic i (snd <$> rows) errors added st.
Proof.
  induction rows as [|[c row] rows IH]; intros i errors added st; [done|].
  cbn [fmap list_fmap import_partner_rows fst snd]. rewrite !bind_run.
  unfold import_partner_row.
  rewrite to_dict_without_id by apply id_not_partner_column.
  match goal with |- match ?m with _ => _ end = _ =>
    destruct m as [[[errors' added']|e] st1] end; [apply IH | done].
Qed.

Lemma import_product_rows_without_id (rows : list (string * list string)) :
  ∀ i errors added st,
    import_product_rows ("id" :: products_basic) i
      ((fun r => r.1 :: r.2) <$> rows) errors added st
    = import_product_rows products_basic i (snd <$> rows) errors added st.
Proof.
  induction rows as [|[c row] rows IH]; intros i errors added st; [done|].
  cbn [fmap list_fmap import_product_rows fst snd]. rewrite !bind_run.
  unfold import_product_row.
  rewrite to_dict_without_id by apply id_not_product_column.
  match goal with |- match ?m with _ => _ end = _ =>
    destruct m as [[[errors' added']|e] st1] end; [apply IH | done].
Qed.

(** X13: the id column of an import file is ignored: a file with the column
    does to the store and shows in its dialogs what the same file without
    the column does, whatever the cells of the column hold; the ids are
    those the store assigns. *)
Theorem import_ignores_the_id_column (rows : list (string * list string))
    (st : app) :
  import_partners_csv
    (Some (mkdf ("id" :: partners_basic) ((fun r => r.1 :: r.2) <$> rows))) st
  = import_partners_csv (Some (mkdf partners_basic (snd <$> rows))) st
  ∧ import_products_csv
      (Some (mkdf ("id" :: products_basic) ((fun r => r.1 :: r.2) <$> rows))) st
    = import_products_csv (Some (mkdf products_basic (snd <$> rows))) st.
Proof.
  split.
  - unfold import_partners_csv. cbn [columns df_rows].
    rewrite !bool_decide_eq_true_2
      by (rewrite !elem_of_cons; auto). cbn [negb].
    rewrite !bind_run. by rewrite import_partner_rows_without_id.
  - unfold import_products_csv. cbn [columns df_rows].
    rewrite !bool_decide_eq_true_2
      by (rewrite !elem_of_cons; auto). cbn [negb].
    rewrite !bind_run. by rewrite import_product_rows_without_id.
Qed.

End ImportId.

(** ** Runs of the properties *)

Lemma schema_kept_by_every_callback_witness :
  schema_ok (db (run_window_ops demo_session (mkapp init_db [] [] [false; true]))).
Proof.
  apply (schema_kept_by_every_callback (H := Decimal.ops)).
  split; cbn; try apply NoDup_nil_2; try by intros ? ?%elem_of_nil.
Defined.

Lemma import_partners_report_is_exact_witness :
  ∃ (added nerr : Z) (st' : app),
    import_partners_csv (Some five_partner_rows) demo_app = (Ok (), st')
    ∧ ShowInfo "Import partners"
        ("Added " ++ pretty added ++ " rows. Errors: " ++ pretty nerr)
      ∈ dialogs st'
    ∧ (added + nerr = Z.of_nat (length (df_rows five_partner_rows)))%Z
    ∧ (0 ≤ added)%Z ∧ (0 ≤ nerr)%Z
    ∧ (Z.of_nat (length (partners (db st')))
       = Z.of_nat (length (partners (db demo_app))) + added)%Z.
Proof.
  apply (import_partners_report_is_exact (H := Decimal.ops)).
  apply list_elem_of_further, list_elem_of_here.
Defined.

Lemma import_products_report_is_exact_witness :
  ∃ (added nerr : Z) (st' : app),
    import_products_csv (Some three_product_rows) demo_app = (Ok (), st')
    ∧ ShowInfo "Import products"
        ("Added " ++ pretty added ++ " rows. Errors: " ++ pretty nerr)
      ∈ dialogs st'
    ∧ (added + nerr = Z.of_nat (length (df_rows three_product_rows)))%Z
    ∧ (0 ≤ added)%Z ∧ (0 ≤ nerr)%Z
    ∧ (Z.of_nat (length (products (db st')))
       = Z.of_nat (length (products (db demo_app))) + added)%Z.
Proof.
  apply (import_products_report_is_exact (H := Decimal.ops)).
  apply list_elem_of_here.
Defined.

Lemma partner_choice_round_trip_witness :
  int_of_str
    (split_head " - "
       (strip (partner_choice (Partner.mk 12 "Acme - West " None None None None))))
  = Some 12%Z.
Proof.
  apply (partner_choice_round_trip
           (Partner.mk 12 "Acme - West " None None None None)).
  vm_compute. discriminate.
Defined.

Lemma delete_referenced_product_raises_witness :
  delete_product (Some 1%Z) true demo_item_app
  = (Raise (IntegrityError "FOREIGN KEY constraint failed"), demo_item_app).
Proof.
  eapply (delete_referenced_product_raises (H := Decimal.ops) 1);
    [reflexivity | reflexivity | apply list_elem_of_here | reflexivity
    | apply list_elem_of_here | reflexivity].
Defined.

Lemma delete_invoice_cascades_witness :
  ∃ st', delete_invoice (Some 1%Z) true demo_item_app = (Ok (), st')
    ∧ (∀ i, i ∈ invoices (db st')
            ↔ i ∈ invoices (db demo_item_app) ∧ Invoice.id i ≠ 1%Z)
    ∧ (∀ x, x ∈ invoice_items (db st')
            ↔ x ∈ invoice_items (db demo_item_app)
              ∧ InvoiceItem.invoice_id x ≠ 1%Z)
    ∧ partners (db st') = partners (db demo_item_app)
    ∧ products (db st') = products (db demo_item_app)
    ∧ items_tv st' = [].
Proof.
  apply (delete_invoice_cascades (H := Decimal.ops) 1 demo_item_app);
    [reflexivity | reflexivity |].
  intros x ->%list_elem_of_singleton. eexists.
  split; [apply list_elem_of_here | reflexivity].
Defined.

Lemma nonpositive_quantity_is_never_stored_witness :
  db (add_item_to_invoice "1 - Widget (price:9.99)" "-3" "" (Some 1%Z)
        demo_app).2
  = db demo_app.
Proof.
  apply (nonpositive_quantity_is_never_stored (H := Decimal.ops) _ _ _ _ (-3));
    [reflexivity | lia].
Defined.

Lemma add_partner_stores_stripped_texts_witness :
  ∃ id,
    add_partner " Bolt " "T2" "b@bolt.com " "2" "Street 2" demo_app
    = (Ok (),
       mkapp (mkdb (partners demo_db
                      ++ [Partner.mk id "Bolt" (Some "T2") (Some "b@bolt.com")
                            (Some "2") (Some "Street 2")])%list
                   (products demo_db) (invoices demo_db) (invoice_items demo_db)
                   id 1 1 0)
             [] [ShowInfo "✅ SUCCESS" "Partner added!"] [])
    ∧ ∀ q, q ∈ partners demo_db → (Partner.id q < id)%Z.
Proof.
  apply (add_partner_stores_stripped_texts (H := Decimal.ops)
           " Bolt " "T2" "b@bolt.com " "2" "Street 2" demo_app);
    reflexivity.
Defined.

Lemma save_update_of_missing_partner_witness :
  save_partner_update 7 "Bolt" "T2" "b@bolt.com" "2" "Street 2" demo_app
  = (Ok (),
     mkapp demo_db [] [ShowInfo "✅ SUCCESS" "Partner updated!"] []).
Proof.
  apply (save_update_of_missing_partner (H := Decimal.ops)
           7 "Bolt" "T2" "b@bolt.com" "2" "Street 2" demo_app);
    [reflexivity | reflexivity | reflexivity |].
  intros q ->%list_elem_of_singleton. discriminate.
Defined.
